(** * The spiff flow engine: annotated nodes, the flow dispatcher, the [for] control

    A shallow embedding of [yaml/node.go], [flow/flow.go] and
    [dynaml/control/for.go].  Go maps are [gmap string _], slices are lists,
    a nil-able interface value is an [option]; the tag registry, the only state
    the flow mutates, is passed explicitly. *)

From Stdlib Require Import PrimFloat Floats ZArith Ascii String OrdersEx.
From stdpp Require Import gmap strings list fin_maps sorting pretty.

Set Warnings "-register-all".

#[local] Open Scope Z_scope.
#[local] Open Scope string_scope.

(** ** What package dynaml contributes to the data model

    The expression language is a collaborator of the engine: its syntax trees
    and template closures are types of package dynaml, whose sources are not
    part of this development.  The engine only moves these values around, so
    they are kept abstract. *)
Class Dsl := {
  Expression : Type;
  TemplateValue : Type;
  MarkerExpr : Type;
  Features : Type;
  (* reflect.DeepEqual on two expression (resp. template) values *)
  Expression_DeepEqual : Expression → Expression → bool;
  TemplateValue_DeepEqual : TemplateValue → TemplateValue → bool
}.

(** ** Package yaml *)
Module yaml.
Section node.
Context `{Dsl}.

(** [type Issue struct { Issue string; Nested []Issue }] *)
Inductive Issue := mkIssue (Issue_Issue : string) (Issue_Nested : list Issue).

Definition Issue_Issue (i : Issue) : string := let 'mkIssue s _ := i in s.
Definition Issue_Nested (i : Issue) : list Issue := let 'mkIssue _ l := i in l.

(** [fmt.Sprintf(msg, args...)] is applied by the caller: [NewIssue] receives
    the formatted text. *)
Definition NewIssue (msg : string) : Issue := mkIssue msg [].

(** The zero value [Issue{}]. *)
Definition Issue_zero : Issue := mkIssue "" [].

(** Modelled from the spec: the flag set of a node ("Bit flags", spec 3.2) is an
    integer bit mask; the type NodeFlags and its constants are declared in a
    file of package yaml that is not part of this development. *)
Definition NodeFlags := Z.

(** [type Annotation struct].  The fields up to [issue] are those of
    [node.go]; a slice that may be nil is an [option].

    Modelled from the spec: [tag], [flags] and [template] (spec 3.2) are read
    and written by [flow.go] through accessors that [node.go] does not
    declare. *)
Record Annotation := mkAnnotation {
  redirectPath : option (list string);
  temporary : bool;
  replace : bool;
  preferred : bool;
  merged : bool;
  keyName : string;
  error : bool;
  failed : bool;
  undefined : bool;
  issue : Issue;
  tag : string;
  flags : NodeFlags;
  template : option TemplateValue
}.

(** [value interface{}]: the kinds of value a node holds.  Integers are already
    64-bit (see [MassageType]). *)
Inductive value :=
| VNil
| VBool (b : bool)
| VInt (i : Z)
| VFloat (f : float)
| VString (s : string)
| VList (l : list Node)
| VMap (m : gmap string Node)
| VExpr (e : Expression)
| VTemplate (t : TemplateValue)
with Node :=
| AnnotatedNode (value_ : value) (sourceName : string) (annotation : Annotation).

Definition Value (n : Node) : value := let 'AnnotatedNode v _ _ := n in v.
Definition SourceName (n : Node) : string := let 'AnnotatedNode _ s _ := n in s.
Definition GetAnnotation (n : Node) : Annotation := let 'AnnotatedNode _ _ a := n in a.

(** [len(s)] of a nil-able slice. *)
Definition len_path (p : option (list string)) : nat :=
  match p with None => 0%nat | Some l => length l end.

(** *** Accessors of [Annotation] *)
Definition Annotation_RedirectPath (n : Annotation) := redirectPath n.
Definition Annotation_Temporary (n : Annotation) := temporary n.
Definition Annotation_ReplaceFlag (n : Annotation) := replace n.
Definition Annotation_Preferred (n : Annotation) := preferred n.

Definition Annotation_Merged (n : Annotation) : bool :=
  merged n || Annotation_ReplaceFlag n
  || bool_decide (0 < len_path (Annotation_RedirectPath n))%nat.

Definition Annotation_KeyName (n : Annotation) := keyName n.
Definition Annotation_HasError (n : Annotation) := error n.
Definition Annotation_Failed (n : Annotation) := failed n.
Definition Annotation_Undefined (n : Annotation) := undefined n.
Definition Annotation_Issue (n : Annotation) := issue n.

(** *** Updates of [Annotation] (value receivers: each returns a copy) *)
Definition SetTemporary (n : Annotation) : Annotation :=
  mkAnnotation (redirectPath n) true (replace n) (preferred n) (merged n)
    (keyName n) (error n) (failed n) (undefined n) (issue n)
    (tag n) (flags n) (template n).

Definition SetRedirectPath (n : Annotation) (redirect : option (list string)) : Annotation :=
  mkAnnotation redirect (temporary n) (replace n) (preferred n) (merged n)
    (keyName n) (error n) (failed n) (undefined n) (issue n)
    (tag n) (flags n) (template n).

Definition SetReplaceFlag (n : Annotation) : Annotation :=
  mkAnnotation (redirectPath n) (temporary n) true (preferred n) (merged n)
    (keyName n) (error n) (failed n) (undefined n) (issue n)
    (tag n) (flags n) (template n).

Definition SetPreferred (n : Annotation) : Annotation :=
  mkAnnotation (redirectPath n) (temporary n) (replace n) true (merged n)
    (keyName n) (error n) (failed n) (undefined n) (issue n)
    (tag n) (flags n) (template n).

Definition SetMerged (n : Annotation) : Annotation :=
  mkAnnotation (redirectPath n) (temporary n) (replace n) (preferred n) true
    (keyName n) (error n) (failed n) (undefined n) (issue n)
    (tag n) (flags n) (template n).

Definition SetUndefined (n : Annotation) : Annotation :=
  mkAnnotation (redirectPath n) (temporary n) (replace n) (preferred n) (merged n)
    (keyName n) (error n) (failed n) true (issue n)
    (tag n) (flags n) (template n).

Definition AddKeyName (n : Annotation) (keyName' : string) : Annotation :=
  if negb (String.eqb keyName' "")
  then mkAnnotation (redirectPath n) (temporary n) (replace n) (preferred n) (merged n)
         keyName' (error n) (failed n) (undefined n) (issue n)
         (tag n) (flags n) (template n)
  else n.

Definition AddIssue (n : Annotation) (error' failed' : bool) (issue' : Issue) : Annotation :=
  let n1 :=
    if negb (String.eqb (Issue_Issue issue') "")
    then mkAnnotation (redirectPath n) (temporary n) (replace n) (preferred n) (merged n)
           (keyName n) (error n) (failed n) (undefined n) issue'
           (tag n) (flags n) (template n)
    else n in
  mkAnnotation (redirectPath n1) (temporary n1) (replace n1) (preferred n1) (merged n1)
    (keyName n1) error' failed' (undefined n1) (issue n1)
    (tag n1) (flags n1) (template n1).

Definition EmptyAnnotation : Annotation :=
  mkAnnotation None false false false false "" false false false Issue_zero
    "" 0 None.

(** *** The methods of the [Node] interface (promoted from the embedded
    [Annotation]) *)
Definition RedirectPath (n : Node) := Annotation_RedirectPath (GetAnnotation n).
Definition Temporary (n : Node) := Annotation_Temporary (GetAnnotation n).
Definition ReplaceFlag (n : Node) := Annotation_ReplaceFlag (GetAnnotation n).
Definition Preferred (n : Node) := Annotation_Preferred (GetAnnotation n).
Definition Merged (n : Node) := Annotation_Merged (GetAnnotation n).
Definition KeyName (n : Node) := Annotation_KeyName (GetAnnotation n).
Definition HasError (n : Node) := Annotation_HasError (GetAnnotation n).
Definition Failed (n : Node) := Annotation_Failed (GetAnnotation n).
Definition Undefined (n : Node) := Annotation_Undefined (GetAnnotation n).
Definition Issue_of (n : Node) := Annotation_Issue (GetAnnotation n).

(** [MassageType] widens the small integer types to int64; [VInt] holds an
    int64 to begin with, so nothing is left to do. *)
Definition MassageType (v : value) : value := v.

Definition NewReferencedAnnotation (node : Node) : Annotation :=
  mkAnnotation None false false false false (KeyName node) (HasError node)
    (Failed node) (Undefined node) (Issue_of node) "" 0 None.

(** *** Node constructors *)
Definition NewNode (v : value) (sourcePath : string) : Node :=
  AnnotatedNode (MassageType v) sourcePath EmptyAnnotation.

Definition ReplaceValue (v : value) (node : Node) : Node :=
  AnnotatedNode v (SourceName node) (GetAnnotation node).

Definition ReferencedNode (node : Node) : Node :=
  AnnotatedNode (Value node) (SourceName node) (NewReferencedAnnotation node).

Definition SubstituteNode (v : value) (node : Node) : Node :=
  AnnotatedNode (MassageType v) (SourceName node) (GetAnnotation node).

Definition RedirectNode (v : value) (node : Node) (redirect : option (list string)) : Node :=
  AnnotatedNode (MassageType v) (SourceName node)
    (SetRedirectPath (GetAnnotation node) redirect).

Definition ReplaceNode (v : value) (node : Node) (redirect : option (list string)) : Node :=
  AnnotatedNode (MassageType v) (SourceName node)
    (SetRedirectPath (SetReplaceFlag (GetAnnotation node)) redirect).

Definition PreferredNode (node : Node) : Node :=
  AnnotatedNode (Value node) (SourceName node) (SetPreferred (GetAnnotation node)).

Definition MergedNode (node : Node) : Node :=
  AnnotatedNode (Value node) (SourceName node) (SetMerged (GetAnnotation node)).

Definition KeyNameNode (node : Node) (keyName' : string) : Node :=
  AnnotatedNode (Value node) (SourceName node) (AddKeyName (GetAnnotation node) keyName').

Definition IssueNode (node : Node) (error' failed' : bool) (issue' : Issue) : Node :=
  AnnotatedNode (Value node) (SourceName node)
    (AddIssue (GetAnnotation node) error' failed' issue').

Definition UndefinedNode (node : Node) : Node :=
  AnnotatedNode (Value node) (SourceName node) (SetUndefined (GetAnnotation node)).

Definition TemporaryNode (node : Node) : Node :=
  AnnotatedNode (Value node) (SourceName node) (SetTemporary (GetAnnotation node)).

(** *** Equivalence of nodes *)

(** [reflect.DeepEqual(n.Value(), o.Value())] where it is reached: both
    values have the same dynamic type, which is neither a map nor a slice of
    nodes.  Floats compare with [==] (a NaN differs from itself). *)
Definition DeepEqual_leaf (a b : value) : bool :=
  match a, b with
  | VNil, VNil => true
  | VBool x, VBool y => bool_decide (x = y)
  | VInt x, VInt y => bool_decide (x = y)
  | VFloat x, VFloat y => PrimFloat.eqb x y
  | VString x, VString y => bool_decide (x = y)
  | VExpr x, VExpr y => Expression_DeepEqual x y
  | VTemplate x, VTemplate y => TemplateValue_DeepEqual x y
  | _, _ => false
  end.

(** [func (n AnnotatedNode) EquivalentToNode(o Node) bool].  A mismatch of the
    two constructors is the test [at != bt]. *)
Fixpoint EquivalentToNode (n : Node) (o : option Node) {struct n} : bool :=
  match o with
  | None => false
  | Some o =>
      match Value n, Value o with
      | VMap nv, VMap ov =>
          if negb (bool_decide (size nv = size ov)) then false
          else
            map_fold (λ key nval acc,
                acc && match ov !! key with
                       | None => false
                       | Some oval => EquivalentToNode nval (Some oval)
                       end) true nv
      | VList nv, VList ov =>
          if negb (bool_decide (length nv = length ov)) then false
          else
            (fix loop (nv ov : list Node) {struct nv} : bool :=
               match nv, ov with
               | nval :: nv', oval :: ov' =>
                   EquivalentToNode nval (Some oval) && loop nv' ov'
               | _, _ => true
               end) nv ov
      | VMap _, _ | _, VMap _ | VList _, _ | _, VList _ => false
      | a, b => DeepEqual_leaf a b
      end
  end.

(** *** The part of package yaml that [flow.go] uses and [node.go] does not
    declare *)

(** Modelled from the spec: accessors of the fields [tag], [flags] and
    [template] (spec 3.2). *)
Definition Annotation_Tag (n : Annotation) := tag n.
Definition Flags (n : Node) : NodeFlags := flags (GetAnnotation n).
Definition Template (n : Node) : option TemplateValue := template (GetAnnotation n).

(** Modelled from the spec: [Merged()] as [flow.go] calls it.  [flow.go] is
    written against a later form of package yaml than [node.go] (it calls
    [Flags], [Template] and [StandardOverride], which [node.go] does not
    declare), and the accessor of that package is not part of this
    development.  The spec keeps the three annotations apart: [merged] says
    that "this node is the product of a merge" (spec 3.2); a replaced node
    skips the content rewriting, a merged one is returned as it is, and a
    redirected one is neither (spec 4.1, steps 1 to 3); the stub override
    asks for a node that is not merged and, besides, for one that is not
    replaced or redirected (spec 4.1, step 5).  The accessor reads the
    annotation [merged] alone; [Merged] above is the accessor of [node.go]. *)
Definition Merged' (n : Node) : bool := merged (GetAnnotation n).

(** Modelled from the spec: a "standard" node is one "not already replaced or
    redirected by an in-document directive" (spec 4.1, step 5). *)
Definition StandardOverride (n : Node) : bool :=
  negb (ReplaceFlag n) && bool_decide (len_path (RedirectPath n) = 0%nat).

(** Modelled from the spec: flags are OR-ed into the annotation (spec 4.1,
    4.5); value, source name and the other fields stay. *)
Definition AddFlags (node : Node) (flags' : NodeFlags) : Node :=
  let n := GetAnnotation node in
  AnnotatedNode (Value node) (SourceName node)
    (mkAnnotation (redirectPath n) (temporary n) (replace n) (preferred n) (merged n)
       (keyName n) (error n) (failed n) (undefined n) (issue n)
       (tag n) (Z.lor (flags n) flags') (template n)).

(** Modelled from the spec: the tag is a field of the annotation (spec 3.2). *)
Definition SetTag (node : Node) (tag' : string) : Node :=
  let n := GetAnnotation node in
  AnnotatedNode (Value node) (SourceName node)
    (mkAnnotation (redirectPath n) (temporary n) (replace n) (preferred n) (merged n)
       (keyName n) (error n) (failed n) (undefined n) (issue n)
       tag' (flags n) (template n)).

(** Modelled from the spec: a fresh node that retains a template for
    re-substitution (spec 3.2, 4.6). *)
Definition NewDynamicNode (v : value) (template' : option TemplateValue)
    (sourcePath : string) : Node :=
  AnnotatedNode (MassageType v) sourcePath
    (mkAnnotation None false false false false "" false false false Issue_zero
       "" 0 template').

(** Modelled from the spec: the alternative spelling of the merge key
    (spec 4.2, step 2). *)
Definition MERGEKEY : string := "<<<".

(** Modelled from the spec: the keys of a map in sorted order (spec 3.4,
    invariant 6). *)
Definition GetSortedKeys {A} (m : gmap string A) : list string :=
  merge_sort (λ a b : string, String.leb a b) (map fst (map_to_list m)).

End node.

(** The flag constants and the helpers of package yaml whose declarations are
    not part of this development. *)
Class Helpers `{Dsl} := {
  FLAG_TEMPORARY : NodeFlags;
  FLAG_STATE : NodeFlags;
  FLAG_DEFAULT : NodeFlags;
  FLAG_INJECT : NodeFlags;
  FLAG_INJECTED : NodeFlags;
  FLAG_IMPLIED : NodeFlags;
  FLAG_DYNAMIC : NodeFlags;
  PropagateImplied : NodeFlags → bool;
  Overridden : NodeFlags → NodeFlags;
  (* the expression text embedded in a string node, if any; the flag enables
     interpolation *)
  EmbeddedDynaml : Node → bool → option string;
  FindString : Node → Features → string → option string;
  FindStringR : bool → Node → option Features → string → option string;
  FindR : bool → Node → option Features → string → option Node;
  (* the inner node and the key of an inline list merge entry *)
  UnresolvedListEntryMerge : Node → option (Node * string)
}.

Section flags.
Context `{Helpers}.

(** Modelled from the spec: a flag is set when its bit is (spec 3.2). *)
Definition has_flag (f bit : NodeFlags) : bool := negb (Z.eqb (Z.land f bit) 0).
Definition Temporary_flag (f : NodeFlags) := has_flag f FLAG_TEMPORARY.
Definition Default (f : NodeFlags) := has_flag f FLAG_DEFAULT.
Definition Inject (f : NodeFlags) := has_flag f FLAG_INJECT.
Definition Injected (f : NodeFlags) := has_flag f FLAG_INJECTED.
Definition Dynamic (f : NodeFlags) := has_flag f FLAG_DYNAMIC.

End flags.
End yaml.

(** ** Package dynaml: the interface the engine consumes

    None of this package's sources is part of this development; the engine's
    view of it (spec 6.2) is the signature below. *)
Module dynaml.

(** Modelled from the spec: what an evaluation reports besides its value
    (spec 4.5, step 2). *)
Record EvaluationInfo `{Dsl} := mkInfo {
  info_RedirectPath : option (list string);
  info_Replace : bool;
  info_Merged : bool;
  info_Preferred : bool;
  info_KeyName : string;
  info_Undefined : bool;
  info_Failed : bool;
  info_Issue : yaml.Issue;
  info_NodeFlags : yaml.NodeFlags;
  info_SourceName : string
}.

(** [type TagScope int] *)
Definition TagScope := Z.

Class API `{Dsl} := {
  (* the evaluation context, and the state of a run behind env.GetState() *)
  Binding : Type;
  State : Type;
  (* methods of Binding *)
  Path : Binding → list string;
  StubPath : Binding → list string;
  SourceName : Binding → string;
  NoMerge : Binding → bool;
  RedirectOverwrite : Binding → list string → Binding;
  WithSource : Binding → string → Binding;
  WithScope : Binding → gmap string yaml.Node → Binding;
  WithLocalScope : Binding → gmap string yaml.Node → Binding;
  WithPath : Binding → string → Binding;
  (* [(node, found)]: a node when found *)
  FindInStubs : Binding → list string → option yaml.Node;
  GetFeatures : Binding → Features;
  (* env.GetState().InterpolationEnabled() *)
  InterpolationEnabled : Binding → bool;
  (* env.GetState().SetTag(...): the error text, if any, and the registry *)
  SetTag : string → yaml.Node → list string → TagScope → State → option string * State;
  TAG_LOCAL : TagScope;
  TAG_SCOPE_GLOBAL : TagScope;
  TAG_SCOPE_STREAM : TagScope;
  (* package-level functions *)
  IsResolvedNode : yaml.Node → Binding → bool;
  IsControl : yaml.Node → Binding → bool * option string;
  IsExpression : yaml.value → bool;
  IssueNode : Binding → bool → yaml.Node → bool → bool → yaml.Issue → yaml.Node;
  RequireTemplate : string → Binding → bool;
  ExpressionType : yaml.value → string;
  Parse : string → list string → list string → Expression + string;
  (* expressions *)
  Evaluate : Expression → Binding → bool → State →
             (yaml.value * EvaluationInfo * bool) * State;
  (* the type assertion [.(MergeExpr)]: the field Required when it holds *)
  asMergeExpr : Expression → option bool;
  (* SubstitutionExpr{ValueExpr{t}} *)
  SubstitutionExpr : TemplateValue → Expression;
  NewTemplateValue : list string → yaml.Node → yaml.Node → Binding → TemplateValue;
  (* evaluation info *)
  DefaultInfo : EvaluationInfo;
  SetError : EvaluationInfo → string → EvaluationInfo;
  Cleanup : EvaluationInfo → option string;
  (* markers; [asMarkerExpr] is the type assertion [.(MarkerExpr)] *)
  TEMPLATE : string;
  asMarkerExpr : Expression → option MarkerExpr;
  NewTemplateMarker : option Expression → MarkerExpr;
  Add : MarkerExpr → string → MarkerExpr;
  Has : MarkerExpr → string → bool;
  GetTag : MarkerExpr → string;
  GetFlags : MarkerExpr → yaml.NodeFlags;
  TemplateExpression : MarkerExpr → yaml.Node → option yaml.Node;
  (* controls: the name of the control, its node, a format and its arguments *)
  ControlIssue : string → yaml.Node → string → list yaml.value → yaml.Node * bool;
  ControlIssueByIssue : string → yaml.Node → yaml.Issue → bool → yaml.Node * bool;
  Short : yaml.value → bool → string;
  Shorten : string → string
}.

End dynaml.

(** ** Effects: the registry state, a Go panic, and running out of fuel *)
Section effects.
Context `{Dsl} `{!dynaml.API}.

Inductive Res (A : Type) :=
| Ok (a : A)
| Panic
| OutOfFuel.

(** A computation that reads and writes the state of the run. *)
Definition M (A : Type) : Type := dynaml.State → Res (A * dynaml.State).

Definition ret {A} (a : A) : M A := λ s, Ok _ (a, s).

Definition bind {A B} (m : M A) (f : A → M B) : M B :=
  λ s, match m s with
       | Ok _ (a, s') => f a s'
       | Panic _ => Panic _
       | OutOfFuel _ => OutOfFuel _
       end.

Definition panic {A} : M A := λ _, Panic _.
Definition out_of_fuel {A} : M A := λ _, OutOfFuel _.

(** A [for ... range] loop over a slice whose body runs in [M]. *)
Fixpoint foldM {A B} (f : B → A → M B) (l : list A) (b : B) : M B :=
  match l with
  | [] => ret b
  | a :: l' => bind (f b a) (foldM f l')
  end.

End effects.

Arguments Ok {A} a.
Arguments Panic {A}.
Arguments OutOfFuel {A}.

(** [x ← m; k] is [bind m (λ x, k)] and [mret] is [ret]. *)
#[global] Instance M_ret `{Dsl} `{!dynaml.API} : MRet M := @ret _ _.
#[global] Instance M_bind `{Dsl} `{!dynaml.API} : MBind M := λ A B f m, bind m f.

(** ** Package flow *)
Module flow.
Section flow.
Context `{Dsl} `{!yaml.Helpers} `{!dynaml.API}.

(** The signature of [flow] and [_flow]. *)
Definition FlowFn : Type := yaml.Node → dynaml.Binding → bool → bool → M yaml.Node.

(** [flowControl] belongs to package flow but to a file that is not part of
    this development: it hands a control map to its registered handler.  Of its
    three results [flowMap] uses the first. *)
Class Control := {
  flowControl : yaml.Node → gmap string yaml.Node → dynaml.Binding → M yaml.Node
}.
Context `{!Control}.

(** The type assertions and [== nil] tests on [Value()]. *)
Definition is_expr (v : yaml.value) : bool :=
  match v with yaml.VExpr _ => true | _ => false end.
Definition is_map (v : yaml.value) : bool :=
  match v with yaml.VMap _ => true | _ => false end.
Definition is_string (v : yaml.value) : bool :=
  match v with yaml.VString _ => true | _ => false end.
Definition is_nil (v : yaml.value) : bool :=
  match v with yaml.VNil => true | _ => false end.
Definition is_template (v : yaml.value) : bool :=
  match v with yaml.VTemplate _ => true | _ => false end.

Definition get_inherited_flags (env : dynaml.Binding) : yaml.NodeFlags * option yaml.Node :=
  match dynaml.FindInStubs env (dynaml.StubPath env) with
  | Some overridden =>
      (Z.land (yaml.Flags overridden) (Z.lor yaml.FLAG_TEMPORARY yaml.FLAG_STATE),
       Some overridden)
  | None => (0, None)
  end.

Definition updateNode (node : yaml.Node) (flags : yaml.NodeFlags) (tag : string) : yaml.Node :=
  let node :=
    if negb (Z.eqb (Z.lor flags (yaml.Flags node)) (yaml.Flags node))
    then yaml.AddFlags node flags else node in
  if negb (String.eqb tag "")
     && negb (String.eqb tag (yaml.Annotation_Tag (yaml.GetAnnotation node)))
  then yaml.SetTag node tag else node.

Definition substituteNode (v : yaml.Node) : yaml.Node * bool :=
  let ot := match yaml.Value v with
            | yaml.VTemplate t => Some t
            | _ => yaml.Template v
            end in
  match ot with
  | Some t =>
      if yaml.Dynamic (yaml.Flags v)
      then (yaml.AddFlags
              (yaml.NewDynamicNode (yaml.VExpr (dynaml.SubstitutionExpr t)) (Some t)
                 "<substitute>")
              (yaml.Flags v), true)
      else (v, false)
  | None => (v, false)
  end.

Definition substituteValue (v : yaml.value) (flags : yaml.NodeFlags)
    : yaml.value * option TemplateValue :=
  match v with
  | yaml.VTemplate t =>
      if yaml.Dynamic flags then (yaml.VExpr (dynaml.SubstitutionExpr t), Some t)
      else (v, None)
  | _ => (v, None)
  end.

(** [(m, ok)]: a marker when [ok]. *)
Definition asTemplate (val : Expression) (enforceTemplate : bool) : option MarkerExpr :=
  match dynaml.asMarkerExpr val with
  | Some m => if enforceTemplate then Some (dynaml.Add m dynaml.TEMPLATE) else Some m
  | None => if enforceTemplate then Some (dynaml.NewTemplateMarker (Some val)) else None
  end.

Definition FlowString (root : yaml.Node) (env : dynaml.Binding) : yaml.Node * option string :=
  match yaml.EmbeddedDynaml root (dynaml.InterpolationEnabled env) with
  | None => (root, None)
  | Some sub =>
      match dynaml.Parse sub (dynaml.Path env) (dynaml.StubPath env) with
      | inr err => (root, Some err)
      | inl expr => (yaml.SubstituteNode (yaml.VExpr expr) root, None)
      end
  end.

Definition simpleMergeCompatibilityCheck (initial : bool) (node : yaml.Node) : bool :=
  if negb initial then
    match yaml.Value node with
    | yaml.VExpr e =>
        match dynaml.asMergeExpr e with
        | Some required => negb required
        | None => false
        end
    | _ => false
    end
  else false.

(** [strings.HasPrefix(tag, "*")] and [tag[1:]]. *)
Definition HasPrefix_star (tag : string) : bool :=
  match tag with String "*"%char _ => true | _ => false end.
Definition drop_first (tag : string) : string :=
  match tag with String _ rest => rest | EmptyString => EmptyString end.

(** [env.GetState().SetTag(tag, node, path, scope)] on the state of the run. *)
Definition state_SetTag (tag : string) (node : yaml.Node) (path : list string)
    (scope : dynaml.TagScope) : M (option string) :=
  λ st, Ok (dynaml.SetTag tag node path scope st).

Definition flow (_flow : FlowFn) (root : yaml.Node) (env : dynaml.Binding)
    (shouldOverride enforceTemplate : bool) : M yaml.Node :=
  node ← _flow root env shouldOverride enforceTemplate;
  let tag := yaml.Annotation_Tag (yaml.GetAnnotation node) in
  if dynaml.IsResolvedNode node env && negb (String.eqb tag "") then
    let '(tag, scope) :=
      if HasPrefix_star tag
      then (drop_first tag, Z.lor dynaml.TAG_LOCAL dynaml.TAG_SCOPE_GLOBAL)
      else (tag, Z.lor dynaml.TAG_LOCAL dynaml.TAG_SCOPE_STREAM) in
    err ← state_SetTag tag node (dynaml.Path env) scope;
    match err with
    | Some e =>
        let node := if is_nil (yaml.Value node)
                    then yaml.ReplaceValue (yaml.Value root) node else node in
        mret (yaml.IssueNode node true true (yaml.NewIssue e))
    | None => mret node
    end
  else mret node.

(** How the content rewriting of [_flow] ends: with a [return], or by falling
    through to the stub override with the locals it has assigned. *)
Inductive Content :=
| Return (node : yaml.Node)
| Fallthrough (root : yaml.Node) (flags : yaml.NodeFlags) (replace : bool)
    (redirect : option (list string)) (keyName : string).

Definition is_none {A} (o : option A) : bool :=
  match o with None => true | Some _ => false end.

(** [eval, info, ok = val.Evaluate(env, false)] followed by [info.Cleanup()]. *)
Definition evaluate (val : Expression) (env : dynaml.Binding)
    : M (yaml.value * dynaml.EvaluationInfo * bool) :=
  λ st,
    let '(eval, info, ok, st') := dynaml.Evaluate val env false st in
    match dynaml.Cleanup info with
    | Some err => Ok (yaml.VNil, dynaml.SetError info err, false, st')
    | None => Ok (eval, info, ok, st')
    end.

(** The arm [case dynaml.Expression:] of [_flow]; [env0] is the binding after
    the redirect, and the arm's own [env] shadows it. *)
Definition _flow_expression (root : yaml.Node) (env0 : dynaml.Binding)
    (shouldOverride enforceTemplate : bool) (val : Expression)
    (flags : yaml.NodeFlags) (replace : bool) (redirect : option (list string))
    (preferred merged : bool) (keyName source : string)
    (template : option TemplateValue) : M Content :=
  let env := if negb (String.eqb (yaml.SourceName root) (dynaml.SourceName env0))
             then dynaml.WithSource env0 (yaml.SourceName root) else env0 in
  let om := asTemplate val enforceTemplate in
  let root :=
    match om with
    | Some m =>
        let tag := dynaml.GetTag m in
        if negb (String.eqb tag "")
           && String.eqb (yaml.Annotation_Tag (yaml.GetAnnotation root)) ""
        then yaml.SetTag root tag else root
    | None => root
    end in
  let declares := match om with
                  | Some m => dynaml.Has m dynaml.TEMPLATE
                  | None => false
                  end in
  r ← (if declares then
         let mflags := match om with Some m => dynaml.GetFlags m | None => 0 end in
         match om ≫= (λ m, dynaml.TemplateExpression m root) with
         | None =>
             let info := dynaml.SetError dynaml.DefaultInfo "empty template value" in
             if negb shouldOverride
             then mret (inl (dynaml.IssueNode env true root true false
                               (dynaml.info_Issue info)))
             else mret (inr (yaml.VNil, info, false, Z.lor flags mflags))
         | Some tval =>
             mret (inr (yaml.VTemplate
                          (dynaml.NewTemplateValue (dynaml.Path env) tval root env),
                        dynaml.DefaultInfo, true, Z.lor flags mflags))
         end
       else
         '(eval, info, ok) ← evaluate val env;
         mret (inr (eval, info, ok, flags)));
  match r with
  | inl node => mret (Return node)
  | inr (eval, info, ok, flags) =>
      let flags := Z.lor flags (dynaml.info_NodeFlags info) in
      let invalid := yaml.Dynamic flags && negb (is_template eval) && is_none template in
      let info := if invalid
                  then dynaml.SetError info "dynamic marker for non-template value node"
                  else info in
      if invalid && negb shouldOverride
      then mret (Return (dynaml.IssueNode env true root true false (dynaml.info_Issue info)))
      else
        let ok := if invalid then false else ok in
        let '(eval, template) :=
          if yaml.Dynamic flags && is_none template
          then substituteValue eval flags else (eval, template) in
        let replace := replace || dynaml.info_Replace info in
        if negb ok then
          let root := dynaml.IssueNode env true root true false (dynaml.info_Issue info) in
          if negb shouldOverride then mret (Return root)
          else mret (Fallthrough root flags replace redirect keyName)
        else
          let source := if negb (String.eqb (dynaml.info_SourceName info) "")
                        then dynaml.info_SourceName info else source in
          let tag := yaml.Annotation_Tag (yaml.GetAnnotation root) in
          let result := match template with
                        | Some _ => yaml.NewDynamicNode eval template source
                        | None => yaml.NewNode eval source
                        end in
          let result := if is_string eval then (FlowString result env).1 else result in
          let expr := is_expr (yaml.Value result) in
          let result :=
            if negb (String.eqb (yaml.Issue_Issue (dynaml.info_Issue info)) "")
            then dynaml.IssueNode env true result false (dynaml.info_Failed info)
                   (dynaml.info_Issue info)
            else result in
          let result := if dynaml.info_Undefined info
                        then yaml.UndefinedNode result else result in
          let result := if preferred || dynaml.info_Preferred info
                        then yaml.PreferredNode result else result in
          let keyName := if negb (String.eqb (dynaml.info_KeyName info) "")
                         then dynaml.info_KeyName info else keyName in
          let result := if negb (String.eqb (dynaml.info_KeyName info) "")
                        then yaml.KeyNameNode result keyName else result in
          let redirect := match dynaml.info_RedirectPath info with
                          | Some r => Some r
                          | None => redirect
                          end in
          let result := match redirect with
                        | Some _ => yaml.RedirectNode (yaml.Value result) result redirect
                        | None => result
                        end in
          let result :=
            if replace then yaml.ReplaceNode (yaml.Value result) result redirect
            else if merged || dynaml.info_Merged info then yaml.MergedNode result
                 else result in
          let result := updateNode result flags tag in
          if expr || yaml.Merged' result || negb shouldOverride || yaml.Preferred result
          then mret (Return result)
          else mret (Fallthrough result flags (yaml.ReplaceFlag result) redirect keyName)
  end.

(** The stub override that ends [_flow] (the final [if] of the function);
    [merged] is [root.Merged()] of the node [_flow] was called with. *)
Definition _flow_override (root : yaml.Node) (env : dynaml.Binding) (shouldOverride merged : bool)
    (flags : yaml.NodeFlags) (replace : bool) (redirect : option (list string))
    (keyName : string) : yaml.Node :=
  if negb merged && yaml.StandardOverride root && shouldOverride
     && negb (dynaml.NoMerge env)
  then
    match dynaml.FindInStubs env (dynaml.StubPath env) with
    | Some overridden =>
        if negb (yaml.Default (yaml.Flags overridden))
           && negb (yaml.Injected (yaml.Flags root))
        then
          let root := (substituteNode overridden).1 in
          let root := if negb (String.eqb keyName "")
                      then yaml.KeyNameNode root keyName else root in
          let root :=
            if replace then yaml.ReplaceNode (yaml.Value root) root redirect
            else match redirect with
                 | Some _ => yaml.RedirectNode (yaml.Value root) root redirect
                 | None => if merged then yaml.MergedNode root else root
                 end in
          yaml.AddFlags root (yaml.Overridden flags)
        else root
    | None => root
    end
  else root.

(** [_flow], with the two walkers it dispatches to as parameters.  The nil
    interface of the first guard is no [yaml.Node]. *)
Definition _flow (flowMap : yaml.Node → dynaml.Binding → bool → bool → M yaml.Node)
    (flowList : yaml.Node → dynaml.Binding → bool → M yaml.Node) : FlowFn :=
  λ root env shouldOverride enforceTemplate,
    let flags := yaml.Flags root in
    let replace := yaml.ReplaceFlag root in
    let redirect := yaml.RedirectPath root in
    let preferred := yaml.Preferred root in
    let merged := yaml.Merged' root in
    let keyName := yaml.KeyName root in
    let source := yaml.SourceName root in
    let template := yaml.Template root in
    let env := match redirect with
               | Some r => dynaml.RedirectOverwrite env r
               | None => env
               end in
    c ← (if negb replace then
           if negb (is_expr (yaml.Value root)) && merged then mret (Return root)
           else
             match yaml.Value root with
             | yaml.VMap _ =>
                 match dynaml.IsControl root env with
                 | (_, Some err) =>
                     mret (Return (dynaml.IssueNode env true root true true
                                     (yaml.NewIssue err)))
                 | (ok, None) =>
                     root ← flowMap root env (negb ok) enforceTemplate;
                     if negb ok then mret (Return root)
                     else if is_map (yaml.Value root) then mret (Return root)
                          else mret (Fallthrough root flags replace redirect keyName)
                 end
             | yaml.VList _ =>
                 node ← flowList root env enforceTemplate;
                 mret (Return node)
             | yaml.VExpr val =>
                 _flow_expression root env shouldOverride enforceTemplate val
                   flags replace redirect preferred merged keyName source template
             | yaml.VString _ =>
                 let result := (FlowString root env).1 in
                 if is_expr (yaml.Value result) then mret (Return result)
                 else mret (Fallthrough root flags replace redirect keyName)
             | _ => mret (Fallthrough root flags replace redirect keyName)
             end
         else mret (Fallthrough root flags replace redirect keyName));
    match c with
    | Return node => mret node
    | Fallthrough root flags replace redirect keyName =>
        mret (_flow_override root env shouldOverride merged flags replace redirect keyName)
    end.

(** The locals of [flowMap] that the handling of the merge key assigns. *)
Record MapLocals := mkMapLocals {
  l_env : dynaml.Binding;
  l_flags : yaml.NodeFlags;
  l_tag : string;
  l_processed : bool;
  l_merged : bool;
  l_redirect : option (list string);
  l_replace : bool;
  l_newMap : gmap string yaml.Node;
  l_addEntries : bool;
  l_template : bool;
  l_mergeval : option yaml.Node;
  l_err : option string
}.

(** [for k, v := range baseMap { newMap[k] = v }] *)
Definition copy_entries (src dst : gmap string yaml.Node) : gmap string yaml.Node :=
  map_fold (λ k v acc, <[k := v]> acc) dst src.

(** The block [if ok { val := mergeval ... mergeval = val }] of [flowMap]:
    [inl] is one of its two [return]s. *)
Definition flowMap_merge (_flow : FlowFn) (root : yaml.Node) (l : MapLocals)
    (val : yaml.Node) : M (yaml.Node + MapLocals) :=
  let env := l_env l in
  let initial := is_string (yaml.Value val) in
  base ← _flow val env false false;
  if yaml.Undefined base then mret (inl (yaml.UndefinedNode root))
  else
    match yaml.Value base with
    | yaml.VExpr e =>
        let om := asTemplate e (l_template l) in
        let tag := match om with
                   | Some marker =>
                       if negb (String.eqb (dynaml.GetTag marker) "")
                       then dynaml.GetTag marker else l_tag l
                   | None => l_tag l
                   end in
        let flags := match om with
                     | Some marker => Z.lor (l_flags l) (dynaml.GetFlags marker)
                     | None => l_flags l
                     end in
        let declares := match om with
                        | Some marker => dynaml.Has marker dynaml.TEMPLATE
                        | None => false
                        end in
        if declares then
          mret (inr (mkMapLocals env flags tag (l_processed l) (l_merged l)
                       (l_redirect l) (l_replace l) (l_newMap l) (l_addEntries l)
                       true (om ≫= (λ marker, dynaml.TemplateExpression marker root))
                       (l_err l)))
        else if simpleMergeCompatibilityCheck initial base then
          mret (inr (mkMapLocals env flags tag (l_processed l) (l_merged l)
                       (l_redirect l) (l_replace l) (l_newMap l) (l_addEntries l)
                       (l_template l) None (l_err l)))
        else
          mret (inr (mkMapLocals env flags tag false (l_merged l)
                       (l_redirect l) (l_replace l) (l_newMap l) (l_addEntries l)
                       (l_template l) (Some base) (l_err l)))
    | _ =>
        let redirect := match yaml.RedirectPath base with
                        | Some r => Some r
                        | None => l_redirect l
                        end in
        let env := match yaml.RedirectPath base with
                   | Some r => dynaml.RedirectOverwrite env r
                   | None => env
                   end in
        let merged := if yaml.Merged' base then true else l_merged l in
        let ok := is_map (yaml.Value base) in
        let newMap := match yaml.Value base with
                      | yaml.VMap baseMap => copy_entries baseMap (l_newMap l)
                      | _ => l_newMap l
                      end in
        let replace := yaml.ReplaceFlag base in
        let parseError :=
          negb (is_none (yaml.EmbeddedDynaml base (dynaml.InterpolationEnabled env))) in
        let err :=
          if negb ok && negb (is_nil (yaml.Value base)) && negb parseError
          then Some ("require map value for '<<' insert, found '"
                     +:+ dynaml.ExpressionType (yaml.Value base) +:+ "'")
          else l_err l in
        if ok || is_nil (yaml.Value base) || negb parseError then
          mret (inr (mkMapLocals env (l_flags l) (l_tag l) (l_processed l) merged
                       redirect replace newMap
                       (if replace then false else l_addEntries l)
                       (l_template l) None err))
        else
          mret (inr (mkMapLocals env (l_flags l) (l_tag l) (l_processed l) merged
                       redirect replace newMap (l_addEntries l)
                       (l_template l) (Some base) err))
    end.

(** One round of the loop over the sorted keys of [flowMap]; the accumulator
    holds [newMap] and [undefined]. *)
Definition flowMap_entry (_flow : FlowFn) (rootMap : gmap string yaml.Node)
    (l : MapLocals) (shouldOverride : bool) (mergekey : string)
    (acc : gmap string yaml.Node * gmap string yaml.Node) (key : string)
    : M (gmap string yaml.Node * gmap string yaml.Node) :=
  match rootMap !! key with
  | None => panic
  | Some val =>
      oval ← (if String.eqb key mergekey then mret (l_mergeval l)
              else if l_processed l then
                     val ← flow _flow val (dynaml.WithPath (l_env l) key) shouldOverride
                             (dynaml.RequireTemplate key (l_env l));
                     mret (Some val)
                   else mret (Some val));
      match oval with
      | None => mret acc
      | Some val =>
          if negb (yaml.Undefined val) then
            let val := if yaml.PropagateImplied (l_flags l)
                       then yaml.AddFlags val yaml.FLAG_IMPLIED else val in
            mret (<[key := val]> acc.1, acc.2)
          else mret (acc.1, <[key := val]> acc.2)
      end
  end.

(** The stub injection of [flowMap]: the flags and [newMap] after it. *)
Definition flowMap_inject (stub : option yaml.Node) (merged : bool)
    (flags : yaml.NodeFlags) (newMap : gmap string yaml.Node)
    : yaml.NodeFlags * gmap string yaml.Node :=
  if merged then (Z.lor flags yaml.FLAG_INJECTED, newMap)
  else
    match stub with
    | Some stub =>
        if negb (yaml.Injected flags) then
          match yaml.Value stub with
          | yaml.VMap m =>
              (flags,
               map_fold (λ k v newMap,
                   if yaml.Inject (yaml.Flags v) && is_none (newMap !! k)
                   then <[k := yaml.AddFlags (substituteNode v).1
                                 (Z.lor yaml.FLAG_INJECT yaml.FLAG_INJECTED)]> newMap
                   else newMap) newMap m)
          | _ => (flags, newMap)
          end
        else (flags, newMap)
    | None => (flags, newMap)
    end.

(** What [flowMap] does once the merge key is handled. *)
Definition flowMap_rest (_flow : FlowFn) (root : yaml.Node) (rootEnv : dynaml.Binding)
    (rootMap : gmap string yaml.Node) (stub : option yaml.Node)
    (shouldOverride : bool) (mergekey : string) (l : MapLocals) : M yaml.Node :=
  let issue := yaml.Issue_of root in
  let failed := yaml.Failed root in
  let l := if l_template l
           then mkMapLocals (l_env l) (l_flags l) (l_tag l) false (l_merged l)
                  (l_redirect l) (l_replace l) (l_newMap l) (l_addEntries l)
                  (l_template l) (l_mergeval l) (l_err l)
           else l in
  '(newMap, undefined) ←
    (if l_addEntries l
     then foldM (flowMap_entry _flow rootMap l shouldOverride mergekey)
            (yaml.GetSortedKeys rootMap) (l_newMap l, ∅)
     else mret (l_newMap l, ∅));
  let '(flags, newMap) := flowMap_inject stub (l_merged l) (l_flags l) newMap in
  let env := l_env l in
  let result :=
    if l_template l
    then yaml.VTemplate
           (dynaml.NewTemplateValue (dynaml.Path env)
              (yaml.NewNode (yaml.VMap newMap) (yaml.SourceName root)) root rootEnv)
    else yaml.VMap newMap in
  let node := if l_replace l then yaml.ReplaceNode result root (l_redirect l)
              else yaml.RedirectNode result root (l_redirect l) in
  node ← match l_err l with
         | Some err => mret (yaml.IssueNode node true true (yaml.NewIssue err))
         | None =>
             if failed then mret (yaml.IssueNode node true true issue)
             else flowControl node undefined env
         end;
  mret (updateNode node flags (l_tag l)).

(** [flowMap]; the unchecked assertion [root.Value().(map[string]yaml.Node)]
    panics on any other value. *)
Definition flowMap (_flow : FlowFn) (root : yaml.Node) (env : dynaml.Binding)
    (shouldOverride template : bool) : M yaml.Node :=
  let '(flags, stub) := get_inherited_flags env in
  let tag := yaml.Annotation_Tag (yaml.GetAnnotation root) in
  match yaml.Value root with
  | yaml.VMap rootMap =>
      let rootEnv := env in
      let env := dynaml.WithScope env rootMap in
      let l := mkMapLocals env flags tag true false (yaml.RedirectPath root)
                 (yaml.ReplaceFlag root) ∅ true template None None in
      match rootMap !! "<<" with
      | Some mergeval =>
          if negb (is_none (rootMap !! yaml.MERGEKEY))
          then mret (yaml.IssueNode root true true
                       (yaml.NewIssue "multiple merge keys not allowed"))
          else
            r ← flowMap_merge _flow root l mergeval;
            match r with
            | inl node => mret node
            | inr l => flowMap_rest _flow root rootEnv rootMap stub shouldOverride "<<" l
            end
      | None =>
          match rootMap !! yaml.MERGEKEY with
          | Some mergeval =>
              r ← flowMap_merge _flow root l mergeval;
              match r with
              | inl node => mret node
              | inr l =>
                  flowMap_rest _flow root rootEnv rootMap stub shouldOverride
                    yaml.MERGEKEY l
              end
          | None =>
              flowMap_rest _flow root rootEnv rootMap stub shouldOverride
                yaml.MERGEKEY l
          end
      end
  | _ => panic
  end.

(** [split := strings.Index(key, ":")] and, when [split > 0] and
    [key[:split] == "key"], the rest [key[split+1:]]. *)
Definition key_tag (key : string) : option string :=
  match String.index 0 ":" key with
  | Some split =>
      if bool_decide (0 < split)%nat && String.eqb (String.substring 0 split key) "key"
      then Some (String.substring (split + 1) (String.length key - (split + 1)) key)
      else None
  | None => None
  end.

(** [ProcessKeyTag].  Go visits the keys of a map in no fixed order, and the
    two loops are folds in the order of [map_fold].  The order tells only for
    a map in which several keys carry a key tag, or in which a key without
    its tag is another key of the map: there the key name and the entry that
    survives are those of the key visited last, and this function stands for
    one of the runs that Go may make.  For every other map the result is the
    same in whatever order either loop visits the keys (lemma
    [ProcessKeyTag_any_order]), and what is stated of the function below is
    stated of such maps. *)
Definition ProcessKeyTag (val : yaml.Node) : yaml.Node * string :=
  match yaml.Value val with
  | yaml.VMap m =>
      let '(keyName, found) :=
        map_fold (λ key _ acc,
            match key_tag key with
            | Some rest => (rest, true)
            | None => acc
            end) ("", false) m in
      if found : bool then
        let newMap :=
          map_fold (λ key v (newMap : gmap string yaml.Node),
              match key_tag key with
              | Some rest => <[rest := v]> newMap
              | None => <[key := v]> newMap
              end) ∅ m in
        (yaml.SubstituteNode (yaml.VMap newMap) val, keyName)
      else (val, keyName)
  | _ => (val, "")
  end.

Definition newEntries (a b : list yaml.Node) (keyName : string) : list yaml.Node :=
  let keyName := if String.eqb keyName "" then "name" else keyName in
  let old := yaml.KeyNameNode (yaml.NewNode (yaml.VList b) "some map") keyName in
  List.filter (λ val,
      match yaml.FindStringR true val None keyName with
      | Some name => is_none (yaml.FindR true old None name)
      | None => true
      end) a.

(** [fmt.Sprintf("[%d]", index)] *)
Definition index_step (index : nat) : string := "[" +:+ pretty index +:+ "]".

Definition stepName (_flow : FlowFn) (index : nat) (value : yaml.Node)
    (keyName : string) (env : dynaml.Binding) : M (string * bool) :=
  let keyName := if String.eqb keyName "" then "name" else keyName in
  match yaml.FindString value (dynaml.GetFeatures env) keyName with
  | Some name => mret (keyName +:+ ":" +:+ name, true)
  | None =>
      let step := index_step index in
      match yaml.FindR true value (Some (dynaml.GetFeatures env)) keyName with
      | Some v =>
          if negb (is_nil (yaml.Value v)) then
            r ← (if is_expr (yaml.Value v) then
                   v ← flow _flow v (dynaml.WithPath env step) false false;
                   if is_expr (yaml.Value v) then mret (inl (step, false))
                   else mret (inr v)
                 else mret (inr v));
            match r with
            | inl res => mret res
            | inr v =>
                match yaml.Value v with
                | yaml.VString name => mret (keyName +:+ ":" +:+ name, true)
                | _ => mret (step, true)
                end
            end
          else mret (step, true)
      | None => mret (step, true)
      end
  end.

(** The locals of [processMerges] that its first loop assigns; [p_break] is set
    by the [break]. *)
Record MergeLocals := mkMergeLocals {
  p_flags : yaml.NodeFlags;
  p_tag : string;
  p_spliced : list yaml.Node;
  p_process : bool;
  p_merged : bool;
  p_keyName : string;
  p_replaced : bool;
  p_redirectPath : option (list string);
  p_template : bool;
  p_break : bool
}.

(** The tail of the first loop's body: [ProcessKeyTag] and the [append]. *)
Definition processMerges_append (l : MergeLocals) (val : yaml.Node) : MergeLocals :=
  let '(val, newKey) := ProcessKeyTag val in
  mkMergeLocals (p_flags l) (p_tag l) (p_spliced l ++ [val]) (p_process l) (p_merged l)
    (if negb (String.eqb newKey "") then newKey else p_keyName l)
    (p_replaced l) (p_redirectPath l) (p_template l) (p_break l).

(** The body of the first loop of [processMerges]. *)
Definition processMerges_entry (_flow : FlowFn) (orig : yaml.Node)
    (root : list yaml.Node) (env : dynaml.Binding) (l : MergeLocals) (val : yaml.Node)
    : M MergeLocals :=
  if p_break l then mret l
  else
    match yaml.UnresolvedListEntryMerge val with
    | None => mret (processMerges_append l val)
    | Some (inlineNode, qual) =>
        let initial := is_string (yaml.Value inlineNode) in
        result ← _flow inlineNode env false false;
        let keyName := if negb (String.eqb (yaml.KeyName result) "")
                       then yaml.KeyName result else p_keyName l in
        match yaml.Value result with
        | yaml.VExpr e =>
            if simpleMergeCompatibilityCheck initial inlineNode then
              mret (mkMergeLocals (p_flags l) (p_tag l) (p_spliced l) (p_process l)
                      (p_merged l) keyName (p_replaced l) (p_redirectPath l)
                      (p_template l) false)
            else
              let om := asTemplate e (p_template l) in
              let flags := match om with
                           | Some m => Z.lor (p_flags l) (dynaml.GetFlags m)
                           | None => p_flags l
                           end in
              let tag := match om with
                         | Some m => if negb (String.eqb (dynaml.GetTag m) "")
                                     then dynaml.GetTag m else p_tag l
                         | None => p_tag l
                         end in
              let declares := match om with
                              | Some m => dynaml.Has m dynaml.TEMPLATE
                              | None => false
                              end in
              let oresult := if declares
                             then om ≫= (λ m, dynaml.TemplateExpression m orig)
                             else Some result in
              let template := if declares then true else p_template l in
              match oresult with
              | None =>
                  mret (mkMergeLocals flags tag (p_spliced l) false (p_merged l)
                          keyName (p_replaced l) (p_redirectPath l) template false)
              | Some result =>
                  let val := yaml.SubstituteNode (yaml.VMap {[ qual := result ]}) orig in
                  mret (processMerges_append
                          (mkMergeLocals flags tag (p_spliced l) false (p_merged l)
                             keyName (p_replaced l) (p_redirectPath l) template false)
                          val)
              end
        | yaml.VList inline =>
            let inlineNew := newEntries inline root keyName in
            let replaced := yaml.ReplaceFlag result in
            let redirectPath := yaml.RedirectPath result in
            if replaced then
              mret (mkMergeLocals (p_flags l) (p_tag l) inlineNew false true keyName
                      replaced redirectPath (p_template l) true)
            else
              mret (mkMergeLocals (p_flags l) (p_tag l) (p_spliced l ++ inlineNew)
                      (p_process l) true keyName replaced redirectPath
                      (p_template l) false)
        | _ =>
            if is_nil (yaml.Value result)
               || is_none (yaml.EmbeddedDynaml result (dynaml.InterpolationEnabled env))
            then
              mret (mkMergeLocals (p_flags l) (p_tag l) (p_spliced l) (p_process l)
                      (if yaml.Merged' result then true else p_merged l) keyName
                      (p_replaced l) (yaml.RedirectPath result) (p_template l) false)
            else
              mret (processMerges_append
                      (mkMergeLocals (p_flags l) (p_tag l) (p_spliced l) (p_process l)
                         (p_merged l) keyName (p_replaced l) (p_redirectPath l)
                         (p_template l) false)
                      val)
        end
    end.

(** The body of the second loop of [processMerges]: the accumulator holds
    [processed] and [process]. *)
Definition processMerges_control (_flow : FlowFn) (env : dynaml.Binding)
    (acc : list yaml.Node * bool) (val : yaml.Node) : M (list yaml.Node * bool) :=
  match dynaml.IsControl val env with
  | (_, Some err) =>
      mret ((acc.1 ++ [yaml.IssueNode val true true (yaml.NewIssue err)])%list, acc.2)
  | (true, None) =>
      val ← _flow val env false false;
      match yaml.Value val with
      | yaml.VList a => mret ((acc.1 ++ a)%list, acc.2)
      | _ => mret ((acc.1 ++ [val])%list, false)
      end
  | (false, None) => mret ((acc.1 ++ [val])%list, acc.2)
  end.

(** [processMerges]: result, process, replaced, redirectPath, keyName, merged,
    flags, tag, stub. *)
Definition processMerges (_flow : FlowFn) (orig : yaml.Node) (root : list yaml.Node)
    (env : dynaml.Binding) (template : bool)
    : M (yaml.value * bool * bool * option (list string) * string * bool
         * yaml.NodeFlags * string * option yaml.Node) :=
  let '(flags, stub) := get_inherited_flags env in
  let tag := yaml.Annotation_Tag (yaml.GetAnnotation orig) in
  l ← foldM (processMerges_entry _flow orig root env) root
        (mkMergeLocals flags tag [] true false (yaml.KeyName orig)
           (yaml.ReplaceFlag orig) (yaml.RedirectPath orig) template false);
  '(result, process) ←
    (if p_template l then
       mret (yaml.VTemplate
               (dynaml.NewTemplateValue (dynaml.Path env)
                  (yaml.NewNode (yaml.VList (p_spliced l)) (yaml.SourceName orig))
                  orig env),
             p_process l)
     else
       '(processed, process) ←
         foldM (processMerges_control _flow env) (p_spliced l) ([], p_process l);
       mret (yaml.VList processed, process));
  mret (result, process, p_replaced l, p_redirectPath l, p_keyName l, p_merged l,
        p_flags l, p_tag l, stub).

(** The body of the element loop of [flowList]: the accumulator holds the
    index of the element and [newList]. *)
Definition flowList_element (_flow : FlowFn) (keyName : string) (env : dynaml.Binding)
    (acc : nat * list yaml.Node) (val : yaml.Node) : M (nat * list yaml.Node) :=
  '(step, resolved) ← stepName _flow acc.1 val keyName env;
  val ← (if resolved : bool
         then flow _flow val (dynaml.WithPath env step) false false
         else mret val);
  if negb (yaml.Undefined val) then mret (S acc.1, (acc.2 ++ [val])%list)
  else mret (S acc.1, acc.2).

(** The stub injection of [flowList]: the flags and [newList] after it. *)
Definition flowList_inject (ismerged : bool) (stub : option yaml.Node)
    (root : yaml.Node) (flags : yaml.NodeFlags) (newList : list yaml.Node)
    : yaml.NodeFlags * list yaml.Node :=
  if ismerged then (Z.lor flags yaml.FLAG_INJECTED, newList)
  else
    match stub with
    | Some stub =>
        if negb (yaml.Injected (yaml.Flags root)) then
          (Z.lor flags yaml.FLAG_INJECTED,
           match yaml.Value stub with
           | yaml.VList m =>
               let injected := List.filter (λ v, yaml.Inject (yaml.Flags v)) m in
               (injected ++ newList)%list
           | _ => newList
           end)
        else (flags, newList)
    | None => (flags, newList)
    end.

(** [flowList]; the two unchecked assertions to [[]yaml.Node] panic on any
    other value. *)
Definition flowList (_flow : FlowFn) (root : yaml.Node) (env : dynaml.Binding)
    (template : bool) : M yaml.Node :=
  match yaml.Value root with
  | yaml.VList rootList =>
      '(merged, process, replaced, redirectPath, keyName, ismerged, flags, tag, stub) ←
        processMerges _flow root rootList env template;
      '(merged, flags) ←
        (if process : bool then
           let env := match redirectPath with
                      | Some r => dynaml.RedirectOverwrite env r
                      | None => env
                      end in
           match merged with
           | yaml.VList l =>
               '(_, newList) ← foldM (flowList_element _flow keyName env) l (0%nat, []);
               let '(flags, newList) := flowList_inject ismerged stub root flags newList in
               mret (yaml.VList newList, flags)
           | _ => panic
           end
         else mret (merged, flags));
      let root := if negb (String.eqb keyName "")
                  then yaml.KeyNameNode root keyName else root in
      let root :=
        if replaced : bool then yaml.ReplaceNode merged root redirectPath
        else match redirectPath with
             | Some _ => yaml.RedirectNode merged root redirectPath
             | None => yaml.SubstituteNode merged root
             end in
      if negb (Z.eqb (Z.lor flags (yaml.Flags root)) (yaml.Flags root))
      then mret (yaml.AddFlags root flags)
      else if negb (String.eqb tag "")
              && negb (String.eqb tag (yaml.Annotation_Tag (yaml.GetAnnotation root)))
           then mret (yaml.SetTag root tag)
           else mret root
  | _ => panic
  end.

(** The recursion of the walkers, cut at a depth of [fuel] nested calls of
    [_flow]. *)
Fixpoint _flowN (fuel : nat) : FlowFn :=
  match fuel with
  | O => λ _ _ _ _, out_of_fuel
  | S fuel => _flow (flowMap (_flowN fuel)) (flowList (_flowN fuel))
  end.

Definition flowN (fuel : nat) : FlowFn := flow (_flowN fuel).
Definition flowMapN (fuel : nat) := flowMap (_flowN fuel).
Definition flowListN (fuel : nat) := flowList (_flowN fuel).

End flow.
End flow.

(** ** Go's library, as far as [for.go] uses it *)
Module strings.

(** [strings.Compare]: byte-wise lexicographic. *)
Definition Compare (a b : string) : comparison := String.compare a b.

(** [strings.Split(s, ",")]: the pieces between the commas, one more than
    there are commas. *)
Fixpoint Split_comma (s : string) : list string :=
  match s with
  | EmptyString => [EmptyString]
  | String c rest =>
      if Ascii.eqb c ","%char then EmptyString :: Split_comma rest
      else match Split_comma rest with
           | p :: ps => String c p :: ps
           | [] => [String c EmptyString]
           end
  end.

Definition bytes (s : string) : list N := map N_of_ascii (list_ascii_of_string s).
Definition of_bytes (l : list N) : string :=
  string_of_list_ascii (map ascii_of_N l).

Definition one_of (c : N) (l : list N) : bool := existsb (N.eqb c) l.

(** The number of bytes of the white-space rune (as [unicode.IsSpace] has it)
    that starts the UTF-8 text [l]; 0 when there is none. *)
Definition leading_space (l : list N) : nat :=
  match l with
  | c :: l1 =>
      if one_of c [9; 10; 11; 12; 13; 32]%N then 1%nat
      else
        match l1 with
        | d :: l2 =>
            if N.eqb c 194 then (if one_of d [133; 160]%N then 2%nat else 0%nat)
            else
              match l2 with
              | e :: _ =>
                  if N.eqb c 225 && N.eqb d 154 && N.eqb e 128 then 3%nat
                  else if N.eqb c 226 && N.eqb d 128
                          && (N.leb 128 e && N.leb e 138 || one_of e [168; 169; 175]%N)
                  then 3%nat
                  else if N.eqb c 226 && N.eqb d 129 && N.eqb e 159 then 3%nat
                  else if N.eqb c 227 && N.eqb d 128 && N.eqb e 128 then 3%nat
                  else 0%nat
              | [] => 0%nat
              end
        | [] => 0%nat
        end
  | [] => 0%nat
  end.

(** The same for the rune that ends the text, given the bytes in reverse. *)
Definition trailing_space (r : list N) : nat :=
  match r with
  | c :: r1 =>
      if one_of c [9; 10; 11; 12; 13; 32]%N then 1%nat
      else if bool_decide (leading_space (rev (take 2 r)) = 2%nat) then 2%nat
           else if bool_decide (leading_space (rev (take 3 r)) = 3%nat) then 3%nat
                else 0%nat
  | [] => 0%nat
  end.

Fixpoint trim_left (fuel : nat) (l : list N) : list N :=
  match fuel with
  | O => l
  | S fuel =>
      match leading_space l with
      | O => l
      | n => trim_left fuel (drop n l)
      end
  end.

Fixpoint trim_right (fuel : nat) (r : list N) : list N :=
  match fuel with
  | O => r
  | S fuel =>
      match trailing_space r with
      | O => r
      | n => trim_right fuel (drop n r)
      end
  end.

(** [strings.TrimSpace] *)
Definition TrimSpace (s : string) : string :=
  let l := trim_left (String.length s) (bytes s) in
  of_bytes (rev (trim_right (length l) (rev l))).

End strings.

Module fmt.

(** [fmt.Sprintf]: the formatting of Go's library, with the arguments as the
    values ([interface{}]) they are passed as. *)
Class Fmt `{Dsl} := {
  Sprintf : string → list yaml.value → string
}.

End fmt.

Module sort.
Section sort.
Context {A : Type} (Less : A → A → bool).

(** One round of the insertion: [x] moves towards the front while it is
    [Less] than its neighbour; the sorted prefix is held back to front. *)
Fixpoint insert_back (x : A) (rprefix : list A) : list A :=
  match rprefix with
  | [] => [x]
  | y :: r => if Less x y then y :: insert_back x r else x :: y :: r
  end.

(** [sort.Sort(data)] belongs to Go's library: it permutes [data] so that no
    element is [Less] than the one before it, and promises no more (it is not
    stable).  It is run here by insertion, as Go sorts a short slice:
    [for i := a + 1; i < b; i++ { for j := i; j > a && Less(j, j-1); j-- { Swap(j, j-1) } }]. *)
Definition Sort (data : list A) : list A :=
  reverse (fold_left (λ rprefix x, insert_back x rprefix) data []).

End sort.
End sort.

(** ** Package control: the [for] control *)
Module control.
Section for_control.
Context `{Dsl} `{!yaml.Helpers} `{!dynaml.API} `{!fmt.Fmt}.

(** The order in which [for v, values := range def] visits the entries of a
    map: Go fixes none. *)
Variable range_order : gmap string yaml.Node → list (string * yaml.Node).

(** The two implementations of [type iterator interface]. *)
Inductive iterator :=
| listIterator (values : list yaml.Node)
| mapIterator (values : gmap string yaml.Node) (keys : list string).

Definition newListIterator (values : list yaml.Node) : iterator := listIterator values.
Definition newMapIterator (values : gmap string yaml.Node) : iterator :=
  mapIterator values (yaml.GetSortedKeys values).

Definition iterator_Len (it : iterator) : nat :=
  match it with
  | listIterator values => length values
  | mapIterator values _ => size values
  end.

(** [Index(i)] and [Value(i)]: [None] where Go panics (index out of range). *)
Definition iterator_Index (it : iterator) (i : nat) : option yaml.value :=
  match it with
  | listIterator _ => Some (yaml.VInt (Z.of_nat i))
  | mapIterator _ keys => yaml.VString <$> keys !! i
  end.

Definition iterator_Value (it : iterator) (i : nat) : option yaml.Node :=
  match it with
  | listIterator values => values !! i
  | mapIterator values keys => keys !! i ≫= (λ k, values !! k)
  end.

(** [type iteration struct]; the embedded interface may be nil. *)
Record iteration := mkIteration {
  name : string;
  index : string;
  current : nat;
  iterator_ : option iterator
}.

(** [type iterations []*iteration]: every pointer is to an iteration of its
    own, so the slice is the list of them. *)
Definition iterations := list iteration.

(** [func (this iterations) Less(i, j int) bool], on the two elements. *)
Definition Less (a b : iteration) : bool :=
  match strings.Compare (name a) (name b) with
  | Gt => true
  | Lt => false
  | Eq =>
      match strings.Compare (index a) (index b) with
      | Gt => true
      | _ => false
      end
  end.

Definition newIteration (name index : string) (it : option iterator) : iteration :=
  mkIteration name (if String.eqb index "" then "index-" +:+ name else index) 0 it.

Definition IndexName (this : iteration) : string := index this.

(** A method of a nil interface panics: [None]. *)
Definition iteration_Value (this : iteration) : option yaml.Node :=
  iterator_ this ≫= (λ it, iterator_Value it (current this)).
Definition iteration_Index (this : iteration) : option yaml.value :=
  iterator_ this ≫= (λ it, iterator_Index it (current this)).
Definition iteration_Len (this : iteration) : option nat :=
  iterator_Len <$> iterator_ this.

(** The character class of [namesyntax]. *)
Definition name_class (c : ascii) : bool :=
  let n := N_of_ascii c in
  (N.leb 97 n && N.leb n 122) || (N.leb 65 n && N.leb n 90)
  || (N.leb 48 n && N.leb n 57) || N.eqb n 95.

(** Whether [[a-zA-Z0-9_]+] matches at the start of [s]: the longest run of
    characters of the class is not empty. *)
Definition match_here (s : string) : bool :=
  match s with
  | String c _ => name_class c
  | EmptyString => false
  end.

(** [namesyntax.Match([]byte(n))] for
    [namesyntax = regexp.MustCompile("[a-zA-Z0-9_]+")]: Go's [Match] reports
    whether the text contains any match, so every start is tried. *)
Fixpoint namesyntax_Match (s : string) : bool :=
  match_here s
  || match s with
     | String _ rest => namesyntax_Match rest
     | EmptyString => false
     end.

(** [namesyntax.String()] *)
Definition namesyntax_String : string := "[a-zA-Z0-9_]+".

(** [checkName]: the error, or [None] for nil. *)
Definition checkName (kind n : string) : option string :=
  if negb (namesyntax_Match n)
  then Some (fmt.Sprintf "invalid %s variable name %q (must be %s)"
               [yaml.VString kind; yaml.VString n; yaml.VString namesyntax_String])
  else None.

Definition controlIteration (name index : string) (it : option iterator)
    : iteration + string :=
  match checkName "range" name with
  | Some err => inr err
  | None =>
      if String.eqb index "" then inl (mkIteration name ("index-" +:+ name) 0 it)
      else match checkName "index" index with
           | Some err => inr err
           | None => inl (mkIteration name index 0 it)
           end
  end.

Definition controlIterator (name : string) (val : yaml.Node)
    : option iterator + string :=
  match yaml.Value val with
  | yaml.VList values =>
      if bool_decide (length values = 0%nat) then inl None
      else inl (Some (newListIterator values))
  | yaml.VMap values =>
      if bool_decide (size values = 0%nat) then inl None
      else inl (Some (newMapIterator values))
  | v =>
      inr (fmt.Sprintf "control variable %q requires list or map value, but got %s"
             [yaml.VString name; yaml.VString (dynaml.ExpressionType v)])
  end.

(** A [return dynaml.ControlIssue("for", node, msg, args...)] in the making:
    the format and its arguments. *)
Definition issue_args : Type := string * list yaml.value.

(** The body of [for v, values := range def] (the map form): the iteration
    that the round stores, or the control issue it returns with. *)
Definition map_iteration (v : string) (values : yaml.Node) : iteration + issue_args :=
  let parts := strings.Split_comma v in
  let spec :=
    match parts with
    | [p0; p1] => Some (strings.TrimSpace p1, strings.TrimSpace p0)
    | [p0] => Some (strings.TrimSpace p0, "")
    | _ => None
    end in
  match spec with
  | None => inr ("invalid control variable spec %q", [yaml.VString v])
  | Some (name, index) =>
      match controlIterator name values with
      | inr err => inr (err, [])
      | inl it =>
          match controlIteration name index it with
          | inr err => inr (err, [])
          | inl r => inl r
          end
      end
  end.

(** The body of [for i, v := range def] (the list form). *)
Definition list_iteration (v : yaml.Node) : iteration + issue_args :=
  match yaml.Value v with
  | yaml.VMap spec =>
      match spec !! "name" with
      | None => inr ("control variable list entry requires name field", [])
      | Some n =>
          let name := match yaml.Value n with yaml.VString s => s | _ => "" end in
          let oindex :=
            match spec !! "index" with
            | None => inl ""
            | Some n =>
                match yaml.Value n with
                | yaml.VString s => inl s
                | w => inr ("control index variable name must be of type string but got %s",
                            [yaml.VString (dynaml.ExpressionType w)])
                end
            end in
          match oindex with
          | inr e => inr e
          | inl index =>
              match spec !! "values" with
              | None => inr ("control variable list entry requires values field", [])
              | Some l =>
                  match controlIterator name l with
                  | inr err => inr (err, [])
                  | inl it =>
                      if bool_decide (size spec < 2)%nat || bool_decide (3 < size spec)%nat
                      then inr ("control variable list entry requires two or three fields: name, values and optionally index", [])
                      else
                        let bad :=
                          if bool_decide (size spec = 3%nat) && String.eqb index ""
                          then List.find (λ k, negb (String.eqb k "name" || String.eqb k "values"
                                                       || String.eqb k "index"))
                                 (yaml.GetSortedKeys spec)
                          else None in
                        match bad with
                        | Some k => inr ("invalid control variable list entry field %q",
                                         [yaml.VString k])
                        | None =>
                            match controlIteration name index it with
                            | inr err => inr (err, [])
                            | inl r => inl r
                            end
                        end
                  end
              end
          end
      end
  | w => inr ("control variable list entry requires may but got %s",
              [yaml.VString (dynaml.ExpressionType w)])
  end.

(** A loop that stores the iteration of its [i]-th round at the [i]-th place
    from the end of [ranges], and returns at the first issue. *)
Fixpoint collect {A} (f : A → iteration + issue_args) (l : list A)
    (ranges : iterations) : iterations + issue_args :=
  match l with
  | [] => inl ranges
  | a :: l' =>
      match f a with
      | inr e => inr e
      | inl r => collect f l' (r :: ranges)
      end
  end.

(** The [switch def := val.Value().(type)] of [flowFor]: [ranges]. *)
Definition for_ranges (val : yaml.Node) : iterations + issue_args :=
  match yaml.Value val with
  | yaml.VMap def =>
      match collect (λ e, map_iteration e.1 e.2) (range_order def) [] with
      | inr e => inr e
      | inl ranges => inl (sort.Sort Less ranges)
      end
  | yaml.VList def => collect list_iteration def []
  | w => inr ("value field must be map but got %s",
              [yaml.VString (dynaml.ExpressionType w)])
  end.

(** The counting at the end of a round of the loop [outer]: [Some (Some _)]
    holds the next counters, [Some None] is [break outer], and [None] is the
    panic of a nil iterator. *)
Fixpoint advance (ranges : iterations) : option (option iterations) :=
  match ranges with
  | [] => Some None
  | r :: rest =>
      match iteration_Len r with
      | None => None
      | Some len =>
          if bool_decide (S (current r) < len)%nat
          then Some (Some (mkIteration (name r) (index r) (S (current r)) (iterator_ r)
                             :: rest))
          else
            match advance rest with
            | None => None
            | Some None => Some None
            | Some (Some rest') =>
                Some (Some (mkIteration (name r) (index r) 0 (iterator_ r) :: rest'))
            end
      end
  end.

(** [inp]: the variables of one round. *)
Fixpoint for_inp (ranges : iterations) (inp : gmap string yaml.Node)
    : option (gmap string yaml.Node) :=
  match ranges with
  | [] => Some inp
  | r :: rest =>
      match iteration_Value r, iteration_Index r with
      | Some v, Some i =>
          for_inp rest (<[IndexName r := yaml.NewNode i "for"]> (<[name r := v]> inp))
      | _, _ => None
      end
  end.

Fixpoint controlVariables_desc (its : iterations) (desc sep : string) : option string :=
  match its with
  | [] => Some desc
  | i :: rest =>
      match iteration_Index i, iteration_Value i with
      | Some idx, Some v =>
          controlVariables_desc rest
            (fmt.Sprintf "%s%s %s[%v]=%s"
               [yaml.VString desc; yaml.VString sep; yaml.VString (name i); idx;
                yaml.VString (dynaml.Shorten (dynaml.Short (yaml.Value v) false))])
            ";"
      | _, _ => None
      end
  end.

(** [controlVariablesIssue]; [None] where a nil iterator panics. *)
Definition controlVariablesIssue (its : iterations) (issue : yaml.Issue)
    : option yaml.Issue :=
  desc ← controlVariables_desc its (fmt.Sprintf "control variables: " []) "";
  Some (yaml.mkIssue
          (fmt.Sprintf "%s: %s" [yaml.VString desc; yaml.VString (yaml.Issue_Issue issue)])
          (yaml.Issue_Nested issue)).

(** The locals that the loop [outer] assigns. *)
Record ForLocals := mkForLocals {
  resultlist : list yaml.Node;
  resultmap : gmap string yaml.Node;
  done : bool;
  nested : list yaml.Issue
}.

Definition lift_option {A} (o : option A) : M A :=
  match o with Some a => mret a | None => panic end.

(** [e.Evaluate(binding, partial)] on the state of the run. *)
Definition Evaluate_M (e : Expression) (binding : dynaml.Binding) (partial : bool)
    : M (yaml.value * dynaml.EvaluationInfo * bool) :=
  λ st, Ok (dynaml.Evaluate e binding partial st).

(** One round of the loop [outer], up to the counting. *)
Definition for_round (node : yaml.Node) (do_ : yaml.Node)
    (mapkey subst : option TemplateValue) (env : dynaml.Binding)
    (ranges : iterations) (l : ForLocals) : M ForLocals :=
  inp ← lift_option (for_inp ranges ∅);
  let scope := dynaml.WithLocalScope env inp in
  '(key, l) ←
    match mapkey with
    | Some t =>
        '(k, info, ok) ← Evaluate_M (dynaml.SubstitutionExpr t) scope false;
        l ← (if negb ok then
               i ← lift_option (controlVariablesIssue ranges (dynaml.info_Issue info));
               mret (mkForLocals (resultlist l) (resultmap l) false (nested l ++ [i]))
             else mret l);
        match k with
        | yaml.VString key => mret (key, l)
        | _ =>
            i ← lift_option
                  (controlVariablesIssue ranges
                     (yaml.NewIssue
                        (fmt.Sprintf "map key must be string, but found %s"
                           [yaml.VString (dynaml.ExpressionType k)])));
            mret ("", mkForLocals (resultlist l) (resultmap l) false (nested l ++ [i]))
        end
    | None => mret ("", l)
    end;
  let store (v : yaml.Node) (l : ForLocals) : ForLocals :=
    match mapkey with
    | Some _ => mkForLocals (resultlist l) (<[key := v]> (resultmap l)) (done l) (nested l)
    | None => mkForLocals (resultlist l ++ [v]) (resultmap l) (done l) (nested l)
    end in
  match subst with
  | Some t =>
      '(v, info, ok) ← Evaluate_M (dynaml.SubstitutionExpr t) scope false;
      if negb ok then
        i ← lift_option (controlVariablesIssue ranges (dynaml.info_Issue info));
        mret (mkForLocals (resultlist l) (resultmap l) false (nested l ++ [i]))
      else if dynaml.IsExpression v then
        mret (mkForLocals (resultlist l) (resultmap l) false (nested l))
      else mret (store (yaml.NewNode v (yaml.SourceName node)) l)
  | None => mret (store do_ l)
  end.

(** The loop [outer]; every round uses up one unit of [fuel]. *)
Fixpoint for_outer (fuel : nat) (node : yaml.Node) (do_ : yaml.Node)
    (mapkey subst : option TemplateValue) (env : dynaml.Binding)
    (ranges : iterations) (l : ForLocals) : M ForLocals :=
  match fuel with
  | O => out_of_fuel
  | S fuel =>
      l ← for_round node do_ mapkey subst env ranges l;
      next ← lift_option (advance ranges);
      match next with
      | None => mret l
      | Some ranges => for_outer fuel node do_ mapkey subst env ranges l
      end
  end.

Definition flowFor (fuel : nat) (val node : yaml.Node)
    (fields opts : gmap string yaml.Node) (env : dynaml.Binding) : M (yaml.Node * bool) :=
  if negb (bool_decide (size fields = 0%nat))
  then mret (dynaml.ControlIssue "for" node "no regular fields allowed in for control" [])
  else if negb (dynaml.IsResolvedNode val env) then mret (node, false)
  else
    match opts !! "do" with
    | None => mret (dynaml.ControlIssue "for" node "do fields required in for control" [])
    | Some body =>
        if negb (dynaml.IsResolvedNode body env) then mret (node, false)
        else
          let omapkey : option (option TemplateValue) + (yaml.Node * bool) :=
            match opts !! "mapkey" with
            | Some k =>
                if negb (dynaml.IsResolvedNode k env) then inr (node, false)
                else match yaml.Value k with
                     | yaml.VTemplate t => inl (Some (Some t))
                     | _ => inl None
                     end
            | None => inl (Some None)
            end in
          match omapkey with
          | inr res => mret res
          | inl None =>
              mret (dynaml.ControlIssue "for" node "mapkey must be an expression" [])
          | inl (Some mapkey) =>
              let subst := match yaml.Value body with
                           | yaml.VTemplate t => Some t
                           | _ => None
                           end in
              match for_ranges val with
              | inr (msg, args) => mret (dynaml.ControlIssue "for" node msg args)
              | inl ranges =>
                  l ← for_outer fuel node body mapkey subst env ranges
                        (mkForLocals [] ∅ true []);
                  if negb (done l) then
                    if bool_decide (0 < length (nested l))%nat
                    then mret (dynaml.ControlIssueByIssue "for" node
                                 (yaml.mkIssue "error evaluationg for body" (nested l))
                                 false)
                    else mret (node, false)
                  else
                    match mapkey with
                    | None =>
                        mret (yaml.NewNode (yaml.VList (resultlist l))
                                (yaml.SourceName node), true)
                    | Some _ =>
                        mret (yaml.NewNode (yaml.VMap (resultmap l))
                                (yaml.SourceName node), true)
                    end
              end
          end
    end.

End for_control.
End control.

(** ** [node.go]'s own [EmbeddedDynaml]

    [flow.go] calls a later form of this function, with a second argument,
    which is [yaml.EmbeddedDynaml]; the form that [node.go] declares is this
    one. *)
Module yaml_node.
Section embedded.
Context `{Dsl}.

(** What [.] matches: any character but a line feed. *)
Definition dot (c : ascii) : bool := negb (Ascii.eqb c "010"%char).

(** [embeddedDynaml.FindStringSubmatch(s)].  The pattern [embeddedDynaml] is,
    from the start of the text to its end: two opening parentheses, a group
    of any number of characters that [.] matches, two closing parentheses.
    A match is therefore the whole text, and the group is what stands between
    the parentheses.  The result holds the match and the group; [None] is
    nil. *)
Definition embeddedDynaml_FindStringSubmatch (s : string) : option (list string) :=
  let n := String.length s in
  if bool_decide (4 ≤ n)%nat
     && String.eqb (String.substring 0 2 s) "(("
     && String.eqb (String.substring (n - 2) 2 s) "))"
     && forallb dot (list_ascii_of_string (String.substring 2 (n - 4) s))
  then Some [s; String.substring 2 (n - 4) s]
  else None.

(** [func EmbeddedDynaml(root Node) *string]; the unchecked assertion
    [root.Value().(string)] panics on any other value. *)
Definition EmbeddedDynaml (root : yaml.Node) : Res (option string) :=
  match yaml.Value root with
  | yaml.VString rootString =>
      match embeddedDynaml_FindStringSubmatch rootString with
      | None => Ok None
      | Some sub =>
          match sub !! 1%nat with
          | Some group => Ok (Some group)
          | None => Panic
          end
      end
  | _ => Panic
  end.

End embedded.
End yaml_node.

(** ** Vocabulary of the statements *)
Section vocabulary.
Context `{Dsl}.

(** A node without what annotates it: the values stay, every annotation and
    every source name is reset, at every depth. *)
Fixpoint strip (n : yaml.Node) : yaml.Node :=
  yaml.AnnotatedNode
    match yaml.Value n with
    | yaml.VMap m => yaml.VMap (strip <$> m)
    | yaml.VList l => yaml.VList (map strip l)
    | v => v
    end
    "" yaml.EmptyAnnotation.

(** The number of constructors of a node, to count down on. *)
Fixpoint node_size (n : yaml.Node) : nat :=
  match yaml.Value n with
  | yaml.VMap m => S (map_fold (λ _ c acc, node_size c + acc)%nat 0%nat m)
  | yaml.VList l => S (list_sum (map node_size l))
  | _ => 1%nat
  end.

(** Maps, sequences, and everything else. *)
Definition container_kind (v : yaml.value) : nat :=
  match v with
  | yaml.VMap _ => 1%nat
  | yaml.VList _ => 2%nat
  | _ => 0%nat
  end.

(** Whether every scalar, expression and template in [n] is deeply equal to
    itself (a float is unless it is a NaN). *)
Fixpoint self_equal_leaves (n : yaml.Node) : bool :=
  match yaml.Value n with
  | yaml.VMap m => map_fold (λ _ c acc, acc && self_equal_leaves c) true m
  | yaml.VList l => forallb self_equal_leaves l
  | v => yaml.DeepEqual_leaf v v
  end.

End vocabulary.

Section flow_vocabulary.
Context `{Dsl} `{!dynaml.API}.

(** The name and the scope under which [flow] registers a tag: the tag as it
    is with stream scope, or, when it starts with a star, without the star and
    with global scope. *)
Definition published (tag : string) : string * dynaml.TagScope :=
  if flow.HasPrefix_star tag
  then (flow.drop_first tag, Z.lor dynaml.TAG_LOCAL dynaml.TAG_SCOPE_GLOBAL)
  else (tag, Z.lor dynaml.TAG_LOCAL dynaml.TAG_SCOPE_STREAM).

End flow_vocabulary.

(** In a slice sorted by [sort.Sort], [x] may stand before [y]: [y] is not
    [Less] than [x]. *)
Definition no_later {A} (Less : A → A → bool) (x y : A) : Prop := Less y x = false.

Section for_vocabulary.
Context `{Dsl}.

(** The order [Less] goes by: names first, index names second. *)
Definition compare_key (a b : control.iteration) : comparison :=
  match strings.Compare (control.name a) (control.name b) with
  | Eq => strings.Compare (control.index a) (control.index b)
  | c => c
  end.

(** The number of values a range runs through. *)
Definition radix (r : control.iteration) : nat := default 0%nat (control.iteration_Len r).

(** A range whose counter points at one of its values. *)
Definition in_range (r : control.iteration) : Prop :=
  is_Some (control.iterator_ r) ∧ (control.current r < radix r)%nat.

(** The counters read as one number, the first range being the least
    significant digit. *)
Fixpoint position (ranges : control.iterations) : nat :=
  match ranges with
  | [] => 0%nat
  | r :: rest => (control.current r + radix r * position rest)%nat
  end.

(** The number of tuples the ranges span. *)
Fixpoint rounds (ranges : control.iterations) : nat :=
  match ranges with
  | [] => 1%nat
  | r :: rest => (radix r * rounds rest)%nat
  end.

(** The same variable, counter aside. *)
Definition same_range (r r' : control.iteration) : Prop :=
  control.name r = control.name r' ∧ control.index r = control.index r'
  ∧ control.iterator_ r = control.iterator_ r'.

End for_vocabulary.

Section more_vocabulary.
Context `{Dsl} `{!yaml.Helpers} `{!dynaml.API}.

(** The key name after the first loop of [processMerges] on entries without
    inline merges: the last key tag found, or the key name before. *)
Definition last_key_tag (keyName : string) (entries : list yaml.Node) : string :=
  fold_left (λ keyName val,
      if negb (String.eqb (flow.ProcessKeyTag val).2 "")
      then (flow.ProcessKeyTag val).2 else keyName) entries keyName.

(** An entry whose key tag is settled: when it is a map, at most one of its
    keys carries a key tag, and that key without its tag is not a key of the
    map. *)
Definition one_key_tag (val : yaml.Node) : Prop :=
  ∀ m, yaml.Value val = yaml.VMap m →
    (∀ k k', is_Some (m !! k) → is_Some (m !! k') →
             is_Some (flow.key_tag k) → is_Some (flow.key_tag k') → k = k')
    ∧ (∀ k rest, is_Some (m !! k) → flow.key_tag k = Some rest → m !! rest = None).

(** [ProcessKeyTag] when its first loop visits the entries of the map in the
    order [first] and its second loop in the order [second]. *)
Definition ProcessKeyTag_visiting (first second : list (string * yaml.Node))
    (val : yaml.Node) : yaml.Node * string :=
  match yaml.Value val with
  | yaml.VMap _ =>
      let '(keyName, found) :=
        fold_left (λ acc entry,
            match flow.key_tag entry.1 with
            | Some rest => (rest, true)
            | None => acc
            end) first ("", false) in
      if found : bool then
        let newMap :=
          fold_left (λ (newMap : gmap string yaml.Node) entry,
              match flow.key_tag entry.1 with
              | Some rest => <[rest := entry.2]> newMap
              | None => <[entry.1 := entry.2]> newMap
              end) second ∅ in
        (yaml.SubstituteNode (yaml.VMap newMap) val, keyName)
      else (val, keyName)
  | _ => (val, "")
  end.

(** An iterator that answers at every index below its length. *)
Definition answers (it : control.iterator) : Prop :=
  ∀ i, (i < control.iterator_Len it)%nat →
       is_Some (control.iterator_Value it i) ∧ is_Some (control.iterator_Index it i).

(** A range as [flowFor] builds it from a list or a map that is not empty:
    the counter at the start, an iterator that answers. *)
Definition fresh_range (r : control.iteration) : Prop :=
  control.current r = 0%nat
  ∧ ∃ it, control.iterator_ r = Some it ∧ answers it
          ∧ (0 < control.iterator_Len it)%nat.

(** A range whose counter points at a value that its iterator answers
    with. *)
Definition running_range (r : control.iteration) : Prop :=
  ∃ it, control.iterator_ r = Some it ∧ answers it
        ∧ (control.current r < control.iterator_Len it)%nat.

(** Plain data: a document that holds no expression, no text that embeds one,
    no merge key and no key tag, and whose nodes are not marked as merged,
    replaced, redirected, undefined or failed and carry no tag. *)
Definition plain_annotation (a : yaml.Annotation) : bool :=
  negb (yaml.merged a) && negb (yaml.replace a) && flow.is_none (yaml.redirectPath a)
  && negb (yaml.undefined a) && negb (yaml.failed a) && String.eqb (yaml.tag a) "".

Fixpoint plain (n : yaml.Node) : bool :=
  plain_annotation (yaml.GetAnnotation n)
  && match yaml.Value n with
     | yaml.VMap m =>
         flow.is_none (m !! "<<") && flow.is_none (m !! yaml.MERGEKEY)
         && map_fold (λ k c acc, acc && (flow.is_none (flow.key_tag k) && plain c)) true m
     | yaml.VList l => forallb plain l
     | yaml.VString _ =>
         flow.is_none (yaml.EmbeddedDynaml n true)
         && flow.is_none (yaml.EmbeddedDynaml n false)
     | yaml.VExpr _ => false
     | _ => true
     end.

(** A node that holds a list or a map without entries. *)
Definition empty_values (values : yaml.Node) : Prop :=
  yaml.Value values = yaml.VList [] ∨ yaml.Value values = yaml.VMap ∅.

End more_vocabulary.

(** ** A small instance of the collaborators

    A document language with three expressions, a binding that looks a stub
    path up in a list of stub documents, and a tag registry that refuses a
    tag already registered for another path.  The statements below are run on
    it. *)
Module example.

(** [~~] (undefined), [merge] and [merge required]. *)
Inductive expr :=
| EUndefined
| EMerge (required : bool).

#[export] Instance expr_eq_dec : EqDecision expr.
Proof. solve_decision. Defined.

#[export] Instance dsl : Dsl := {|
  Expression := expr;
  TemplateValue := unit;
  MarkerExpr := unit;
  Features := unit;
  Expression_DeepEqual := λ a b, bool_decide (a = b);
  TemplateValue_DeepEqual := λ _ _, true
|}.

(** The anchored form of [node.go]: a string that opens and closes with
    double parentheses embeds the text in between, which holds no line
    feed. *)
Definition embedded (s : string) : option string :=
  let n := String.length s in
  if bool_decide (4 ≤ n)%nat
     && String.eqb (String.substring 0 2 s) "(("
     && String.eqb (String.substring (n - 2) 2 s) "))"
     && negb (existsb (Ascii.eqb (ascii_of_nat 10))
                (list_ascii_of_string (String.substring 2 (n - 4) s)))
  then Some (String.substring 2 (n - 4) s)
  else None.

Definition lookup_string (node : yaml.Node) (key : string) : option string :=
  match yaml.Value node with
  | yaml.VMap m =>
      match yaml.Value <$> m !! key with
      | Some (yaml.VString s) => Some s
      | _ => None
      end
  | _ => None
  end.

Definition lookup_node (node : yaml.Node) (key : string) : option yaml.Node :=
  match yaml.Value node with
  | yaml.VMap m => m !! key
  | _ => None
  end.

#[export] Instance helpers : yaml.Helpers := {|
  yaml.FLAG_TEMPORARY := 1;
  yaml.FLAG_STATE := 2;
  yaml.FLAG_DEFAULT := 4;
  yaml.FLAG_INJECT := 8;
  yaml.FLAG_INJECTED := 16;
  yaml.FLAG_IMPLIED := 32;
  yaml.FLAG_DYNAMIC := 64;
  yaml.PropagateImplied := λ _, false;
  yaml.Overridden := λ f, f;
  yaml.EmbeddedDynaml := λ node _,
    match yaml.Value node with
    | yaml.VString s => embedded s
    | _ => None
    end;
  yaml.FindString := λ node _ key, lookup_string node key;
  yaml.FindStringR := λ _ node _ key, lookup_string node key;
  yaml.FindR := λ _ node _ key, lookup_node node key;
  yaml.UnresolvedListEntryMerge := λ _, None
|}.

(** The evaluation context: where the walk is, and the stub documents. *)
Record binding := mkBinding {
  b_path : list string;
  b_stubPath : list string;
  b_sourceName : string;
  b_noMerge : bool;
  b_stubs : list yaml.Node
}.

(** The entry of a list that a step [<key>:<name>] stands for: the first map
    whose field [<key>] is the string [<name>]. *)
Definition find_entry (l : list yaml.Node) (step : string) : option yaml.Node :=
  match String.index 0 ":" step with
  | Some split =>
      List.find (λ entry,
          bool_decide (lookup_string entry (String.substring 0 split step)
                       = Some (String.substring (split + 1)
                                 (String.length step - (split + 1)) step)))
        l
  | None => None
  end.

Fixpoint find_path (path : list string) (node : yaml.Node) : option yaml.Node :=
  match path with
  | [] => Some node
  | step :: path =>
      match yaml.Value node with
      | yaml.VMap m => m !! step ≫= find_path path
      | yaml.VList l => find_entry l step ≫= find_path path
      | _ => None
      end
  end.

(** The first stub that has the path wins. *)
Fixpoint find_in_stubs (stubs : list yaml.Node) (path : list string) : option yaml.Node :=
  match stubs with
  | [] => None
  | stub :: stubs =>
      match find_path path stub with
      | Some node => Some node
      | None => find_in_stubs stubs path
      end
  end.

(** The registry: the path each tag was registered for. *)
Definition registry := list (string * list string).

Fixpoint registered (name : string) (reg : registry) : option (list string) :=
  match reg with
  | [] => None
  | (n, p) :: reg => if String.eqb n name then Some p else registered name reg
  end.

Definition set_tag (name : string) (path : list string) (reg : registry)
    : option string * registry :=
  match registered name reg with
  | Some p =>
      if bool_decide (p = path) then (None, reg)
      else (Some ("duplicate tag " +:+ name), reg)
  | None => (None, (name, path) :: reg)
  end.

Fixpoint resolved (node : yaml.Node) : bool :=
  match yaml.Value node with
  | yaml.VMap m => map_fold (λ _ c acc, acc && resolved c) true m
  | yaml.VList l => forallb resolved l
  | yaml.VExpr _ => false
  | _ => true
  end.

Definition default_info : dynaml.EvaluationInfo :=
  dynaml.mkInfo _ None false false false "" false false yaml.Issue_zero 0 "".

Definition set_error (info : dynaml.EvaluationInfo) (msg : string) : dynaml.EvaluationInfo :=
  dynaml.mkInfo _ (dynaml.info_RedirectPath info) (dynaml.info_Replace info)
    (dynaml.info_Merged info) (dynaml.info_Preferred info) (dynaml.info_KeyName info)
    (dynaml.info_Undefined info) true (yaml.NewIssue msg) (dynaml.info_NodeFlags info)
    (dynaml.info_SourceName info).

Definition parse (sub : string) : expr + string :=
  let text := strings.TrimSpace sub in
  if String.eqb text "~~" then inl EUndefined
  else if String.eqb text "merge" then inl (EMerge false)
  else if String.eqb text "merge required" then inl (EMerge true)
  else inr ("syntax error in '" +:+ sub +:+ "'").

Definition evaluate (e : expr) (env : binding)
    : yaml.value * dynaml.EvaluationInfo * bool :=
  match e with
  | EUndefined =>
      (yaml.VNil,
       dynaml.mkInfo _ None false false false "" true false yaml.Issue_zero 0 "",
       true)
  | EMerge _ =>
      match find_in_stubs (b_stubs env) (b_stubPath env) with
      | Some node =>
          (yaml.Value node,
           dynaml.mkInfo _ None false true false "" false false yaml.Issue_zero 0 "",
           true)
      | None => (yaml.VNil, set_error default_info "merge: stub not found", false)
      end
  end.

#[export] Instance api : dynaml.API := {|
  dynaml.Binding := binding;
  dynaml.State := registry;
  dynaml.Path := b_path;
  dynaml.StubPath := b_stubPath;
  dynaml.SourceName := b_sourceName;
  dynaml.NoMerge := b_noMerge;
  dynaml.RedirectOverwrite := λ env r,
    mkBinding (b_path env) r (b_sourceName env) (b_noMerge env) (b_stubs env);
  dynaml.WithSource := λ env s,
    mkBinding (b_path env) (b_stubPath env) s (b_noMerge env) (b_stubs env);
  dynaml.WithScope := λ env _, env;
  dynaml.WithLocalScope := λ env _, env;
  dynaml.WithPath := λ env step,
    mkBinding (b_path env ++ [step]) (b_stubPath env ++ [step]) (b_sourceName env)
      (b_noMerge env) (b_stubs env);
  dynaml.FindInStubs := λ env path, find_in_stubs (b_stubs env) path;
  dynaml.GetFeatures := λ _, tt;
  dynaml.InterpolationEnabled := λ _, false;
  dynaml.SetTag := λ name _ path _ reg, set_tag name path reg;
  dynaml.TAG_LOCAL := 0;
  dynaml.TAG_SCOPE_GLOBAL := 1;
  dynaml.TAG_SCOPE_STREAM := 2;
  dynaml.IsResolvedNode := λ node _, resolved node;
  dynaml.IsControl := λ _ _, (false, None);
  dynaml.IsExpression := λ v, match v with yaml.VExpr _ => true | _ => false end;
  dynaml.IssueNode := λ _ _ node error failed issue, yaml.IssueNode node error failed issue;
  dynaml.RequireTemplate := λ _ _, false;
  dynaml.ExpressionType := λ _, "value";
  dynaml.Parse := λ sub _ _, parse sub;
  dynaml.Evaluate := λ e env _ reg, (evaluate e env, reg);
  dynaml.asMergeExpr := λ e, match e with EMerge required => Some required | _ => None end;
  dynaml.SubstitutionExpr := λ _, EUndefined;
  dynaml.NewTemplateValue := λ _ _ _ _, tt;
  dynaml.DefaultInfo := default_info;
  dynaml.SetError := set_error;
  dynaml.Cleanup := λ _, None;
  dynaml.TEMPLATE := "template";
  dynaml.asMarkerExpr := λ _, None;
  dynaml.NewTemplateMarker := λ _, tt;
  dynaml.Add := λ m _, m;
  dynaml.Has := λ _ _, false;
  dynaml.GetTag := λ _, "";
  dynaml.GetFlags := λ _, 0;
  dynaml.TemplateExpression := λ _ _, None;
  dynaml.ControlIssue := λ _ node msg _,
    (yaml.IssueNode node true true (yaml.NewIssue msg), true);
  dynaml.ControlIssueByIssue := λ _ node issue _, (yaml.IssueNode node true true issue, true);
  dynaml.Short := λ _ _, "";
  dynaml.Shorten := λ s, s
|}.

#[export] Instance control_ : flow.Control := {|
  flow.flowControl := λ node _ _, mret node
|}.

(** The format, unformatted. *)
#[export] Instance fmt_ : fmt.Fmt := {|
  fmt.Sprintf := λ format _, format
|}.

(** A binding at the root of a document, and the documents of the examples. *)
Definition env0 (stubs : list yaml.Node) : binding := mkBinding [] [] "doc" false stubs.

Definition scalar (s : string) : yaml.Node := yaml.NewNode (yaml.VString s) "doc".
Definition number (i : Z) : yaml.Node := yaml.NewNode (yaml.VInt i) "doc".
Definition mapping (m : gmap string yaml.Node) : yaml.Node :=
  yaml.NewNode (yaml.VMap m) "doc".
Definition sequence (l : list yaml.Node) : yaml.Node := yaml.NewNode (yaml.VList l) "doc".

(** The documents the statements are run on. *)

(** A replaced scalar, and a stub that has another value in its place. *)
Definition replaced : yaml.Node := yaml.ReplaceNode (yaml.VString "x") (scalar "x") None.
Definition stub_scalar : yaml.Node := scalar "X".

(** A scalar whose expression does not parse. *)
Definition unparsable : yaml.Node := scalar "(( 1 + ))".

(** A map with an undefined child, after the pass that parsed it. *)
Definition with_undefined : yaml.Node :=
  mapping {[ "a" := yaml.NewNode (yaml.VExpr EUndefined) "doc"; "b" := number 1 ]}.


(** A map with both merge keys. *)
Definition two_merge_keys : gmap string yaml.Node :=
  {[ "<<" := scalar "(( merge ))"; "<<<" := scalar "(( merge ))"; "a" := number 1 ]}.

(** A list with an entry named [a], a stub list whose entry named [a] is
    flagged INJECT, and what [flowList] makes of the two. *)
Definition named (name : string) (v : Z) : yaml.Node :=
  mapping {[ "name" := scalar name; "v" := number v ]}.
Definition list_doc : yaml.Node := sequence [named "a" 1].
Definition list_stub : yaml.Node :=
  sequence [yaml.AddFlags (named "a" 9) yaml.FLAG_INJECT].
Definition list_injected : yaml.Node :=
  yaml.AddFlags (sequence [yaml.AddFlags (named "a" 9) yaml.FLAG_INJECT; named "a" 9])
    yaml.FLAG_INJECTED.

(** A globally tagged scalar, and a registry that has the tag for another
    path. *)
Definition tagged : yaml.Node := yaml.SetTag (scalar "x") "*t".
Definition taken : registry := [("t", ["elsewhere"])].

(** The variables [a] and [b] of a [for] control, and their ranges. *)
Definition for_ab : gmap string yaml.Node :=
  {[ "a" := sequence [number 1; number 2]; "b" := sequence [number 3] ]}.
Definition ranges_ab : control.iterations :=
  [control.mkIteration "b" "index-b" 0 (Some (control.listIterator [number 3]));
   control.mkIteration "a" "index-a" 0
     (Some (control.listIterator [number 1; number 2]))].

End example.

(** ** More documents to run the statements on *)
Module samples.
Import example.

(** A node whose expression evaluates to undefined, and what it evaluates
    to. *)
Definition undefined_expression : yaml.Node := yaml.NewNode (yaml.VExpr EUndefined) "doc".
Definition undefined_node : yaml.Node := yaml.UndefinedNode (yaml.NewNode yaml.VNil "doc").

(** The entries of a map with an undefined child. *)
Definition undefined_child : gmap string yaml.Node :=
  {[ "a" := undefined_expression; "b" := number 1 ]}.

(** The locals of [flowMap] for a map without a merge key, at the root of a
    document without stubs. *)
Definition locals0 : flow.MapLocals :=
  flow.mkMapLocals (env0 []) 0 "" true false None false ∅ true false None None.

(** A map whose merge value is undefined. *)
Definition undefined_merge : gmap string yaml.Node :=
  {[ "<<" := undefined_expression; "a" := number 1 ]}.

(** A list whose first entry carries a key tag. *)
Definition tagged_entries : list yaml.Node :=
  [mapping {[ "key:id" := scalar "x"; "v" := number 1 ]}; number 2].

(** A [for] control whose variable [a] has no values, and its range. *)
Definition for_nothing : gmap string yaml.Node := {[ "a" := sequence [] ]}.
Definition ranges_nothing : control.iterations :=
  [control.mkIteration "a" "index-a" 0 None].

(** The options of a [for] control with a plain body. *)
Definition plain_body : gmap string yaml.Node := {[ "do" := scalar "x" ]}.

(** A variable of the list form, and its range. *)
Definition variable_x : yaml.Node :=
  mapping {[ "name" := scalar "x"; "values" := sequence [number 1] ]}.
Definition range_x : control.iteration :=
  control.mkIteration "x" "index-x" 0 (Some (control.listIterator [number 1])).

(** A document of plain data. *)
Definition plain_document : yaml.Node :=
  mapping {[ "a" := sequence [number 1; scalar "x"]; "b" := number 2 ]}.

(** The variables of the first round for the ranges of [a] and [b]. *)
Definition round_ab : gmap string yaml.Node :=
  {[ "a" := number 1; "index-a" := yaml.NewNode (yaml.VInt 0) "for";
     "b" := number 3; "index-b" := yaml.NewNode (yaml.VInt 0) "for" ]}.

End samples.

(** ** The instance with a control

    The collaborators of [example], with a classification of the maps: a map
    that has the key [for] is a control. *)
Module controls.
Import example samples.

Definition is_for (node : yaml.Node) : bool :=
  match yaml.Value node with
  | yaml.VMap m => bool_decide (is_Some (m !! "for"))
  | _ => false
  end.

Definition api_for : dynaml.API := {|
  dynaml.Binding := binding;
  dynaml.State := registry;
  dynaml.Path := b_path;
  dynaml.StubPath := b_stubPath;
  dynaml.SourceName := b_sourceName;
  dynaml.NoMerge := b_noMerge;
  dynaml.RedirectOverwrite := λ env r,
    mkBinding (b_path env) r (b_sourceName env) (b_noMerge env) (b_stubs env);
  dynaml.WithSource := λ env s,
    mkBinding (b_path env) (b_stubPath env) s (b_noMerge env) (b_stubs env);
  dynaml.WithScope := λ env _, env;
  dynaml.WithLocalScope := λ env _, env;
  dynaml.WithPath := λ env step,
    mkBinding (b_path env ++ [step]) (b_stubPath env ++ [step]) (b_sourceName env)
      (b_noMerge env) (b_stubs env);
  dynaml.FindInStubs := λ env path, find_in_stubs (b_stubs env) path;
  dynaml.GetFeatures := λ _, tt;
  dynaml.InterpolationEnabled := λ _, false;
  dynaml.SetTag := λ name _ path _ reg, set_tag name path reg;
  dynaml.TAG_LOCAL := 0;
  dynaml.TAG_SCOPE_GLOBAL := 1;
  dynaml.TAG_SCOPE_STREAM := 2;
  dynaml.IsResolvedNode := λ node _, resolved node;
  dynaml.IsControl := λ node _, (is_for node, None);
  dynaml.IsExpression := λ v, match v with yaml.VExpr _ => true | _ => false end;
  dynaml.IssueNode := λ _ _ node error failed issue, yaml.IssueNode node error failed issue;
  dynaml.RequireTemplate := λ _ _, false;
  dynaml.ExpressionType := λ _, "value";
  dynaml.Parse := λ sub _ _, parse sub;
  dynaml.Evaluate := λ e env _ reg, (evaluate e env, reg);
  dynaml.asMergeExpr := λ e, match e with EMerge required => Some required | _ => None end;
  dynaml.SubstitutionExpr := λ _, EUndefined;
  dynaml.NewTemplateValue := λ _ _ _ _, tt;
  dynaml.DefaultInfo := default_info;
  dynaml.SetError := set_error;
  dynaml.Cleanup := λ _, None;
  dynaml.TEMPLATE := "template";
  dynaml.asMarkerExpr := λ _, None;
  dynaml.NewTemplateMarker := λ _, tt;
  dynaml.Add := λ m _, m;
  dynaml.Has := λ _ _, false;
  dynaml.GetTag := λ _, "";
  dynaml.GetFlags := λ _, 0;
  dynaml.TemplateExpression := λ _ _, None;
  dynaml.ControlIssue := λ _ node msg _,
    (yaml.IssueNode node true true (yaml.NewIssue msg), true);
  dynaml.ControlIssueByIssue := λ _ node issue _, (yaml.IssueNode node true true issue, true);
  dynaml.Short := λ _ _, "";
  dynaml.Shorten := λ s, s
|}.

(** A control handling that hands the node back. *)
Definition control_for : @flow.Control dsl api_for := {|
  flow.flowControl := λ node _ _, @ret dsl api_for _ node
|}.

(** A control whose merge value evaluates to an undefined node, and a list
    that holds it. *)
Definition undefined_for : yaml.Node :=
  mapping {[ "<<" := undefined_expression; "do" := scalar "x";
             "for" := mapping {[ "x" := sequence [number 1] ]} ]}.
Definition list_of_undefined_for : yaml.Node := sequence [undefined_for].

End controls.

(** * Properties *)

(** ** Nodes: induction, and the equivalence of nodes *)
Section equivalence.
Context `{Dsl}.

Lemma node_size_map_child (m : gmap string yaml.Node) k c s a :
  m !! k = Some c → (node_size c < node_size (yaml.AnnotatedNode (yaml.VMap m) s a))%nat.
Proof.
  intros Hk. simpl.
  rewrite (map_fold_delete_L _ _ k c m); [lia | intros; lia | done].
Qed.

Lemma node_size_list_child (l : list yaml.Node) c s a :
  c ∈ l → (node_size c < node_size (yaml.AnnotatedNode (yaml.VList l) s a))%nat.
Proof. intros Hc. simpl. induction Hc; simpl; lia. Qed.

Lemma node_ind' (P : yaml.Node → Prop) :
  (∀ v s a,
      (∀ m, v = yaml.VMap m → map_Forall (λ _ c, P c) m) →
      (∀ l, v = yaml.VList l → Forall P l) →
      P (yaml.AnnotatedNode v s a)) →
  ∀ n, P n.
Proof.
  intros step n. remember (node_size n) as k eqn:E. revert n E.
  induction (lt_wf k) as [k _ IH]. intros [v s a] ->. apply step.
  - intros m -> i c Hic. eapply IH; [|reflexivity]. by eapply node_size_map_child.
  - intros l ->. apply Forall_forall. intros c Hc. eapply IH; [|reflexivity].
    by apply node_size_list_child.
Qed.

Lemma fold_andb_true {A} (f : string → A → bool) (m : gmap string A) :
  map_fold (λ k x acc, acc && f k x) true m = true ↔
  map_Forall (λ k x, f k x = true) m.
Proof.
  induction m as [|k x m Hk Hfold IH] using map_first_key_ind.
  - rewrite map_fold_empty. split; [intros _; apply map_Forall_empty | done].
  - rewrite map_fold_insert_first_key by done.
    rewrite andb_true_iff, IH, map_Forall_insert by done. tauto.
Qed.

Lemma EquivalentToNode_map nv ov s a s' a' :
  yaml.EquivalentToNode (yaml.AnnotatedNode (yaml.VMap nv) s a)
    (Some (yaml.AnnotatedNode (yaml.VMap ov) s' a')) = true ↔
  size nv = size ov ∧
  ∀ k x, nv !! k = Some x → ∃ y, ov !! k = Some y ∧ yaml.EquivalentToNode x (Some y) = true.
Proof.
  simpl. case_bool_decide as Hsz; simpl.
  - rewrite fold_andb_true. split.
    + intros Hall. split; [done|]. intros k x Hk. specialize (Hall k x Hk). simpl in Hall.
      destruct (ov !! k) as [y|]; [eauto | done].
    + intros [_ Hall] k x Hk. simpl. destruct (Hall k x Hk) as (y & -> & Hy). done.
  - split; [done | tauto].
Qed.

Lemma EquivalentToNode_list nv ov s a s' a' :
  yaml.EquivalentToNode (yaml.AnnotatedNode (yaml.VList nv) s a)
    (Some (yaml.AnnotatedNode (yaml.VList ov) s' a')) = true ↔
  Forall2 (λ x y, yaml.EquivalentToNode x (Some y) = true) nv ov.
Proof.
  simpl. case_bool_decide as Hlen; simpl.
  - revert ov Hlen. induction nv as [|x nv IH]; intros [|y ov] Hlen; simplify_eq/=.
    + split; [constructor | done].
    + rewrite andb_true_iff, IH by done. split.
      * intros [??]. by constructor.
      * by inversion 1.
  - split; [done|]. intros Hall. by apply Forall2_length in Hall.
Qed.

(** The verdict on a pair of nodes one of which is neither a map nor a list. *)
Lemma EquivalentToNode_leaf v w s a s' a' :
  (∀ m, v ≠ yaml.VMap m) → (∀ l, v ≠ yaml.VList l) →
  yaml.EquivalentToNode (yaml.AnnotatedNode v s a) (Some (yaml.AnnotatedNode w s' a'))
  = yaml.DeepEqual_leaf v w.
Proof.
  intros Hm Hl. destruct v; try done; [by destruct (Hl l) | by destruct (Hm m)].
Qed.

Lemma strip_value n :
  yaml.Value (strip n) =
  match yaml.Value n with
  | yaml.VMap m => yaml.VMap (strip <$> m)
  | yaml.VList l => yaml.VList (map strip l)
  | v => v
  end.
Proof. by destruct n. Qed.

Lemma EquivalentToNode_strip n :
  ∀ o, yaml.EquivalentToNode n (Some o) = yaml.EquivalentToNode (strip n) (Some (strip o)).
Proof.
  induction n as [v s a IHm IHl] using node_ind'. intros [w s' a'].
  destruct v as [| | | | |nv|nv| |]; destruct w as [| | | | |ov|ov| |]; try reflexivity.
  - (* lists *)
    apply Bool.eq_iff_eq_true.
    change (strip (yaml.AnnotatedNode (yaml.VList nv) s a))
      with (yaml.AnnotatedNode (yaml.VList (map strip nv)) "" yaml.EmptyAnnotation).
    change (strip (yaml.AnnotatedNode (yaml.VList ov) s' a'))
      with (yaml.AnnotatedNode (yaml.VList (map strip ov)) "" yaml.EmptyAnnotation).
    rewrite !EquivalentToNode_list. specialize (IHl nv eq_refl).
    rewrite Forall2_fmap. clear -IHl. revert ov.
    induction nv as [|x nv IH]; intros [|y ov]; split; inversion 1; subst; try constructor.
    + rewrite <- (Forall_inv IHl); done.
    + apply IH; [by eapply Forall_inv_tail | done].
    + rewrite (Forall_inv IHl); done.
    + apply IH; [by eapply Forall_inv_tail | done].
  - (* maps *)
    apply Bool.eq_iff_eq_true.
    change (strip (yaml.AnnotatedNode (yaml.VMap nv) s a))
      with (yaml.AnnotatedNode (yaml.VMap (strip <$> nv)) "" yaml.EmptyAnnotation).
    change (strip (yaml.AnnotatedNode (yaml.VMap ov) s' a'))
      with (yaml.AnnotatedNode (yaml.VMap (strip <$> ov)) "" yaml.EmptyAnnotation).
    rewrite !EquivalentToNode_map, !map_size_fmap. specialize (IHm nv eq_refl).
    split; intros [Hsz Hall]; (split; [done|]); intros k x Hk.
    + rewrite lookup_fmap in Hk. destruct (nv !! k) as [x0|] eqn:Hx; simplify_eq/=.
      destruct (Hall k x0 Hx) as (y & Hy & Hxy).
      exists (strip y). rewrite lookup_fmap, Hy. split; [done|].
      by rewrite <- (IHm k x0 Hx y).
    + assert ((strip <$> nv) !! k = Some (strip x)) as Hk' by by rewrite lookup_fmap, Hk.
      destruct (Hall k _ Hk') as (y' & Hy' & Hxy).
      rewrite lookup_fmap in Hy'. destruct (ov !! k) as [y|] eqn:Hy; simplify_eq/=.
      exists y. split; [done|]. by rewrite (IHm k x Hk y).
Qed.
End equivalence.

Section equivalence_of_nodes.
Context `{Dsl}.

Lemma EquivalentToNode_self n :
  self_equal_leaves n = true → yaml.EquivalentToNode n (Some n) = true.
Proof.
  induction n as [v s a IHm IHl] using node_ind'. intros Hself.
  destruct v as [| | | | |nv|nv| |]; try exact Hself.
  - apply EquivalentToNode_list. specialize (IHl nv eq_refl).
    simpl in Hself. rewrite forallb_forall in Hself.
    apply Forall2_same_length_lookup_2; [done|].
    intros i x y Hx Hy. simplify_eq.
    eapply Forall_lookup_1 in IHl; [|done]. apply IHl.
    apply Hself, list_elem_of_In. by eapply list_elem_of_lookup_2.
  - apply EquivalentToNode_map. split; [done|]. intros k x Hk. exists x. split; [done|].
    apply (IHm nv eq_refl k x Hk).
    change (map_fold (λ _ c acc, acc && self_equal_leaves c) true nv = true) in Hself.
    rewrite (fold_andb_true (λ _ c, self_equal_leaves c)) in Hself. by apply (Hself k x).
Qed.

Lemma EquivalentToNode_dom nv ov s a s' a' :
  yaml.EquivalentToNode (yaml.AnnotatedNode (yaml.VMap nv) s a)
    (Some (yaml.AnnotatedNode (yaml.VMap ov) s' a')) = true ↔
  dom nv = dom ov ∧
  ∀ k x y, nv !! k = Some x → ov !! k = Some y → yaml.EquivalentToNode x (Some y) = true.
Proof.
  rewrite EquivalentToNode_map. split.
  - intros [Hsz Hall]. split.
    + apply set_subseteq_size_eq.
      * intros k [x Hx]%elem_of_dom. destruct (Hall k x Hx) as (y & Hy & _).
        apply elem_of_dom. eauto.
      * rewrite !size_dom. lia.
    + intros k x y Hx Hy. destruct (Hall k x Hx) as (y' & Hy' & Hxy). by simplify_eq.
  - intros [Hdom Hall]. split.
    + by rewrite <- !size_dom, Hdom.
    + intros k x Hx. assert (k ∈ dom ov) as [y Hy]%elem_of_dom.
      { rewrite <- Hdom. apply elem_of_dom. eauto. }
      exists y. split; [done|]. by eapply Hall.
Qed.

(** C10. [EquivalentToNode] compares the values of two nodes and nothing
    else: two maps are equivalent when they have the same keys and equivalent
    entries under each, two sequences when they have the same length and
    equivalent elements at each index, a map or a sequence is never equivalent
    to a value of another kind, and any other pair of values is compared by
    deep equality.  The verdict is the same after every annotation and source
    name has been reset, so nodes with the same values get the same verdict
    whatever annotates them: they are equivalent as soon as their leaves are
    deeply equal to themselves. *)
Theorem EquivalentToNode_compares_values_only :
  (∀ nv ov s a s' a',
      yaml.EquivalentToNode (yaml.AnnotatedNode (yaml.VMap nv) s a)
        (Some (yaml.AnnotatedNode (yaml.VMap ov) s' a')) = true ↔
      dom nv = dom ov ∧
      ∀ k x y, nv !! k = Some x → ov !! k = Some y →
               yaml.EquivalentToNode x (Some y) = true)
  ∧ (∀ nv ov s a s' a',
      yaml.EquivalentToNode (yaml.AnnotatedNode (yaml.VList nv) s a)
        (Some (yaml.AnnotatedNode (yaml.VList ov) s' a')) = true ↔
      length nv = length ov ∧
      ∀ i x y, nv !! i = Some x → ov !! i = Some y →
               yaml.EquivalentToNode x (Some y) = true)
  ∧ (∀ v w s a s' a',
      (∀ m, v ≠ yaml.VMap m) → (∀ l, v ≠ yaml.VList l) →
      yaml.EquivalentToNode (yaml.AnnotatedNode v s a) (Some (yaml.AnnotatedNode w s' a'))
      = yaml.DeepEqual_leaf v w)
  ∧ (∀ n o, container_kind (yaml.Value n) ≠ container_kind (yaml.Value o) →
            yaml.EquivalentToNode n (Some o) = false)
  ∧ (∀ n, yaml.EquivalentToNode n None = false)
  ∧ (∀ n o, yaml.EquivalentToNode n (Some o)
            = yaml.EquivalentToNode (strip n) (Some (strip o)))
  ∧ (∀ n n' o o', strip n = strip n' → strip o = strip o' →
                  yaml.EquivalentToNode n (Some o) = yaml.EquivalentToNode n' (Some o'))
  ∧ (∀ n o, strip n = strip o → self_equal_leaves n = true →
            yaml.EquivalentToNode n (Some o) = true).
Proof.
  split; [exact EquivalentToNode_dom|].
  split.
  { intros. rewrite EquivalentToNode_list. apply Forall2_same_length_lookup. }
  split; [exact EquivalentToNode_leaf|].
  split.
  { intros [v s a] [w s' a'] Hk; destruct v, w; simplify_eq/=; done. }
  split; [by intros []|].
  split; [exact EquivalentToNode_strip|].
  split.
  { intros n n' o o' Hn Ho.
    by rewrite (EquivalentToNode_strip n), (EquivalentToNode_strip n'), Hn, Ho. }
  intros n o Hno Hself.
  rewrite (EquivalentToNode_strip n o), <- Hno, <- EquivalentToNode_strip.
  by apply EquivalentToNode_self.
Qed.

End equivalence_of_nodes.

(** ** The dispatcher *)
Section dispatcher.
Context `{Dsl} `{!yaml.Helpers} `{!dynaml.API} `{!flow.Control}.



(** With [merged] set, the stub override leaves the node alone. *)
Lemma _flow_override_merged root env shouldOverride flags replace redirect keyName :
  flow._flow_override root env shouldOverride true flags replace redirect keyName = root.
Proof. reflexivity. Qed.

(** A node that carries the replace flag is not "standard": the stub override
    leaves it alone, whatever was found for the node [_flow] started from. *)
Lemma _flow_override_replaced root env shouldOverride merged flags replace redirect keyName :
  yaml.ReplaceFlag root = true →
  flow._flow_override root env shouldOverride merged flags replace redirect keyName = root.
Proof.
  intros Hrep. unfold flow._flow_override, yaml.StandardOverride. rewrite Hrep. simpl.
  by rewrite andb_false_r.
Qed.

(** Nor is a node with a redirect path of at least one step "standard". *)
Lemma _flow_override_redirected root env shouldOverride merged flags replace redirect keyName :
  (0 < yaml.len_path (yaml.RedirectPath root))%nat →
  flow._flow_override root env shouldOverride merged flags replace redirect keyName = root.
Proof.
  intros Hlen. unfold flow._flow_override, yaml.StandardOverride.
  rewrite (bool_decide_eq_false_2 (yaml.len_path (yaml.RedirectPath root) = 0%nat)) by lia.
  by rewrite !andb_false_r.
Qed.

(** For the stub override it makes no difference which of the two accessors
    is asked about the node that is to be overridden: where they differ, the
    node is replaced or redirected, and so not "standard". *)
Lemma _flow_override_Merged root env shouldOverride flags replace redirect keyName :
  flow._flow_override root env shouldOverride (yaml.Merged' root) flags replace redirect keyName
  = flow._flow_override root env shouldOverride (yaml.Merged root) flags replace redirect
      keyName.
Proof.
  unfold yaml.Merged, yaml.Annotation_Merged, yaml.Merged'.
  destruct (yaml.merged (yaml.GetAnnotation root)); [done|].
  destruct (yaml.Annotation_ReplaceFlag (yaml.GetAnnotation root)) eqn:Hrep.
  { rewrite !_flow_override_replaced; done. }
  destruct (bool_decide (0 < yaml.len_path _)%nat) eqn:Hlen; [|done].
  apply bool_decide_eq_true in Hlen. rewrite !_flow_override_redirected; done.
Qed.


(** [_flow] skips the content of a replaced node, and the stub override leaves
    it alone. *)
Lemma _flow_replaced flowMap flowList root env shouldOverride enforceTemplate st :
  yaml.ReplaceFlag root = true →
  flow._flow flowMap flowList root env shouldOverride enforceTemplate st = Ok (root, st).
Proof.
  intros Hrep. unfold flow._flow. rewrite Hrep. cbn [negb].
  unfold mbind, M_bind, bind, mret, M_ret, ret. by rewrite _flow_override_replaced.
Qed.

(** What [flow] adds to [_flow]. *)
Lemma flow_unfold _flow root env shouldOverride enforceTemplate st :
  flow.flow _flow root env shouldOverride enforceTemplate st =
  match _flow root env shouldOverride enforceTemplate st with
  | Ok (node, st1) =>
      let tag := yaml.Annotation_Tag (yaml.GetAnnotation node) in
      if dynaml.IsResolvedNode node env && negb (String.eqb tag "") then
        match dynaml.SetTag (published tag).1 node (dynaml.Path env) (published tag).2 st1 with
        | (Some e, st2) =>
            Ok (yaml.IssueNode
                  (if flow.is_nil (yaml.Value node)
                   then yaml.ReplaceValue (yaml.Value root) node else node)
                  true true (yaml.NewIssue e), st2)
        | (None, st2) => Ok (node, st2)
        end
      else Ok (node, st1)
  | Panic => Panic
  | OutOfFuel => OutOfFuel
  end.
Proof.
  unfold flow.flow, published, mbind, M_bind, bind.
  destruct (_flow root env shouldOverride enforceTemplate st) as [[node st1]| |]; try done.
  simpl. destruct (dynaml.IsResolvedNode node env && _); [|done].
  destruct (flow.HasPrefix_star _); unfold flow.state_SetTag;
    (destruct (dynaml.SetTag _ _ _ _ _) as [[e|] st2]; done).
Qed.

(** C1. A node whose replace flag is set is returned by [_flow] as it is, at
    every pass: its content is not rewritten and no stub is looked up, so no
    stub value is laid over it or over anything below it; [flow] returns it
    with its value and its flag, having at most attached a tag conflict.
    Nor does the stub override that ends [_flow] ever replace a node that
    carries the flag, whatever the content rewriting handed to it. *)
Theorem replace_flag_excludes_stub_overlay (fuel : nat) root env
    shouldOverride enforceTemplate st :
  yaml.ReplaceFlag root = true →
  flow._flowN (S fuel) root env shouldOverride enforceTemplate st = Ok (root, st)
  ∧ (∃ node st',
        flow.flowN (S fuel) root env shouldOverride enforceTemplate st = Ok (node, st')
        ∧ yaml.Value node = yaml.Value root
        ∧ yaml.ReplaceFlag node = true
        ∧ flow._flowN (S fuel) node env shouldOverride enforceTemplate st' = Ok (node, st'))
  ∧ (∀ env' shouldOverride' merged flags replace redirect keyName,
        flow._flow_override root env' shouldOverride' merged flags replace redirect keyName
        = root).
Proof.
  intros Hrep. split; [by apply _flow_replaced|]. split.
  - unfold flow.flowN. rewrite flow_unfold. simpl flow._flowN.
    rewrite _flow_replaced by done. simpl.
    destruct (dynaml.IsResolvedNode root env && _).
    + destruct (dynaml.SetTag _ _ _ _ _) as [[e|] st2].
      * eexists _, _. split; [done|].
        assert (yaml.ReplaceFlag
                  (yaml.IssueNode
                     (if flow.is_nil (yaml.Value root)
                      then yaml.ReplaceValue (yaml.Value root) root else root)
                     true true (yaml.NewIssue e)) = true) as Hrep'.
        { destruct root as [v s a]. unfold yaml.ReplaceFlag in *. simpl in *.
          unfold yaml.AddIssue, yaml.Annotation_ReplaceFlag in *.
          destruct (flow.is_nil v), (negb _); simpl; done. }
        split; [|split; [done|by apply _flow_replaced]].
        clear. destruct root as [v s a]. simpl. by destruct (flow.is_nil v).
      * eexists _, _. split; [done|]. split; [done|]. split; [done|].
        by apply _flow_replaced.
    + eexists _, _. split; [done|]. split; [done|]. split; [done|].
      by apply _flow_replaced.
  - intros. by apply _flow_override_replaced.
Qed.




Lemma HasPrefix_star_spec tag :
  flow.HasPrefix_star tag = true ↔ ∃ rest, tag = String "*"%char rest.
Proof.
  split.
  - destruct tag as [|c rest]; [done|]. simpl.
    destruct (Ascii.eqb_spec c "*"%char) as [->|Hc]; [by eexists|].
    destruct c as [[] [] [] [] [] [] [] []]; done.
  - by intros [rest ->].
Qed.

(** C6. Let [_flow] return [node].  When [node] is not fully resolved or has
    no tag, [flow] returns it and leaves the registry alone.  Otherwise [flow]
    registers the tag once: under its own name with stream scope, or, when it
    starts with a star, without the star and with global scope.  When the
    registry accepts, [node] is returned; when it reports a conflict, the node
    returned is [node] marked as erroneous and failed and carrying the
    conflict as its issue, and the registry is the one the refused
    registration left: [flow] itself writes nothing to it. *)
Theorem tag_published_or_conflict_reported (_flow : flow.FlowFn) root env
    shouldOverride enforceTemplate st node st1 :
  _flow root env shouldOverride enforceTemplate st = Ok (node, st1) →
  let tag := yaml.Annotation_Tag (yaml.GetAnnotation node) in
  (dynaml.IsResolvedNode node env = false ∨ tag = "" →
   flow.flow _flow root env shouldOverride enforceTemplate st = Ok (node, st1))
  ∧ (dynaml.IsResolvedNode node env = true → tag ≠ "" →
     (∀ rest, tag = String "*"%char rest →
        published tag = (rest, Z.lor dynaml.TAG_LOCAL dynaml.TAG_SCOPE_GLOBAL))
     ∧ ((∀ rest, tag ≠ String "*"%char rest) →
        published tag = (tag, Z.lor dynaml.TAG_LOCAL dynaml.TAG_SCOPE_STREAM))
     ∧ match dynaml.SetTag (published tag).1 node (dynaml.Path env) (published tag).2 st1 with
       | (None, st2) =>
           flow.flow _flow root env shouldOverride enforceTemplate st = Ok (node, st2)
       | (Some e, st2) =>
           ∃ node',
             flow.flow _flow root env shouldOverride enforceTemplate st = Ok (node', st2)
             ∧ yaml.HasError node' = true
             ∧ yaml.Failed node' = true
             ∧ (e ≠ "" → yaml.Issue_of node' = yaml.NewIssue e)
             ∧ yaml.Annotation_Tag (yaml.GetAnnotation node') = tag
             ∧ yaml.Value node' = (if flow.is_nil (yaml.Value node)
                                   then yaml.Value root else yaml.Value node)
       end).
Proof.
  intros Hflow tag. split.
  - intros Hno. rewrite flow_unfold, Hflow. simpl. fold tag.
    destruct Hno as [-> | ->]; [done | by rewrite andb_false_r].
  - intros Hres Htag. split; [|split].
    + intros rest ->. reflexivity.
    + intros Hstar. unfold published.
      destruct (flow.HasPrefix_star tag) eqn:Hp; [|done].
      apply HasPrefix_star_spec in Hp as [rest ->]. by destruct (Hstar rest).
    + rewrite flow_unfold, Hflow. simpl. fold tag. rewrite Hres.
      assert (negb (String.eqb tag "") = true) as ->.
      { apply negb_true_iff. by apply String.eqb_neq. }
      simpl. destruct (dynaml.SetTag _ _ _ _ _) as [[e|] st2]; [|done].
      eexists. split; [done|]. unfold tag. clear.
      destruct node as [v s a].
      repeat split.
      * intros He. unfold yaml.Issue_of, yaml.IssueNode, yaml.AddIssue. simpl.
        apply String.eqb_neq in He. rewrite He. simpl.
        by destruct (flow.is_nil v).
      * unfold yaml.IssueNode, yaml.AddIssue. simpl.
        by destruct (flow.is_nil v), (negb _).
      * simpl. by destruct (flow.is_nil v).
Qed.

(** C4, as the code has it.  When the expression embedded in a string node
    does not parse, [FlowString] hands back the node it was given together
    with the error, and [_flow] drops the error: the node goes on to the stub
    override as it came, with its string and its annotation and no issue
    attached; where the override does not apply, it is what [_flow] returns. *)
Theorem parse_failure_is_dropped flowMap flowList root s env
    shouldOverride enforceTemplate st sub err :
  let env' := match yaml.RedirectPath root with
              | Some r => dynaml.RedirectOverwrite env r
              | None => env
              end in
  yaml.Value root = yaml.VString s →
  yaml.EmbeddedDynaml root (dynaml.InterpolationEnabled env') = Some sub →
  dynaml.Parse sub (dynaml.Path env') (dynaml.StubPath env') = inr err →
  flow.FlowString root env' = (root, Some err)
  ∧ flow._flow flowMap flowList root env shouldOverride enforceTemplate st
    = Ok (flow._flow_override root env' shouldOverride (yaml.Merged root)
            (yaml.Flags root) (yaml.ReplaceFlag root) (yaml.RedirectPath root)
            (yaml.KeyName root), st)
  ∧ (shouldOverride = false ∨ yaml.Merged root = true ∨ dynaml.NoMerge env' = true
     ∨ dynaml.FindInStubs env' (dynaml.StubPath env') = None →
     flow._flow flowMap flowList root env shouldOverride enforceTemplate st
     = Ok (root, st)).
Proof.
  intros env' Hs Hsub Hparse.
  assert (flow.FlowString root env' = (root, Some err)) as HFS.
  { unfold flow.FlowString. by rewrite Hsub, Hparse. }
  assert (flow._flow flowMap flowList root env shouldOverride enforceTemplate st
          = Ok (flow._flow_override root env' shouldOverride (yaml.Merged root)
                  (yaml.Flags root) (yaml.ReplaceFlag root) (yaml.RedirectPath root)
                  (yaml.KeyName root), st)) as Hflow.
  { rewrite <- _flow_override_Merged. unfold flow._flow. fold env'. rewrite Hs. simpl.
    destruct (yaml.ReplaceFlag root) eqn:Hrep; simpl; [done|].
    destruct (yaml.Merged' root) eqn:Hm; simpl; [done|].
    rewrite HFS. simpl. by rewrite Hs. }
  split; [done|]. split; [done|].
  intros Hskip. rewrite Hflow. f_equal. f_equal. unfold flow._flow_override.
  destruct Hskip as [-> | [-> | [-> | ->]]]; try done.
  - by rewrite andb_false_r.
  - by rewrite andb_false_r.
  - by destruct (_ && _).
Qed.

End dispatcher.

(** ** Map flow and list flow *)
Section walkers.
Context `{Dsl} `{!yaml.Helpers} `{!dynaml.API} `{!flow.Control}.

Lemma Undefined_AddFlags node f : yaml.Undefined (yaml.AddFlags node f) = yaml.Undefined node.
Proof. by destruct node. Qed.

(** C7. For a map that has both the key [<<] and the key [<<<], [flowMap]
    returns the node it was given, marked as erroneous and failed and carrying
    the issue "multiple merge keys not allowed".  Neither merge value is
    flowed: the result is the same whatever [_flow] would do, and the state is
    untouched. *)
Theorem multiple_merge_keys_are_an_issue (_flow : flow.FlowFn) root rootMap env
    shouldOverride template st :
  yaml.Value root = yaml.VMap rootMap →
  is_Some (rootMap !! "<<") → is_Some (rootMap !! yaml.MERGEKEY) →
  flow.flowMap _flow root env shouldOverride template st
  = Ok (yaml.IssueNode root true true (yaml.NewIssue "multiple merge keys not allowed"), st)
  ∧ yaml.Value (yaml.IssueNode root true true
                  (yaml.NewIssue "multiple merge keys not allowed")) = yaml.VMap rootMap
  ∧ yaml.HasError (yaml.IssueNode root true true
                     (yaml.NewIssue "multiple merge keys not allowed")) = true
  ∧ yaml.Failed (yaml.IssueNode root true true
                   (yaml.NewIssue "multiple merge keys not allowed")) = true
  ∧ yaml.Issue_of (yaml.IssueNode root true true
                     (yaml.NewIssue "multiple merge keys not allowed"))
    = yaml.NewIssue "multiple merge keys not allowed".
Proof.
  intros Hv [m1 Hm1] [m2 Hm2]. split; [|by destruct root].
  unfold flow.flowMap. destruct (flow.get_inherited_flags env) as [flags stub].
  by rewrite Hv, Hm1, Hm2.
Qed.

(** One round of the loop of [flowMap] stores no undefined node in [newMap]. *)
Lemma flowMap_entry_undefined _flow rootMap l shouldOverride mergekey acc key st acc' st' :
  flow.flowMap_entry _flow rootMap l shouldOverride mergekey acc key st = Ok (acc', st') →
  (∀ k v, acc'.1 !! k = Some v → yaml.Undefined v = true → acc.1 !! k = Some v)
  ∧ (∀ k v, acc'.2 !! k = Some v → acc.2 !! k = Some v ∨ yaml.Undefined v = true).
Proof.
  unfold flow.flowMap_entry. destruct (rootMap !! key) as [val|]; [|done].
  unfold mbind, M_bind, bind, mret, M_ret, ret.
  set (m := if String.eqb key mergekey then _ else _).
  destruct (m st) as [[[val'|] st1]| |]; try done.
  - destruct (yaml.Undefined val') eqn:Hu; simpl; intros ?; simplify_eq/=.
    + split; [done|]. intros k v. destruct (decide (key = k)) as [->|].
      * rewrite lookup_insert_eq. intros ?; simplify_eq. by right.
      * rewrite lookup_insert_ne by done. by left.
    + split; [|by left]. intros k v. destruct (decide (key = k)) as [->|].
      * rewrite lookup_insert_eq. intros ? Hv; simplify_eq.
        destruct (yaml.PropagateImplied _); [rewrite Undefined_AddFlags in Hv|]; congruence.
      * by rewrite lookup_insert_ne.
  - intros ?; simplify_eq. split; [done | by left].
Qed.

Lemma flowMap_entries_undefined _flow rootMap l shouldOverride mergekey keys :
  ∀ acc st acc' st',
    foldM (flow.flowMap_entry _flow rootMap l shouldOverride mergekey) keys acc st
    = Ok (acc', st') →
    (∀ k v, acc'.1 !! k = Some v → yaml.Undefined v = true → acc.1 !! k = Some v)
    ∧ (∀ k v, acc'.2 !! k = Some v → acc.2 !! k = Some v ∨ yaml.Undefined v = true).
Proof.
  induction keys as [|key keys IH]; intros acc st acc' st'; simpl.
  - unfold ret. intros ?; simplify_eq. split; [done | by left].
  - unfold bind at 1.
    destruct (flow.flowMap_entry _ _ _ _ _ acc key st) as [[acc1 st1]| |] eqn:He; try done.
    intros Hrest. apply flowMap_entry_undefined in He as [He1 He2].
    apply IH in Hrest as [Hr1 Hr2]. split.
    + intros k v Hk Hu. apply He1; [|done]. by apply Hr1.
    + intros k v Hk. destruct (Hr2 k v Hk) as [Hk'|]; [by apply He2 | by right].
Qed.

(** One round of the loop of [flowList] appends no undefined node. *)
Lemma flowList_element_undefined _flow keyName env acc val st acc' st' :
  flow.flowList_element _flow keyName env acc val st = Ok (acc', st') →
  acc'.1 = S acc.1
  ∧ ∃ added, acc'.2 = (acc.2 ++ added)%list
             ∧ Forall (λ v, yaml.Undefined v = false) added.
Proof.
  unfold flow.flowList_element, mbind, M_bind, bind, mret, M_ret, ret.
  destruct (flow.stepName _ _ _ _ _ st) as [[[step resolved] st1]| |]; try done.
  set (m := if resolved then _ else _).
  destruct (m st1) as [[val' st2]| |]; try done.
  destruct (yaml.Undefined val') eqn:Hu; simpl; intros ?; simplify_eq/=.
  - split; [done|]. exists []. by rewrite app_nil_r.
  - split; [done|]. exists [val']. split; [done|]. by constructor.
Qed.

Lemma flowList_elements_undefined _flow keyName env l :
  ∀ acc st acc' st',
    foldM (flow.flowList_element _flow keyName env) l acc st = Ok (acc', st') →
    acc'.1 = (acc.1 + length l)%nat
    ∧ ∃ added, acc'.2 = (acc.2 ++ added)%list
               ∧ Forall (λ v, yaml.Undefined v = false) added.
Proof.
  induction l as [|val l IH]; intros acc st acc' st'; simpl.
  - unfold ret. intros ?; simplify_eq. split; [lia|]. exists []. by rewrite app_nil_r.
  - unfold bind at 1.
    destruct (flow.flowList_element _ _ _ acc val st) as [[acc1 st1]| |] eqn:He; try done.
    intros Hrest. apply flowList_element_undefined in He as (Hi & a1 & Ha1 & Hu1).
    apply IH in Hrest as (Hi' & a2 & Ha2 & Hu2). split; [lia|].
    exists (a1 ++ a2)%list. rewrite Ha2, Ha1, app_assoc. split; [done|].
    by apply Forall_app.
Qed.

Lemma lor_absorbed_bit (f g bit : Z) :
  bit ≠ 0 → Z.lor (Z.lor f bit) g = g → Z.land g bit ≠ 0.
Proof.
  intros Hbit Hg Hz. rewrite <- Hg in Hz.
  rewrite Z.land_lor_distr_l, Z.land_lor_distr_l, Z.land_diag in Hz.
  apply Z.lor_eq_0_iff in Hz as [Hz _]. apply Z.lor_eq_0_iff in Hz as [_ Hz]. done.
Qed.

(** What [flowList] returns when [processMerges] asks for the elements to be
    processed: the list after the stub injection, in a node that has the
    flags of the injection. *)
Lemma flowList_processed (_flow : flow.FlowFn) root rootList env template st
    l replaced redirectPath keyName ismerged flags tag stub st1 n newList st2 :
  yaml.Value root = yaml.VList rootList →
  flow.processMerges _flow root rootList env template st
  = Ok ((yaml.VList l, true, replaced, redirectPath, keyName, ismerged, flags, tag, stub),
        st1) →
  foldM (flow.flowList_element _flow keyName
           match redirectPath with
           | Some r => dynaml.RedirectOverwrite env r
           | None => env
           end) l (0%nat, []) st1 = Ok ((n, newList), st2) →
  ∃ node,
    flow.flowList _flow root env template st = Ok (node, st2)
    ∧ yaml.Value node = yaml.VList (flow.flowList_inject ismerged stub root flags newList).2
    ∧ Z.lor (flow.flowList_inject ismerged stub root flags newList).1 (yaml.Flags node)
      = yaml.Flags node.
Proof.
  intros Hv Hmerges Hloop. unfold flow.flowList. rewrite Hv.
  unfold mbind, M_bind, bind, mret, M_ret, ret. rewrite Hmerges. simpl. rewrite Hloop.
  destruct (flow.flowList_inject ismerged stub root flags newList) as [flags' newList'].
  simpl.
  set (root1 := if negb (String.eqb keyName "") then yaml.KeyNameNode root keyName else root).
  set (root2 := if replaced then _ else _).
  assert (yaml.Value root2 = yaml.VList newList' ∧ yaml.Flags root2 = yaml.Flags root)
    as [Hv2 Hf2].
  { assert (yaml.Flags root1 = yaml.Flags root) as Hf1.
    { unfold root1. destruct (negb _); [|done]. destruct root as [v s a].
      unfold yaml.Flags, yaml.KeyNameNode, yaml.AddKeyName. simpl.
      by destruct (negb _). }
    unfold root2. destruct replaced; [by destruct root1|].
    destruct redirectPath; by destruct root1. }
  destruct (negb (Z.eqb (Z.lor flags' (yaml.Flags root2)) (yaml.Flags root2))) eqn:Hflags.
  - eexists. split; [done|]. split; [by destruct root2|].
    destruct root2 as [v s a]. unfold yaml.Flags. simpl.
    by rewrite (Z.lor_comm (yaml.flags a)), Z.lor_assoc, Z.lor_diag.
  - apply negb_false_iff, Z.eqb_eq in Hflags.
    destruct (_ && _); eexists; (split; [done|]); (split; [by destruct root2|]);
      by destruct root2.
Qed.

(** The stub injection of [flowList] only puts elements of the stub list, all
    flagged INJECT, in front of the list. *)
Lemma flowList_inject_prepends ismerged stub root flags newList :
  ∃ injected,
    (flow.flowList_inject ismerged stub root flags newList).2 = (injected ++ newList)%list
    ∧ ∀ v, v ∈ injected →
           yaml.Inject (yaml.Flags v) = true
           ∧ ∃ s m, stub = Some s ∧ yaml.Value s = yaml.VList m ∧ v ∈ m.
Proof.
  unfold flow.flowList_inject.
  destruct ismerged; [by exists []; split; [|inversion 1]|].
  destruct stub as [s|]; [|by exists []; split; [|inversion 1]].
  destruct (negb _); [|by exists []; split; [|inversion 1]].
  destruct (yaml.Value s) as [| | | | |m| | |] eqn:Hs;
    try by exists []; split; [|inversion 1].
  exists (List.filter (λ v, yaml.Inject (yaml.Flags v)) m). split; [done|].
  intros v [Hv Hinj]%list_elem_of_In%filter_In. split; [done|].
  exists s, m. split; [done|]. split; [done|]. by apply list_elem_of_In.
Qed.

Lemma copy_entries_lookup (src dst : gmap string yaml.Node) (k : string) :
  flow.copy_entries src dst !! k
  = match src !! k with Some v => Some v | None => dst !! k end.
Proof.
  unfold flow.copy_entries.
  induction src as [|k0 v src Hk0 Hfirst IH] using map_first_key_ind.
  - by rewrite map_fold_empty, lookup_empty.
  - rewrite map_fold_insert_first_key by done.
    destruct (decide (k0 = k)) as [->|Hne].
    + by rewrite !lookup_insert_eq.
    + by rewrite !lookup_insert_ne.
Qed.

Lemma Value_AddFlags node f : yaml.Value (yaml.AddFlags node f) = yaml.Value node.
Proof. by destruct node. Qed.

Lemma Value_SetTag node tag : yaml.Value (yaml.SetTag node tag) = yaml.Value node.
Proof. by destruct node. Qed.

Lemma Value_updateNode node flags tag :
  yaml.Value (flow.updateNode node flags tag) = yaml.Value node.
Proof.
  unfold flow.updateNode. destruct (negb (Z.eqb _ _)), (_ && _); by destruct node.
Qed.

(** Where an entry of the map after the stub injection of [flowMap] comes
    from: it was there before, or it is an entry of the stub map that is
    flagged INJECT. *)
Lemma flowMap_inject_origin stub merged flags newMap k v :
  (flow.flowMap_inject stub merged flags newMap).2 !! k = Some v →
  newMap !! k = Some v
  ∨ ∃ s m e, stub = Some s ∧ yaml.Value s = yaml.VMap m ∧ m !! k = Some e
             ∧ yaml.Inject (yaml.Flags e) = true
             ∧ v = yaml.AddFlags (flow.substituteNode e).1
                     (Z.lor yaml.FLAG_INJECT yaml.FLAG_INJECTED).
Proof.
  unfold flow.flowMap_inject. destruct merged; [by left|].
  destruct stub as [s|]; [|by left]. destruct (negb _); [|by left].
  destruct (yaml.Value s) as [| | | | | |m| |] eqn:Hs; try by left.
  simpl. intros Hk.
  assert (newMap !! k = Some v
          ∨ ∃ e, m !! k = Some e ∧ yaml.Inject (yaml.Flags e) = true
                 ∧ v = yaml.AddFlags (flow.substituteNode e).1
                         (Z.lor yaml.FLAG_INJECT yaml.FLAG_INJECTED)) as [|(e & ? & ? & ?)];
    [|by left|right; by exists s, m, e].
  clear Hs. revert Hk.
  induction m as [|k0 e m Hk0 Hfirst IH] using map_first_key_ind.
  - rewrite map_fold_empty. by left.
  - rewrite map_fold_insert_first_key by done.
    set (rest := map_fold _ newMap m) in *.
    destruct (yaml.Inject (yaml.Flags e) && flow.is_none (rest !! k0)) eqn:Hc.
    + apply andb_true_iff in Hc as [Hi _].
      destruct (decide (k0 = k)) as [->|Hne].
      * rewrite lookup_insert_eq. intros ?; simplify_eq. right. exists e.
        by rewrite lookup_insert_eq.
      * rewrite lookup_insert_ne by done. intros Hk.
        destruct (IH Hk) as [|(e' & ? & ? & ?)]; [by left|]. right. exists e'.
        by rewrite lookup_insert_ne.
    + intros Hk. destruct (IH Hk) as [|(e' & He' & ? & ?)]; [by left|]. right. exists e'.
      rewrite lookup_insert_ne; [done|]. intros ->. congruence.
Qed.

(** What [flowMap] does once the merge key is handled: the map it builds, the
    entries it puts aside, and what it returns. *)
Lemma flowMap_rest_built _flow root rootEnv rootMap stub shouldOverride mergekey l st
    result st' :
  flow.flowMap_rest _flow root rootEnv rootMap stub shouldOverride mergekey l st
  = Ok (result, st') →
  ∃ out undefined built,
    (yaml.Value built = yaml.VMap out ∨ flow.is_template (yaml.Value built) = true)
    ∧ (yaml.Value result = yaml.Value built
       ∨ ∃ st1 node',
           flow.flowControl built undefined (flow.l_env l) st1 = Ok (node', st')
           ∧ yaml.Value result = yaml.Value node')
    ∧ (∀ k v, undefined !! k = Some v → yaml.Undefined v = true)
    ∧ (∀ k v, out !! k = Some v → yaml.Undefined v = true →
         flow.l_newMap l !! k = Some v
         ∨ ∃ s m e, stub = Some s ∧ yaml.Value s = yaml.VMap m ∧ m !! k = Some e
                    ∧ yaml.Inject (yaml.Flags e) = true
                    ∧ v = yaml.AddFlags (flow.substituteNode e).1
                            (Z.lor yaml.FLAG_INJECT yaml.FLAG_INJECTED)).
Proof.
  unfold flow.flowMap_rest.
  set (l0 := if flow.l_template l then _ else l).
  assert (flow.l_newMap l0 = flow.l_newMap l ∧ flow.l_env l0 = flow.l_env l) as [Hn0 He0]
    by (unfold l0; by destruct (flow.l_template l)).
  unfold mbind, M_bind, bind, mret, M_ret, ret.
  set (loop := if flow.l_addEntries l0 then _ else _).
  destruct (loop st) as [[[newMap undefined] st1]| |] eqn:Hloop; try done.
  assert ((∀ k v, newMap !! k = Some v → yaml.Undefined v = true →
                  flow.l_newMap l !! k = Some v)
          ∧ (∀ k v, undefined !! k = Some v → yaml.Undefined v = true)) as [Hnew Hundef].
  { unfold loop in Hloop. destruct (flow.l_addEntries l0).
    - apply flowMap_entries_undefined in Hloop as [Hl1 Hl2]. simpl in *.
      rewrite Hn0 in Hl1. split; [done|]. intros k v Hk.
      destruct (Hl2 k v Hk) as [Hk'|]; [|done]. by rewrite lookup_empty in Hk'.
    - unfold ret in Hloop. simplify_eq. rewrite Hn0. split; [done|].
      intros k v. by rewrite lookup_empty. }
  destruct (flow.flowMap_inject stub (flow.l_merged l0) (flow.l_flags l0) newMap)
    as [flags out] eqn:Hinj.
  set (value := if flow.l_template l0 then _ else _).
  set (built := if flow.l_replace l0 then _ else _).
  assert (yaml.Value built = value) as Hbuilt.
  { unfold built. by destruct (flow.l_replace l0). }
  assert (yaml.Value built = yaml.VMap out ∨ flow.is_template (yaml.Value built) = true)
    as Hvalue.
  { rewrite Hbuilt. unfold value. destruct (flow.l_template l0); [by right | by left]. }
  assert (∀ k v, out !! k = Some v → yaml.Undefined v = true →
            flow.l_newMap l !! k = Some v
            ∨ ∃ s m e, stub = Some s ∧ yaml.Value s = yaml.VMap m ∧ m !! k = Some e
                       ∧ yaml.Inject (yaml.Flags e) = true
                       ∧ v = yaml.AddFlags (flow.substituteNode e).1
                               (Z.lor yaml.FLAG_INJECT yaml.FLAG_INJECTED)) as Hout.
  { intros k v Hk Hu.
    pose proof (flowMap_inject_origin stub (flow.l_merged l0) (flow.l_flags l0) newMap k v)
      as Horigin.
    rewrite Hinj in Horigin. destruct (Horigin Hk) as [Hk'|]; [|by right].
    left. by apply Hnew. }
  rewrite He0.
  destruct (flow.l_err l0) as [err|].
  { intros ?; simplify_eq. exists out, undefined, built. split; [done|].
    split; [|done]. left. rewrite Value_updateNode. by destruct built. }
  destruct (yaml.Failed root).
  { intros ?; simplify_eq. exists out, undefined, built. split; [done|].
    split; [|done]. left. rewrite Value_updateNode. by destruct built. }
  destruct (flow.flowControl built undefined (flow.l_env l) st1) as [[node' st2]| |] eqn:Hc;
    try done.
  intros ?; simplify_eq. exists out, undefined, built. split; [done|].
  split; [|done]. right. exists st1, node'. split; [done|]. by rewrite Value_updateNode.
Qed.


(** The handling of the merge key of [flowMap]: the merge value is flowed
    first; what [newMap] holds afterwards it held before, or it is an entry
    of the map that the merge value flowed to. *)
Lemma flowMap_merge_origin (_flow : flow.FlowFn) root l val st r st1 :
  flow.flowMap_merge _flow root l val st = Ok (r, st1) →
  ∃ base, _flow val (flow.l_env l) false false st = Ok (base, st1)
    ∧ match r with
      | inl node => node = yaml.UndefinedNode root
      | inr l' =>
          ∀ k v, flow.l_newMap l' !! k = Some v →
                 flow.l_newMap l !! k = Some v
                 ∨ ∃ baseMap, yaml.Value base = yaml.VMap baseMap ∧ baseMap !! k = Some v
      end.
Proof.
  unfold flow.flowMap_merge, mbind, M_bind, bind, mret, M_ret, ret.
  destruct (_flow val (flow.l_env l) false false st) as [[base st0]| |]; try done.
  destruct (yaml.Undefined base).
  { intros ?; simplify_eq. by exists base. }
  destruct (yaml.Value base) as [| | | | | |baseMap| |] eqn:Hv;
    repeat case_match; intros ?; simplify_eq; exists base; (split; [done|]);
    simpl; intros k v Hk; try by left.
  all: rewrite copy_entries_lookup in Hk.
  all: destruct (baseMap !! k) as [v'|] eqn:Hb; [|by left].
  all: simplify_eq; right; by exists baseMap.
Qed.

(** What [flowMap] returns. *)
Lemma flowMap_built (_flow : flow.FlowFn) root rootMap env shouldOverride template st
    result st' :
  yaml.Value root = yaml.VMap rootMap →
  flow.flowMap _flow root env shouldOverride template st = Ok (result, st') →
  result = yaml.UndefinedNode root
  ∨ result = yaml.IssueNode root true true (yaml.NewIssue "multiple merge keys not allowed")
  ∨ ∃ out undefined built,
      (yaml.Value built = yaml.VMap out ∨ flow.is_template (yaml.Value built) = true)
      ∧ (yaml.Value result = yaml.Value built
         ∨ ∃ env' st1 node',
             flow.flowControl built undefined env' st1 = Ok (node', st')
             ∧ yaml.Value result = yaml.Value node')
      ∧ (∀ k v, undefined !! k = Some v → yaml.Undefined v = true)
      ∧ (∀ k v, out !! k = Some v → yaml.Undefined v = true →
           (∃ mergeval base st1 baseMap,
               (rootMap !! "<<" = Some mergeval ∨ rootMap !! yaml.MERGEKEY = Some mergeval)
               ∧ _flow mergeval (dynaml.WithScope env rootMap) false false st
                 = Ok (base, st1)
               ∧ yaml.Value base = yaml.VMap baseMap ∧ baseMap !! k = Some v)
           ∨ (∃ s m e,
                 (flow.get_inherited_flags env).2 = Some s ∧ yaml.Value s = yaml.VMap m
                 ∧ m !! k = Some e ∧ yaml.Inject (yaml.Flags e) = true
                 ∧ v = yaml.AddFlags (flow.substituteNode e).1
                         (Z.lor yaml.FLAG_INJECT yaml.FLAG_INJECTED))).
Proof.
  intros Hv. unfold flow.flowMap.
  destruct (flow.get_inherited_flags env) as [flags stub]. rewrite Hv.
  set (l := flow.mkMapLocals _ _ _ _ _ _ _ _ _ _ _ _).
  assert (∀ mergekey l' st1 (Horigin : ∀ k v, flow.l_newMap l' !! k = Some v →
              ∃ mergeval base st1 baseMap,
                (rootMap !! "<<" = Some mergeval ∨ rootMap !! yaml.MERGEKEY = Some mergeval)
                ∧ _flow mergeval (dynaml.WithScope env rootMap) false false st
                  = Ok (base, st1)
                ∧ yaml.Value base = yaml.VMap baseMap ∧ baseMap !! k = Some v),
            flow.flowMap_rest _flow root env rootMap stub shouldOverride mergekey l' st1
            = Ok (result, st') →
            ∃ out undefined built,
              (yaml.Value built = yaml.VMap out ∨ flow.is_template (yaml.Value built) = true)
              ∧ (yaml.Value result = yaml.Value built
                 ∨ ∃ env' st1 node',
                     flow.flowControl built undefined env' st1 = Ok (node', st')
                     ∧ yaml.Value result = yaml.Value node')
              ∧ (∀ k v, undefined !! k = Some v → yaml.Undefined v = true)
              ∧ (∀ k v, out !! k = Some v → yaml.Undefined v = true →
                   (∃ mergeval base st1 baseMap,
                       (rootMap !! "<<" = Some mergeval
                        ∨ rootMap !! yaml.MERGEKEY = Some mergeval)
                       ∧ _flow mergeval (dynaml.WithScope env rootMap) false false st
                         = Ok (base, st1)
                       ∧ yaml.Value base = yaml.VMap baseMap ∧ baseMap !! k = Some v)
                   ∨ (∃ s m e,
                         stub = Some s ∧ yaml.Value s = yaml.VMap m
                         ∧ m !! k = Some e ∧ yaml.Inject (yaml.Flags e) = true
                         ∧ v = yaml.AddFlags (flow.substituteNode e).1
                                 (Z.lor yaml.FLAG_INJECT yaml.FLAG_INJECTED)))) as Hrest.
  { intros mergekey l' st1 Horigin Hrest.
    apply flowMap_rest_built in Hrest as (out & undefined & built & Hb & Hr & Hu & Ho).
    exists out, undefined, built. split; [done|]. split.
    { destruct Hr as [|(st2 & node' & ? & ?)]; [by left|]. right. by eexists _, _, _. }
    split; [done|]. intros k v Hk Hundef.
    destruct (Ho k v Hk Hundef) as [Hk'|]; [|by right]. left. by apply Horigin. }
  assert (∀ mergeval r st1,
            rootMap !! "<<" = Some mergeval ∨ rootMap !! yaml.MERGEKEY = Some mergeval →
            flow.flowMap_merge _flow root l mergeval st = Ok (r, st1) →
            match r with
            | inl node => node = yaml.UndefinedNode root
            | inr l' =>
                ∀ k v, flow.l_newMap l' !! k = Some v →
                  ∃ mergeval base st1 baseMap,
                    (rootMap !! "<<" = Some mergeval
                     ∨ rootMap !! yaml.MERGEKEY = Some mergeval)
                    ∧ _flow mergeval (dynaml.WithScope env rootMap) false false st
                      = Ok (base, st1)
                    ∧ yaml.Value base = yaml.VMap baseMap ∧ baseMap !! k = Some v
            end) as Hmerge.
  { intros mergeval r st1 Hkey Hm.
    apply flowMap_merge_origin in Hm as (base & Hflow & Hr).
    destruct r as [node|l']; [done|]. intros k v Hk.
    destruct (Hr k v Hk) as [Hk'|(baseMap & Hbase & Hb)].
    - unfold l in Hk'. simpl in Hk'. by rewrite lookup_empty in Hk'.
    - by exists mergeval, base, st1, baseMap. }
  unfold mbind, M_bind, bind, mret, M_ret, ret.
  destruct (rootMap !! "<<") as [mergeval|] eqn:Hk1.
  - destruct (negb (flow.is_none (rootMap !! yaml.MERGEKEY))).
    { intros ?; simplify_eq. right. by left. }
    destruct (flow.flowMap_merge _flow root l mergeval st) as [[r st1]| |] eqn:Hm; try done.
    apply Hmerge in Hm; [|by left]. destruct r as [node|l'].
    + intros ?; simplify_eq. by left.
    + intros Hr. right. right. by eapply Hrest.
  - destruct (rootMap !! yaml.MERGEKEY) as [mergeval|] eqn:Hk2.
    + destruct (flow.flowMap_merge _flow root l mergeval st) as [[r st1]| |] eqn:Hm;
        try done.
      apply Hmerge in Hm; [|by right]. destruct r as [node|l'].
      * intros ?; simplify_eq. by left.
      * intros Hr. right. right. by eapply Hrest.
    + intros Hr. right. right. eapply Hrest; [|done].
      intros k v. unfold l. simpl. by rewrite lookup_empty.
Qed.

(** What [flowList] returns: when [processMerges] asks for it, the elements
    are flowed and the stub elements put in front; otherwise the value is
    the one that [processMerges] built. *)
Lemma flowList_built (_flow : flow.FlowFn) root rootList env template st result st' :
  yaml.Value root = yaml.VList rootList →
  flow.flowList _flow root env template st = Ok (result, st') →
  ∃ merged process replaced redirectPath keyName ismerged flags tag stub st1,
    flow.processMerges _flow root rootList env template st
    = Ok ((merged, process, replaced, redirectPath, keyName, ismerged, flags, tag, stub),
          st1)
    ∧ (process = false → yaml.Value result = merged ∧ st' = st1)
    ∧ (process = true →
       ∃ l n newList,
         merged = yaml.VList l
         ∧ foldM (flow.flowList_element _flow keyName
                    match redirectPath with
                    | Some r => dynaml.RedirectOverwrite env r
                    | None => env
                    end) l (0%nat, []) st1 = Ok ((n, newList), st')
         ∧ yaml.Value result
           = yaml.VList (flow.flowList_inject ismerged stub root flags newList).2).
Proof.
  intros Hv Hflow.
  destruct (flow.processMerges _flow root rootList env template st)
    as [[[[[[[[[[merged process] replaced] redirectPath] keyName] ismerged] flags] tag]
           stub] st1]| |] eqn:Hmerges.
  2,3: unfold flow.flowList in Hflow; rewrite Hv in Hflow;
       unfold mbind, M_bind, bind in Hflow; by rewrite Hmerges in Hflow.
  exists merged, process, replaced, redirectPath, keyName, ismerged, flags, tag, stub, st1.
  split; [done|]. destruct process.
  - split; [done|]. intros _.
    destruct merged as [| | | | |l| | |] eqn:Hmerged.
    all: try (unfold flow.flowList in Hflow; rewrite Hv in Hflow;
              unfold mbind, M_bind, bind in Hflow; rewrite Hmerges in Hflow;
              simpl in Hflow; done).
    destruct (foldM (flow.flowList_element _flow keyName
                       match redirectPath with
                       | Some r => dynaml.RedirectOverwrite env r
                       | None => env
                       end) l (0%nat, []) st1) as [[[n newList] st2]| |] eqn:Hloop.
    2,3: unfold flow.flowList in Hflow; rewrite Hv in Hflow;
         unfold mbind, M_bind, bind in Hflow; rewrite Hmerges in Hflow;
         simpl in Hflow; by rewrite Hloop in Hflow.
    destruct (flowList_processed _ _ _ _ _ _ _ _ _ _ _ _ _ _ _ _ _ _ Hv Hmerges Hloop)
      as (node & Hnode & Hvalue & _).
    rewrite Hnode in Hflow. simplify_eq. by exists l, n, newList.
  - split; [|done]. intros _.
    unfold flow.flowList in Hflow. rewrite Hv in Hflow.
    unfold mbind, M_bind, bind, mret, M_ret, ret in Hflow. rewrite Hmerges in Hflow.
    simpl in Hflow.
    assert (∀ r, yaml.Value
                   (if replaced then yaml.ReplaceNode merged r redirectPath
                    else match redirectPath with
                         | Some _ => yaml.RedirectNode merged r redirectPath
                         | None => yaml.SubstituteNode merged r
                         end) = merged) as Hv2.
    { intros r. destruct replaced; [by destruct r|]. destruct redirectPath; by destruct r. }
    destruct (negb (Z.eqb _ _)).
    { simplify_eq. by rewrite Value_AddFlags, Hv2. }
    destruct (_ && _); simplify_eq; by rewrite ?Value_SetTag, Hv2.
Qed.

(** The second loop of [processMerges] on a control: a list that the control
    flows to is spliced in, to be processed; any other result is kept as it
    is, undefined or not, and the list is not to be processed. *)
Lemma processMerges_control_result (_flow : flow.FlowFn) env acc val val' st st' :
  dynaml.IsControl val env = (true, None) →
  _flow val env false false st = Ok (val', st') →
  flow.processMerges_control _flow env acc val st
  = Ok (match yaml.Value val' with
        | yaml.VList a => ((acc.1 ++ a)%list, acc.2)
        | _ => ((acc.1 ++ [val'])%list, false)
        end, st').
Proof.
  intros Hc Hflow. unfold flow.processMerges_control. rewrite Hc.
  unfold mbind, M_bind, bind, mret, M_ret, ret. rewrite Hflow.
  by destruct (yaml.Value val').
Qed.

(** C2, as the code has it.  In [flowMap], a child whose flow result is
    undefined is put aside (into [undefined]) and not stored under its key,
    and the loop over the keys stores no undefined node at all.  So of the
    map that [flowMap] builds: unless [flowMap] returns the node it was given
    (marked undefined, for an undefined merge value, or with the issue of the
    two merge keys), an undefined node in that map is not a flow result of
    the loop but an entry of the map that the merge value flowed to, or an
    entry of the stub that was injected.  The value returned is that of the
    node built, or of the node that [flowControl] made of it: where
    [flowControl] keeps the value of the node it is given, as the control
    dispatch does for a map that is no control, the map built is the map
    returned.  In [flowList],
    an element whose flow result is undefined is not appended, and the list
    that the loop over the elements builds holds no undefined node; when
    [processMerges] asks for the elements to be processed, [flowList] returns
    that list, with nothing but elements of the stub list in front of it.
    When [processMerges] asks not to process them, [flowList] returns the list
    of [processMerges] as it is, and in that list the result of a control
    that is no list is kept, undefined or not. *)
Theorem undefined_flow_results_are_dropped (_flow : flow.FlowFn) :
  (∀ rootMap l shouldOverride mergekey acc key val val' st st',
      key ≠ mergekey → flow.l_processed l = true → rootMap !! key = Some val →
      flow.flow _flow val (dynaml.WithPath (flow.l_env l) key) shouldOverride
        (dynaml.RequireTemplate key (flow.l_env l)) st = Ok (val', st') →
      yaml.Undefined val' = true →
      flow.flowMap_entry _flow rootMap l shouldOverride mergekey acc key st
      = Ok ((acc.1, <[key := val']> acc.2), st'))
  ∧ (∀ rootMap l shouldOverride mergekey keys newMap0 st newMap undefined st',
      foldM (flow.flowMap_entry _flow rootMap l shouldOverride mergekey) keys
        (newMap0, ∅) st = Ok ((newMap, undefined), st') →
      (∀ k v, newMap !! k = Some v → yaml.Undefined v = true → newMap0 !! k = Some v)
      ∧ (∀ k v, undefined !! k = Some v → yaml.Undefined v = true))
  ∧ (∀ root rootMap env shouldOverride template st result st',
      yaml.Value root = yaml.VMap rootMap →
      flow.flowMap _flow root env shouldOverride template st = Ok (result, st') →
      result = yaml.UndefinedNode root
      ∨ result = yaml.IssueNode root true true
                   (yaml.NewIssue "multiple merge keys not allowed")
      ∨ ∃ out undefined built,
          (yaml.Value built = yaml.VMap out ∨ flow.is_template (yaml.Value built) = true)
          ∧ (yaml.Value result = yaml.Value built
             ∨ ∃ env' st1 node',
                 flow.flowControl built undefined env' st1 = Ok (node', st')
                 ∧ yaml.Value result = yaml.Value node')
          ∧ (∀ k v, undefined !! k = Some v → yaml.Undefined v = true)
          ∧ (∀ k v, out !! k = Some v → yaml.Undefined v = true →
               (∃ mergeval base st1 baseMap,
                   (rootMap !! "<<" = Some mergeval
                    ∨ rootMap !! yaml.MERGEKEY = Some mergeval)
                   ∧ _flow mergeval (dynaml.WithScope env rootMap) false false st
                     = Ok (base, st1)
                   ∧ yaml.Value base = yaml.VMap baseMap ∧ baseMap !! k = Some v)
               ∨ (∃ s m e,
                     (flow.get_inherited_flags env).2 = Some s
                     ∧ yaml.Value s = yaml.VMap m
                     ∧ m !! k = Some e ∧ yaml.Inject (yaml.Flags e) = true
                     ∧ v = yaml.AddFlags (flow.substituteNode e).1
                             (Z.lor yaml.FLAG_INJECT yaml.FLAG_INJECTED))))
  ∧ (∀ root rootMap env shouldOverride template st result st' out,
      (∀ built undefined env' st1 node' st2,
          flow.flowControl built undefined env' st1 = Ok (node', st2) →
          yaml.Value node' = yaml.Value built) →
      yaml.Value root = yaml.VMap rootMap →
      flow.flowMap _flow root env shouldOverride template st = Ok (result, st') →
      result ≠ yaml.UndefinedNode root →
      result ≠ yaml.IssueNode root true true
                 (yaml.NewIssue "multiple merge keys not allowed") →
      yaml.Value result = yaml.VMap out →
      ∀ k v, out !! k = Some v → yaml.Undefined v = true →
        (∃ mergeval base st1 baseMap,
            (rootMap !! "<<" = Some mergeval ∨ rootMap !! yaml.MERGEKEY = Some mergeval)
            ∧ _flow mergeval (dynaml.WithScope env rootMap) false false st = Ok (base, st1)
            ∧ yaml.Value base = yaml.VMap baseMap ∧ baseMap !! k = Some v)
        ∨ (∃ s m e,
              (flow.get_inherited_flags env).2 = Some s ∧ yaml.Value s = yaml.VMap m
              ∧ m !! k = Some e ∧ yaml.Inject (yaml.Flags e) = true
              ∧ v = yaml.AddFlags (flow.substituteNode e).1
                      (Z.lor yaml.FLAG_INJECT yaml.FLAG_INJECTED)))
  ∧ (∀ keyName env acc val step val' st st1 st2,
      flow.stepName _flow acc.1 val keyName env st = Ok ((step, true), st1) →
      flow.flow _flow val (dynaml.WithPath env step) false false st1 = Ok (val', st2) →
      yaml.Undefined val' = true →
      flow.flowList_element _flow keyName env acc val st = Ok ((S acc.1, acc.2), st2))
  ∧ (∀ keyName env l st n newList st',
      foldM (flow.flowList_element _flow keyName env) l (0%nat, []) st
      = Ok ((n, newList), st') →
      Forall (λ v, yaml.Undefined v = false) newList)
  ∧ (∀ root rootList env template st result st',
      yaml.Value root = yaml.VList rootList →
      flow.flowList _flow root env template st = Ok (result, st') →
      ∃ merged process replaced redirectPath keyName ismerged flags tag stub st1,
        flow.processMerges _flow root rootList env template st
        = Ok ((merged, process, replaced, redirectPath, keyName, ismerged, flags, tag,
               stub), st1)
        ∧ (process = true →
           ∃ injected newList,
             yaml.Value result = yaml.VList (injected ++ newList)
             ∧ Forall (λ v, yaml.Undefined v = false) newList
             ∧ (∀ v, v ∈ injected →
                     ∃ s m, stub = Some s ∧ yaml.Value s = yaml.VList m ∧ v ∈ m))
        ∧ (process = false → yaml.Value result = merged ∧ st' = st1))
  ∧ (∀ env acc val val' st st',
      dynaml.IsControl val env = (true, None) →
      _flow val env false false st = Ok (val', st') →
      flow.processMerges_control _flow env acc val st
      = Ok (match yaml.Value val' with
            | yaml.VList a => ((acc.1 ++ a)%list, acc.2)
            | _ => ((acc.1 ++ [val'])%list, false)
            end, st')).
Proof.
  split.
  { intros rootMap l so mergekey acc key val val' st st' Hkey Hproc Hval Hflow Hu.
    unfold flow.flowMap_entry. rewrite Hval, Hproc.
    apply String.eqb_neq in Hkey. rewrite Hkey.
    unfold mbind, M_bind, bind, mret, M_ret, ret. rewrite Hflow. by rewrite Hu. }
  split.
  { intros rootMap l so mergekey keys newMap0 st newMap undefined st' Hloop.
    apply flowMap_entries_undefined in Hloop as [Hnew Hundef]. split; [done|].
    intros k v Hk. destruct (Hundef k v Hk) as [Hk'|]; [|done].
    simpl in Hk'. by rewrite lookup_empty in Hk'. }
  split; [intros; by eapply flowMap_built|].
  split.
  { intros root rootMap env so template st result st' out Hcontrol Hv Hflow Hn1 Hn2 Hout.
    destruct (flowMap_built _ _ _ _ _ _ _ _ _ Hv Hflow)
      as [?|[?|(out' & undefined & built & Hbuilt & Hresult & _ & Horigin)]]; [done..|].
    assert (yaml.Value result = yaml.Value built) as Hsame.
    { destruct Hresult as [|(env' & st1 & node' & Hc & ->)]; [done|]. by eapply Hcontrol. }
    rewrite Hsame in Hout. destruct Hbuilt as [Hb|Hb]; rewrite Hout in Hb; [|done].
    by injection Hb as <-. }
  split.
  { intros keyName env acc val step val' st st1 st2 Hstep Hflow Hu.
    unfold flow.flowList_element, mbind, M_bind, bind, mret, M_ret, ret.
    rewrite Hstep, Hflow. by rewrite Hu. }
  assert (∀ keyName env l st n newList st',
            foldM (flow.flowList_element _flow keyName env) l (0%nat, []) st
            = Ok ((n, newList), st') →
            Forall (λ v, yaml.Undefined v = false) newList) as Hlist.
  { intros keyName env l st n newList st' Hloop.
    apply flowList_elements_undefined in Hloop as (_ & added & Hadd & Hu).
    simpl in Hadd. by subst. }
  split; [exact Hlist|]. split; [|intros; by apply processMerges_control_result].
  intros root rootList env template st result st' Hv Hflow.
  destruct (flowList_built _ _ _ _ _ _ _ _ Hv Hflow)
    as (merged & process & replaced & redirectPath & keyName & ismerged & flags & tag
        & stub & st1 & Hmerges & Hskip & Hproc).
  exists merged, process, replaced, redirectPath, keyName, ismerged, flags, tag, stub, st1.
  split; [done|]. split; [|done]. intros Hp.
  destruct (Hproc Hp) as (l & n & newList & _ & Hloop & Hvalue).
  destruct (flowList_inject_prepends ismerged stub root flags newList)
    as (injected & Hinjected & Hstub).
  exists injected, newList. split; [by rewrite Hvalue, Hinjected|].
  split; [by eapply Hlist|]. intros v Hin. by destruct (Hstub v Hin).
Qed.

Lemma Injected_lor (f : yaml.NodeFlags) :
  yaml.FLAG_INJECTED ≠ 0 → yaml.Injected (Z.lor f yaml.FLAG_INJECTED) = true.
Proof.
  intros Hbit. unfold yaml.Injected, yaml.has_flag.
  rewrite Z.land_comm, Z.land_lor_distr_r, Z.land_diag.
  apply negb_true_iff, Z.eqb_neq. intros Hz.
  apply Z.lor_eq_0_iff in Hz as [_ Hz]. done.
Qed.

(** C5, as the code has it.  When no merge happened for the list, a stub
    exists and the list is not flagged as injected already, [flowList] puts
    every element of the stub list that is flagged INJECT in front of the
    result, in the order of the stub and whether or not the result holds the
    element already, and flags the list as injected.  That flag is what keeps
    a later pass from injecting again: for a list so flagged, as for a merged
    one, nothing is added.  The last part says so of [flowList] as a whole:
    the node it returns holds the stub elements and then the processed
    elements, and is flagged as injected. *)
Theorem stub_injection_prepends_every_INJECT_element root flags newList :
  (∀ stub, flow.flowList_inject true stub root flags newList
           = (Z.lor flags yaml.FLAG_INJECTED, newList))
  ∧ flow.flowList_inject false None root flags newList = (flags, newList)
  ∧ (∀ stub, yaml.Injected (yaml.Flags root) = true →
             flow.flowList_inject false stub root flags newList = (flags, newList))
  ∧ (∀ stub m,
        yaml.Injected (yaml.Flags root) = false → yaml.Value stub = yaml.VList m →
        flow.flowList_inject false (Some stub) root flags newList
        = (Z.lor flags yaml.FLAG_INJECTED,
           (List.filter (λ v, yaml.Inject (yaml.Flags v)) m ++ newList)%list))
  ∧ (∀ stub,
        yaml.Injected (yaml.Flags root) = false →
        (∀ m, yaml.Value stub ≠ yaml.VList m) →
        flow.flowList_inject false (Some stub) root flags newList
        = (Z.lor flags yaml.FLAG_INJECTED, newList))
  ∧ (yaml.FLAG_INJECTED ≠ 0 →
     yaml.Injected (Z.lor flags yaml.FLAG_INJECTED) = true)
  ∧ (∀ (_flow : flow.FlowFn) rootList env template st l replaced redirectPath keyName tag
       stub m st1 n st2,
        yaml.Value root = yaml.VList rootList →
        flow.processMerges _flow root rootList env template st
        = Ok ((yaml.VList l, true, replaced, redirectPath, keyName, false, flags, tag,
               Some stub), st1) →
        foldM (flow.flowList_element _flow keyName
                 match redirectPath with
                 | Some r => dynaml.RedirectOverwrite env r
                 | None => env
                 end) l (0%nat, []) st1 = Ok ((n, newList), st2) →
        yaml.Injected (yaml.Flags root) = false → yaml.Value stub = yaml.VList m →
        ∃ node,
          flow.flowList _flow root env template st = Ok (node, st2)
          ∧ yaml.Value node
            = yaml.VList (List.filter (λ v, yaml.Inject (yaml.Flags v)) m ++ newList)
          ∧ (yaml.FLAG_INJECTED ≠ 0 → yaml.Injected (yaml.Flags node) = true)).
Proof.
  split; [done|]. split; [done|]. split.
  { intros [stub|] Hinj; [|done]. unfold flow.flowList_inject. by rewrite Hinj. }
  split.
  { intros stub m Hinj Hm. unfold flow.flowList_inject. by rewrite Hinj, Hm. }
  split.
  { intros stub Hinj Hm. unfold flow.flowList_inject. rewrite Hinj. simpl.
    destruct (yaml.Value stub); try done. by destruct (Hm l). }
  split; [apply Injected_lor|].
  intros _flow rootList env template st l replaced redirectPath keyName tag stub m st1 n
    st2 Hv Hmerges Hloop Hinj Hm.
  destruct (flowList_processed _ _ _ _ _ _ _ _ _ _ _ _ _ _ _ _ _ _ Hv Hmerges Hloop)
    as (node & Hnode & Hvalue & Hflags).
  unfold flow.flowList_inject in Hvalue, Hflags. rewrite Hinj, Hm in Hvalue, Hflags.
  simpl in Hvalue, Hflags.
  exists node. split; [done|]. split; [done|]. intros Hbit.
  unfold yaml.Injected, yaml.has_flag. apply negb_true_iff, Z.eqb_neq.
  by eapply lor_absorbed_bit.
Qed.

End walkers.

(** ** The [for] control *)

(** *** The order of strings *)
Lemma Compare_refl a : strings.Compare a a = Eq.
Proof.
  unfold strings.Compare. destruct (String.compare a a) eqn:Hc; [done| |];
    pose proof (String.compare_antisym a a) as Ha; rewrite Hc in Ha; done.
Qed.

Lemma Compare_Eq a b : strings.Compare a b = Eq ↔ a = b.
Proof. split; [apply String.compare_eq_iff | intros ->; apply Compare_refl]. Qed.

Lemma Compare_antisym a b : strings.Compare b a = CompOpp (strings.Compare a b).
Proof. apply String.compare_antisym. Qed.

Lemma Compare_Lt_trans a b c :
  strings.Compare a b = Lt → strings.Compare b c = Lt → strings.Compare a c = Lt.
Proof.
  change strings.Compare with String_as_OT.compare.
  apply (StrictOrder_Transitive (R:=String_as_OT.lt)).
Qed.

Section sorting.
Context {A : Type} (Less : A → A → bool).

Lemma insert_back_Permutation x rprefix : sort.insert_back Less x rprefix ≡ₚ x :: rprefix.
Proof.
  induction rprefix as [|y r IH]; simpl; [done|].
  destruct (Less x y); [|done]. rewrite IH. apply Permutation_swap.
Qed.

Lemma Sort_Permutation data : sort.Sort Less data ≡ₚ data.
Proof.
  unfold sort.Sort. rewrite reverse_Permutation.
  assert (∀ acc, fold_left (λ rprefix x, sort.insert_back Less x rprefix) data acc
                 ≡ₚ data ++ acc) as Hfold.
  { induction data as [|x data IH]; intros acc; simpl; [done|].
    rewrite IH, insert_back_Permutation. by rewrite Permutation_middle. }
  by rewrite Hfold, app_nil_r.
Qed.

Context (Less_total : ∀ x y, Less x y = false ∨ Less y x = false).

(** The prefix is held back to front, so it is kept sorted the other way. *)
Lemma insert_back_Sorted x rprefix :
  Sorted (flip (no_later Less)) rprefix → Sorted (flip (no_later Less)) (sort.insert_back Less x rprefix).
Proof.
  induction 1 as [|y r Hr IH Hhd]; simpl; [by repeat constructor|].
  destruct (Less x y) eqn:Hxy.
  - constructor; [done|]. destruct r as [|z r]; simpl in *.
    + constructor. unfold flip, no_later. by destruct (Less_total x y) as [?|?]; [congruence|].
    + destruct (Less x z).
      * inversion Hhd; by constructor.
      * constructor. unfold flip, no_later.
        by destruct (Less_total x y) as [?|?]; [congruence|].
  - constructor; [by constructor|]. by constructor.
Qed.

Lemma Sort_Sorted data : Sorted (no_later Less) (sort.Sort Less data).
Proof.
  unfold sort.Sort.
  assert (∀ acc, Sorted (flip (no_later Less)) acc →
                 Sorted (flip (no_later Less))
                   (fold_left (λ rprefix x, sort.insert_back Less x rprefix) data acc))
    as Hfold.
  { induction data as [|x data IH]; intros acc Hacc; simpl; [done|].
    by apply IH, insert_back_Sorted. }
  apply (Sorted_reverse (flip (no_later Less))), Hfold. constructor.
Qed.

End sorting.

Section for_order.
Context `{Dsl}.

Lemma Less_compare_key a b :
  control.Less a b = match compare_key a b with Gt => true | _ => false end.
Proof.
  unfold control.Less, compare_key.
  by destruct (strings.Compare (control.name a) (control.name b)).
Qed.

Lemma compare_key_antisym a b : compare_key b a = CompOpp (compare_key a b).
Proof.
  unfold compare_key. rewrite (Compare_antisym (control.name a) (control.name b)).
  destruct (strings.Compare (control.name a) (control.name b)); simpl; [|done..].
  apply Compare_antisym.
Qed.

Lemma compare_key_Eq a b :
  compare_key a b = Eq ↔
  control.name a = control.name b ∧ control.index a = control.index b.
Proof.
  unfold compare_key. split.
  - destruct (strings.Compare (control.name a) (control.name b)) eqn:Hn; [|done..].
    intros Hi. split; by apply Compare_Eq.
  - intros [-> ->]. by rewrite !Compare_refl.
Qed.

Lemma compare_key_Lt_trans a b c :
  compare_key a b = Lt → compare_key b c = Lt → compare_key a c = Lt.
Proof.
  unfold compare_key.
  destruct (strings.Compare (control.name a) (control.name b)) eqn:Hab;
    destruct (strings.Compare (control.name b) (control.name c)) eqn:Hbc; try done.
  - apply Compare_Eq in Hab, Hbc. rewrite Hab, Hbc, Compare_refl. apply Compare_Lt_trans.
  - apply Compare_Eq in Hab. rewrite Hab, Hbc. done.
  - apply Compare_Eq in Hbc. rewrite <- Hbc, Hab. done.
  - by rewrite (Compare_Lt_trans _ _ _ Hab Hbc).
Qed.

Lemma Less_total (a b : control.iteration) :
  control.Less a b = false ∨ control.Less b a = false.
Proof.
  rewrite !Less_compare_key, (compare_key_antisym a b).
  destruct (compare_key a b); simpl; auto.
Qed.

Lemma no_later_compare_key a b :
  no_later control.Less a b ↔ compare_key a b ≠ Lt.
Proof.
  unfold no_later. rewrite Less_compare_key, (compare_key_antisym a b).
  destruct (compare_key a b); simpl; split; done.
Qed.

Lemma no_later_Transitive : Transitive (no_later control.Less).
Proof.
  intros a b c. rewrite !no_later_compare_key. intros Hab Hbc Hac.
  rewrite (compare_key_antisym c b) in Hbc. rewrite (compare_key_antisym b a) in Hab.
  destruct (compare_key b a) eqn:Hba; [| |done].
  - apply compare_key_Eq in Hba as [Hn Hi].
    assert (compare_key c b = compare_key c a) as Hcb.
    { unfold compare_key. by rewrite Hn, Hi. }
    rewrite Hcb, (compare_key_antisym a c), Hac in Hbc. done.
  - destruct (compare_key c b) eqn:Hcb; [| |done].
    + apply compare_key_Eq in Hcb as [Hn Hi].
      assert (compare_key b a = compare_key c a) as Hca.
      { unfold compare_key. by rewrite Hn, Hi. }
      rewrite (compare_key_antisym a c), Hac in Hca. simpl in Hca. congruence.
    + pose proof (compare_key_Lt_trans _ _ _ Hcb Hba) as Hca.
      rewrite (compare_key_antisym a c), Hac in Hca. done.
Qed.

Lemma no_later_antisym a b :
  no_later control.Less a b → no_later control.Less b a →
  control.name a = control.name b ∧ control.index a = control.index b.
Proof.
  rewrite !no_later_compare_key, (compare_key_antisym a b). intros Hab Hba.
  apply compare_key_Eq. destruct (compare_key a b); done.
Qed.

(** What "no later" says about the names. *)
Lemma no_later_names a b :
  no_later control.Less a b →
  strings.Compare (control.name a) (control.name b) ≠ Lt
  ∧ (control.name a = control.name b →
     strings.Compare (control.index a) (control.index b) ≠ Lt).
Proof.
  rewrite no_later_compare_key. unfold compare_key. intros Hk. split.
  - by destruct (strings.Compare (control.name a) (control.name b)).
  - intros Hn. by rewrite Hn, Compare_refl in Hk.
Qed.

(** *** The counting of the loop [outer] *)
Lemma position_lt ranges : Forall in_range ranges → (position ranges < rounds ranges)%nat.
Proof.
  induction 1 as [|r rest [_ Hr] _ IH]; simpl; [lia|]. nia.
Qed.

Lemma in_range_set r c :
  is_Some (control.iterator_ r) → (c < radix r)%nat →
  in_range (control.mkIteration (control.name r) (control.index r) c (control.iterator_ r)).
Proof. by intros; split. Qed.

Lemma same_range_refl r : same_range r r.
Proof. done. Qed.

Lemma advance_position ranges :
  Forall in_range ranges →
  match control.advance ranges with
  | Some (Some ranges') =>
      position ranges' = S (position ranges)
      ∧ Forall in_range ranges' ∧ Forall2 same_range ranges ranges'
  | Some None => S (position ranges) = rounds ranges
  | None => False
  end.
Proof.
  induction 1 as [|r rest [Hit Hr] Hrest IH]; simpl; [done|].
  assert (control.iteration_Len r = Some (radix r)) as ->.
  { unfold radix, control.iteration_Len. by destruct Hit as [it ->]. }
  case_bool_decide as Hnext.
  - split; [done|]. split.
    + constructor; [|done]. by apply in_range_set.
    + constructor; [done|]. clear. induction rest; by repeat constructor.
  - destruct (control.advance rest) as [[rest'|]|]; [| |done].
    + destruct IH as (Hpos & Hin & Hsame). simpl.
      change (radix (control.mkIteration (control.name r) (control.index r) 0
                       (control.iterator_ r))) with (radix r).
      rewrite Hpos. split; [nia|]. split.
      * constructor; [|done]. apply in_range_set; [done | lia].
      * by constructor.
    + nia.
Qed.

End for_order.

Section for_ranges.
Context `{Dsl} `{!yaml.Helpers} `{!dynaml.API} `{!fmt.Fmt}.

#[local] Existing Instance no_later_Transitive.

Lemma collect_inl {A} (f : A → control.iteration + control.issue_args) l :
  ∀ acc its,
    control.collect f l acc = inl its ↔
    ∃ rs, Forall2 (λ a r, f a = inl r) l rs ∧ its = (reverse rs ++ acc)%list.
Proof.
  induction l as [|a l IH]; intros acc its; simpl.
  - split.
    + intros ?; simplify_eq. exists []. by split; [constructor|].
    + intros (rs & Hrs & ->). by inversion Hrs.
  - destruct (f a) as [r|e] eqn:Hfa.
    + rewrite IH. split.
      * intros (rs & Hrs & ->). exists (r :: rs). split; [by constructor|].
        rewrite reverse_cons, <- app_assoc. done.
      * intros (rs & Hrs & ->). inversion Hrs as [|? r' ? rs' Hr' Hrs']; subst.
        rewrite Hfa in Hr'. injection Hr' as <-.
        exists rs'. split; [done|]. by rewrite reverse_cons, <- app_assoc.
    + split; [done|]. intros (rs & Hrs & _). inversion Hrs; congruence.
Qed.

Lemma StronglySorted_weaken {A} (R R' : relation A) l :
  (∀ x y, R x y → R' x y) → StronglySorted R l → StronglySorted R' l.
Proof.
  intros HR. induction 1 as [|x l _ IH Hx]; constructor; [done|].
  eapply Forall_impl; [done|]. auto.
Qed.

Lemma NoDup_fmap_eq {A B} (f : A → B) (l : list A) x y :
  NoDup (map f l) → x ∈ l → y ∈ l → f x = f y → x = y.
Proof.
  induction l as [|a l IH]; simpl; [by inversion 2|].
  intros [Ha Hl]%NoDup_cons [->|Hx]%elem_of_cons [->|Hy]%elem_of_cons Hxy; try done.
  - destruct Ha. rewrite Hxy. by apply (list_elem_of_fmap_2 f).
  - destruct Ha. rewrite <- Hxy. by apply (list_elem_of_fmap_2 f).
  - by apply IH.
Qed.

(** The ranges of the map form: a sort of what the entries give. *)
Lemma for_ranges_map range_order val def ranges :
  yaml.Value val = yaml.VMap def →
  control.for_ranges range_order val = inl ranges ↔
  ∃ its, Forall2 (λ e r, control.map_iteration e.1 e.2 = inl r) (range_order def) its
         ∧ ranges = sort.Sort control.Less (reverse its).
Proof.
  intros Hv. unfold control.for_ranges. rewrite Hv.
  destruct (control.collect _ _ _) as [its0|e] eqn:Hc.
  - apply collect_inl in Hc as (its & Hits & ->). rewrite app_nil_r. split.
    + intros ?; simplify_eq. eauto.
    + intros (its' & Hits' & ->). do 3 f_equal.
      clear -Hits Hits'. revert its' Hits'.
      induction Hits; intros its' Hits'; inversion Hits'; simplify_eq; [done|].
      f_equal; [congruence | auto].
  - split; [done|]. intros (its & Hits & _).
    assert (control.collect (λ e, control.map_iteration e.1 e.2) (range_order def) []
            = inl (reverse its ++ [])%list) as Hc'.
    { apply collect_inl. eauto. }
    congruence.
Qed.

Lemma rounds_same_range ranges ranges' :
  Forall2 same_range ranges ranges' → rounds ranges = rounds ranges'.
Proof.
  induction 1 as [|r r' rest rest' (_ & _ & Hit) _ IH]; simpl; [done|].
  unfold radix, control.iteration_Len. by rewrite Hit, IH.
Qed.

(** A round of the loop ends or panics; it uses no fuel. *)
Lemma for_round_no_fuel node do_ mapkey subst env ranges l st :
  control.for_round node do_ mapkey subst env ranges l st ≠ OutOfFuel.
Proof.
  unfold control.for_round, control.lift_option, control.Evaluate_M.
  unfold mbind, M_bind, bind, mret, M_ret, ret, panic.
  repeat case_match; simplify_eq; done.
Qed.

(** The loop [outer] comes to its end within as many rounds as there are
    tuples left. *)
Lemma for_outer_fuel fuel node do_ mapkey subst env :
  ∀ ranges l st,
    Forall in_range ranges → (rounds ranges ≤ fuel + position ranges)%nat →
    control.for_outer fuel node do_ mapkey subst env ranges l st ≠ OutOfFuel.
Proof.
  induction fuel as [|fuel IH]; intros ranges l st Hin Hfuel.
  - pose proof (position_lt ranges Hin). lia.
  - simpl. unfold mbind, M_bind, bind.
    pose proof (for_round_no_fuel node do_ mapkey subst env ranges l st) as Hround.
    destruct (control.for_round _ _ _ _ _ _ _ _) as [[l' st']| |]; [|done..].
    pose proof (advance_position ranges Hin) as Hadv.
    destruct (control.advance ranges) as [[ranges'|]|]; simpl; [|done..].
    destruct Hadv as (Hpos & Hin' & Hsame).
    apply IH; [done|]. rewrite <- (rounds_same_range _ _ Hsame). lia.
Qed.

(** C3, as the code has it.  In the map form the ranges are what the entries
    give, sorted by [sort.Sort] with the [Less] of [iterations]: in descending
    order of the variable names, and of the index names where two variable
    names are equal.  The counting of the loop advances the first range
    fastest: read as digits with the first range the least significant, the
    counters go up by one at every round until the last tuple.  So the variable
    that comes first in the alphabet is the one that varies slowest, and the
    loop ends within as many rounds as the ranges span tuples.  When no two
    ranges agree on both names, the sorted ranges are the same in whatever
    order the entries of the map were visited. *)
Theorem for_ranges_descending_by_name range_order val def ranges :
  yaml.Value val = yaml.VMap def →
  control.for_ranges range_order val = inl ranges →
  StronglySorted
    (λ a b, strings.Compare (control.name a) (control.name b) ≠ Lt
            ∧ (control.name a = control.name b →
               strings.Compare (control.index a) (control.index b) ≠ Lt))
    ranges
  ∧ (∃ its, Forall2 (λ e r, control.map_iteration e.1 e.2 = inl r) (range_order def) its
            ∧ ranges ≡ₚ its)
  ∧ (Forall in_range ranges →
     match control.advance ranges with
     | Some (Some ranges') =>
         position ranges' = S (position ranges)
         ∧ Forall in_range ranges' ∧ Forall2 same_range ranges ranges'
     | Some None => S (position ranges) = rounds ranges
     | None => False
     end)
  ∧ (Forall in_range ranges →
     ∀ fuel node do_ mapkey subst env l st,
       (rounds ranges ≤ fuel)%nat →
       control.for_outer fuel node do_ mapkey subst env ranges l st ≠ OutOfFuel)
  ∧ (NoDup (map (λ r, (control.name r, control.index r)) ranges) →
     ∀ range_order', range_order' def ≡ₚ range_order def →
                     control.for_ranges range_order' val = inl ranges).
Proof.
  intros Hv Hranges.
  destruct (proj1 (for_ranges_map _ _ _ _ Hv) Hranges) as (its & Hits & ->).
  pose proof (Sort_Sorted control.Less Less_total (reverse its)) as Hsorted.
  split.
  { apply (StronglySorted_weaken (no_later control.Less)); [apply no_later_names|].
    by apply Sorted_StronglySorted; [apply _|]. }
  split.
  { exists its. split; [done|]. by rewrite Sort_Permutation, reverse_Permutation. }
  split; [apply advance_position|].
  split.
  { intros Hin fuel node do_ mapkey subst env l st Hfuel. apply for_outer_fuel; [done|lia]. }
  intros Hnodup range_order' Horder.
  destruct (Permutation_Forall2 (symmetry Horder) Hits) as (its' & Hperm & Hits').
  apply (proj2 (for_ranges_map _ _ _ _ Hv)). exists its'. split; [done|].
  apply (Sorted_unique_strong (no_later control.Less)).
  - intros x1 x2 Hx1 Hx2 H12 H21.
    apply (NoDup_fmap_eq (λ r, (control.name r, control.index r)) _ _ _ Hnodup);
      [done| |].
    + by rewrite Sort_Permutation, reverse_Permutation, Hperm,
        <- (reverse_Permutation its'), <- (Sort_Permutation control.Less).
    + destruct (no_later_antisym _ _ H12 H21) as [-> ->]. done.
  - done.
  - apply Sort_Sorted, Less_total.
  - by rewrite !Sort_Permutation, !reverse_Permutation.
Qed.

Lemma namesyntax_Match_spec s :
  control.namesyntax_Match s = true ↔
  ∃ c, In c (list_ascii_of_string s) ∧ control.name_class c = true.
Proof.
  induction s as [|c s IH]; simpl.
  - split; [done | by intros (c & [] & _)].
  - rewrite orb_true_iff, IH. split.
    + intros [Hc|(c' & Hin & Hc')]; [exists c | exists c']; auto.
    + intros (c' & [->|Hin] & Hc'); [by left | right; eauto].
Qed.

(** C8, where the code departs from it.  [checkName] accepts a name as soon as
    one of its characters is a letter, a digit or an underscore, and rejects
    it only when it has none: the pattern is matched anywhere in the name,
    not against the whole of it.  So [a-b], which holds a character outside
    the pattern, passes as a range name and gets its iteration. *)
Theorem checkName_accepts_a_partial_match (kind n : string) :
  (control.checkName kind n = None ↔
   ∃ c, In c (list_ascii_of_string n) ∧ control.name_class c = true)
  ∧ control.name_class "-"%char = false
  ∧ control.checkName "range" "a-b" = None
  ∧ (∀ it, control.controlIteration "a-b" "" it
           = inl (control.mkIteration "a-b" "index-a-b" 0 it))
  ∧ (∀ values v l,
        yaml.Value values = yaml.VList (v :: l) →
        control.map_iteration "a-b" values
        = inl (control.mkIteration "a-b" "index-a-b" 0
                 (Some (control.listIterator (v :: l))))).
Proof.
  split.
  { unfold control.checkName. rewrite <- namesyntax_Match_spec.
    destruct (control.namesyntax_Match n); simpl; split; done. }
  split; [done|]. split; [done|]. split; [done|].
  intros values v l Hv. unfold control.map_iteration.
  change (strings.Split_comma "a-b") with ["a-b"].
  change (strings.TrimSpace "a-b") with "a-b".
  unfold control.controlIterator. rewrite Hv. done.
Qed.

End for_ranges.


(** * Further properties of the code *)

(** ** More on nodes: equivalence as a relation, and the annotations *)

(** Go's [==] on two floats, as the specification of the floats has it. *)
Lemma SFeqb_sym x y : SFeqb x y = SFeqb y x.
Proof.
  unfold SFeqb, SFcompare.
  destruct x as [sx|sx| |sx mx ex], y as [sy|sy| |sy my ey]; try done;
    try (by destruct sx); try (by destruct sy); try (by destruct sx, sy).
  change (PosDef.Pos.compare_cont Eq mx my) with (Pos.compare mx my).
  change (PosDef.Pos.compare_cont Eq my mx) with (Pos.compare my mx).
  rewrite (Z.compare_antisym ex ey), (Pos.compare_antisym mx my).
  destruct sx, sy; try done; destruct (ex ?= ey)%Z; simpl; try done;
    by destruct (mx ?= my)%positive.
Qed.

Lemma SFeqb_true x y :
  SFeqb x y = true →
  (∃ s s', x = S754_zero s ∧ y = S754_zero s') ∨ (x = y ∧ x ≠ S754_nan).
Proof.
  unfold SFeqb, SFcompare.
  destruct x as [sx|sx| |sx mx ex], y as [sy|sy| |sy my ey]; try done;
    try (by destruct sx); try (by destruct sy).
  - intros _. left. eauto.
  - destruct sx, sy; try done; intros _; by right.
  - change (PosDef.Pos.compare_cont Eq mx my) with (Pos.compare mx my).
    destruct (ex ?= ey)%Z eqn:He; [|by destruct sx, sy..].
    apply Z.compare_eq in He as ->.
    destruct (mx ?= my)%positive eqn:Hm; [|by destruct sx, sy..].
    apply Pos.compare_eq in Hm as ->.
    destruct sx, sy; try done; intros _; by right.
Qed.

Lemma SFeqb_trans x y z : SFeqb x y = true → SFeqb y z = true → SFeqb x z = true.
Proof.
  intros Hxy Hyz.
  destruct (SFeqb_true _ _ Hxy) as [(s & s' & -> & ->)|[-> _]]; [|done].
  destruct (SFeqb_true _ _ Hyz) as [(t & t' & _ & ->)|[<- _]]; done.
Qed.

Section equivalence_relation.
Context `{Dsl}.

Lemma DeepEqual_leaf_sym v w :
  (∀ a b, Expression_DeepEqual a b = Expression_DeepEqual b a) →
  (∀ a b, TemplateValue_DeepEqual a b = TemplateValue_DeepEqual b a) →
  yaml.DeepEqual_leaf v w = yaml.DeepEqual_leaf w v.
Proof.
  intros He Ht. destruct v, w; simpl; try done.
  - apply bool_decide_ext. split; congruence.
  - apply bool_decide_ext. split; congruence.
  - by rewrite !FloatAxioms.eqb_spec, SFeqb_sym.
  - apply bool_decide_ext. split; congruence.
Qed.

Lemma DeepEqual_leaf_trans u v w :
  (∀ a b c, Expression_DeepEqual a b = true → Expression_DeepEqual b c = true →
            Expression_DeepEqual a c = true) →
  (∀ a b c, TemplateValue_DeepEqual a b = true → TemplateValue_DeepEqual b c = true →
            TemplateValue_DeepEqual a c = true) →
  yaml.DeepEqual_leaf u v = true → yaml.DeepEqual_leaf v w = true →
  yaml.DeepEqual_leaf u w = true.
Proof.
  intros He Ht. destruct u, v; simpl; try done; destruct w; simpl; try done.
  - rewrite !bool_decide_eq_true. congruence.
  - rewrite !bool_decide_eq_true. congruence.
  - rewrite !FloatAxioms.eqb_spec. apply SFeqb_trans.
  - rewrite !bool_decide_eq_true. congruence.
  - apply He.
  - apply Ht.
Qed.

(** X1. [EquivalentToNode] is symmetric: asking whether [n] is equivalent to
    [o] gives the answer of asking whether [o] is equivalent to [n], provided
    that deep equality of expressions and of templates is symmetric. *)
Theorem EquivalentToNode_symmetric :
  (∀ a b, Expression_DeepEqual a b = Expression_DeepEqual b a) →
  (∀ a b, TemplateValue_DeepEqual a b = TemplateValue_DeepEqual b a) →
  ∀ n o, yaml.EquivalentToNode n (Some o) = yaml.EquivalentToNode o (Some n).
Proof.
  intros He Ht n. induction n as [v s a IHm IHl] using node_ind'. intros [w s' a'].
  destruct v as [| | | | |nv|nv| |]; destruct w as [| | | | |ov|ov| |];
    try reflexivity; try (by apply DeepEqual_leaf_sym).
  - apply Bool.eq_iff_eq_true. rewrite !EquivalentToNode_list.
    specialize (IHl nv eq_refl). clear -IHl. revert ov.
    induction nv as [|x nv IH]; intros [|y ov]; split; inversion 1; subst;
      try constructor.
    + by rewrite <- (Forall_inv IHl).
    + apply IH; [by eapply Forall_inv_tail | done].
    + by rewrite (Forall_inv IHl).
    + apply IH; [by eapply Forall_inv_tail | done].
  - apply Bool.eq_iff_eq_true. rewrite !EquivalentToNode_dom.
    specialize (IHm nv eq_refl).
    split; intros [Hdom Hall]; (split; [done|]); intros k x y Hx Hy.
    + rewrite <- (IHm k y Hy). by eapply Hall.
    + rewrite (IHm k x Hx). by eapply Hall.
Qed.

(** X2. [EquivalentToNode] is transitive, provided that deep equality of
    expressions and of templates is. *)
Theorem EquivalentToNode_transitive :
  (∀ a b c, Expression_DeepEqual a b = true → Expression_DeepEqual b c = true →
            Expression_DeepEqual a c = true) →
  (∀ a b c, TemplateValue_DeepEqual a b = true → TemplateValue_DeepEqual b c = true →
            TemplateValue_DeepEqual a c = true) →
  ∀ n o p,
    yaml.EquivalentToNode n (Some o) = true →
    yaml.EquivalentToNode o (Some p) = true →
    yaml.EquivalentToNode n (Some p) = true.
Proof.
  intros He Ht n. induction n as [v s a IHm IHl] using node_ind'.
  intros [w s' a'] [u s'' a''].
  destruct v as [| | | | |nv|nv| |]; destruct w as [| | | | |ov|ov| |]; try done;
    destruct u as [| | | | |pv|pv| |]; try done;
    try (by apply (DeepEqual_leaf_trans _ _ _ He Ht)).
  - rewrite !EquivalentToNode_list. specialize (IHl nv eq_refl). clear -IHl.
    revert ov pv. induction nv as [|x nv IH]; intros ov pv Hno Hop;
      inversion Hno; subst; inversion Hop; subst; constructor.
    + by eapply (Forall_inv IHl).
    + eapply IH; [by eapply Forall_inv_tail | done..].
  - rewrite !EquivalentToNode_dom. specialize (IHm nv eq_refl).
    intros [Hd1 H1] [Hd2 H2]. split; [congruence|]. intros k x z Hx Hz.
    assert (k ∈ dom ov) as [y Hy]%elem_of_dom.
    { rewrite <- Hd1. apply elem_of_dom. eauto. }
    eapply (IHm k x Hx); [by eapply H1 | by eapply H2].
Qed.

End equivalence_relation.

(** ** Strings: pieces of a text *)

Lemma substring_0_length_app (e t : string) :
  String.substring 0 (String.length e) (e +:+ t) = e.
Proof. induction e as [|c e IH]; simpl; [by destruct t | by rewrite IH]. Qed.

Lemma substring_length_app (e t : string) (m : nat) :
  String.substring (String.length e) m (e +:+ t) = String.substring 0 m t.
Proof. induction e as [|c e IH]; simpl; done. Qed.

Lemma string_length_app (e t : string) :
  String.length (e +:+ t) = (String.length e + String.length t)%nat.
Proof. induction e as [|c e IH]; simpl; [done | by rewrite IH]. Qed.

Lemma substring_full (s : string) : String.substring 0 (String.length s) s = s.
Proof. induction s as [|c s IH]; simpl; [done | by rewrite IH]. Qed.

Lemma substring_split (s : string) (a : nat) :
  (a ≤ String.length s)%nat →
  s = String.substring 0 a s +:+ String.substring a (String.length s - a) s.
Proof.
  revert a. induction s as [|c s IH]; intros [|a] Ha; simpl in *; try lia; try done.
  - by rewrite substring_full.
  - change (String c s = String c (String.substring 0 a s
              +:+ String.substring a (String.length s - a) s)).
    f_equal. apply IH. lia.
Qed.

Section embedded_dynaml.
Context `{Dsl}.

Lemma FindStringSubmatch_Some s sub :
  yaml_node.embeddedDynaml_FindStringSubmatch s = Some sub ↔
  ∃ e, s = "((" +:+ e +:+ "))"
       ∧ forallb yaml_node.dot (list_ascii_of_string e) = true
       ∧ sub = [s; e].
Proof.
  unfold yaml_node.embeddedDynaml_FindStringSubmatch. split.
  - destruct (_ && _) eqn:Hc; [|done]. intros ?; simplify_eq.
    apply andb_true_iff in Hc as [Hc Hdot]. apply andb_true_iff in Hc as [Hc Hclose].
    apply andb_true_iff in Hc as [Hlen Hopen]. apply bool_decide_eq_true in Hlen.
    apply String.eqb_eq in Hopen, Hclose.
    destruct s as [|c1 [|c2 r]]; simpl in Hlen; try lia.
    simpl in Hopen. injection Hopen as -> -> _.
    simpl in *. 
    assert (2 ≤ String.length r)%nat as Hr by lia.
    replace (String.length r) with (S (S (String.length r - 2))) in Hclose at 1 by lia.
    simpl in Hclose.
    exists (String.substring 0 (String.length r - 2) r). split; [|done].
    rewrite (substring_split r (String.length r - 2)) at 1 by lia.
    replace (String.length r - (String.length r - 2))%nat with 2%nat by lia.
    by rewrite Hclose.
  - intros (e & -> & Hdot & ->).
    set (s := "((" +:+ e +:+ "))").
    assert (String.length s = 4 + String.length e)%nat as Hn.
    { unfold s. change (S (S (String.length (e +:+ "))"))) = 4 + String.length e)%nat.
      rewrite string_length_app. simpl. lia. }
    assert (String.substring 0 2 s = "((") as ->.
    { unfold s. change (String "(" (String "(" (String.substring 0 0 (e +:+ "))"))) = "((").
      by destruct e. }
    assert (String.substring (String.length s - 2) 2 s = "))") as ->.
    { rewrite Hn. replace (4 + String.length e - 2)%nat with (S (S (String.length e))) by lia.
      unfold s. change (String.substring (String.length e) 2 (e +:+ "))") = "))").
      by rewrite substring_length_app. }
    assert (String.substring 2 (String.length s - 4) s = e) as ->.
    { rewrite Hn. replace (4 + String.length e - 4)%nat with (String.length e) by lia.
      unfold s. change (String.substring 0 (String.length e) (e +:+ "))") = e).
      apply substring_0_length_app. }
    rewrite Hdot, bool_decide_true by lia. done.
Qed.

End embedded_dynaml.

Lemma string_app_inv_tail (e e' t : string) : e +:+ t = e' +:+ t → e = e'.
Proof.
  intros Heq.
  assert (String.length e = String.length e') as Hlen.
  { apply (f_equal String.length) in Heq. rewrite !string_length_app in Heq. lia. }
  rewrite <- (substring_0_length_app e t), Heq, Hlen. apply substring_0_length_app.
Qed.

Lemma string_app_assoc (a b c : string) : (a +:+ b) +:+ c = a +:+ (b +:+ c).
Proof. induction a as [|x a IH]; [done | exact (f_equal (String x) IH)]. Qed.

Section embedded_dynaml_of_node_go.
Context `{Dsl}.

Lemma dot_line_feed (a b : string) :
  forallb yaml_node.dot (list_ascii_of_string (a +:+ String "010"%char b)) = false.
Proof.
  induction a as [|c a IH]; [done|].
  change (yaml_node.dot c
          && forallb yaml_node.dot (list_ascii_of_string (a +:+ String "010"%char b)) = false).
  rewrite IH. apply andb_false_r.
Qed.

(** X3. [EmbeddedDynaml] of [node.go] returns the text [e] exactly for the
    string nodes whose text is [e] between two opening and two closing
    parentheses, [e] holding no line feed: it undoes the wrapping.  A text
    with a line feed between the parentheses embeds nothing, and a node that
    holds no string makes the function panic. *)
Theorem EmbeddedDynaml_unwraps_the_parentheses :
  (∀ root e,
      yaml_node.EmbeddedDynaml root = Ok (Some e) ↔
      yaml.Value root = yaml.VString ("((" +:+ e +:+ "))")
      ∧ forallb yaml_node.dot (list_ascii_of_string e) = true)
  ∧ (∀ a b src,
      yaml_node.EmbeddedDynaml
        (yaml.NewNode (yaml.VString ("((" +:+ a +:+ String "010"%char b +:+ "))")) src)
      = Ok None)
  ∧ (∀ root, yaml_node.EmbeddedDynaml root = Panic ↔ ∀ s, yaml.Value root ≠ yaml.VString s).
Proof.
  assert (∀ root e,
      yaml_node.EmbeddedDynaml root = Ok (Some e) ↔
      yaml.Value root = yaml.VString ("((" +:+ e +:+ "))")
      ∧ forallb yaml_node.dot (list_ascii_of_string e) = true) as Hiff.
  { intros root e. unfold yaml_node.EmbeddedDynaml. split.
    - destruct (yaml.Value root) as [| | | |s| | | |]; try done.
      destruct (yaml_node.embeddedDynaml_FindStringSubmatch s) as [sub|] eqn:Hsub; [|done].
      apply FindStringSubmatch_Some in Hsub as (e' & -> & Hdot & ->). simpl.
      intros ?; simplify_eq. done.
    - intros [-> Hdot].
      assert (yaml_node.embeddedDynaml_FindStringSubmatch ("((" +:+ e +:+ "))")
              = Some ["((" +:+ e +:+ "))"; e]) as ->; [|done].
      apply FindStringSubmatch_Some. eauto. }
  split; [done|]. split.
  - intros a b src.
    destruct (yaml_node.EmbeddedDynaml
                (yaml.NewNode (yaml.VString ("((" +:+ a +:+ String "010"%char b +:+ "))")) src))
      as [[e|]| |] eqn:He; [|done| |].
    + apply Hiff in He as [Hv Hdot]. injection Hv as Hv.
      change (a +:+ String "010"%char b +:+ "))" = e +:+ "))") in Hv.
      rewrite <- string_app_assoc in Hv.
      apply string_app_inv_tail in Hv. subst e.
      by rewrite dot_line_feed in Hdot.
    + unfold yaml_node.EmbeddedDynaml in He. simpl in He.
      destruct (yaml_node.embeddedDynaml_FindStringSubmatch _) as [sub|] eqn:Hsub; [|done].
      apply FindStringSubmatch_Some in Hsub as (e' & _ & _ & ->). done.
    + unfold yaml_node.EmbeddedDynaml in He. simpl in He.
      destruct (yaml_node.embeddedDynaml_FindStringSubmatch _) as [sub|] eqn:Hsub; [|done].
      apply FindStringSubmatch_Some in Hsub as (e' & _ & _ & ->). done.
  - intros root. unfold yaml_node.EmbeddedDynaml. split.
    + destruct (yaml.Value root) as [| | | |s| | | |]; try done.
      destruct (yaml_node.embeddedDynaml_FindStringSubmatch s) as [sub|] eqn:Hsub; [|done].
      apply FindStringSubmatch_Some in Hsub as (e' & _ & _ & ->). done.
    + intros Hs. destruct (yaml.Value root) as [| | | |s| | | |]; try done.
      by destruct (Hs s).
Qed.

End embedded_dynaml_of_node_go.

Section annotations.
Context `{Dsl}.

(** X4. Two issues recorded one after the other: the node has the error and
    failed marks of the second call, and the issue of the second call unless
    its text is empty, in which case the issue of the first call stays.  So an
    issue without text never erases a recorded one, while the two marks are
    overwritten by every call. *)
Theorem IssueNode_twice (node : yaml.Node) (e1 f1 e2 f2 : bool) (i1 i2 : yaml.Issue) :
  yaml.IssueNode (yaml.IssueNode node e1 f1 i1) e2 f2 i2
  = yaml.IssueNode node e2 f2 (if String.eqb (yaml.Issue_Issue i2) "" then i1 else i2)
  ∧ yaml.HasError (yaml.IssueNode (yaml.IssueNode node e1 f1 i1) e2 f2 i2) = e2
  ∧ yaml.Failed (yaml.IssueNode (yaml.IssueNode node e1 f1 i1) e2 f2 i2) = f2
  ∧ yaml.Issue_of (yaml.IssueNode (yaml.IssueNode node e1 f1 i1) e2 f2 i2)
    = if String.eqb (yaml.Issue_Issue i2) "" then
        if String.eqb (yaml.Issue_Issue i1) "" then yaml.Issue_of node else i1
      else i2.
Proof.
  destruct node as [v s a]. unfold yaml.IssueNode, yaml.AddIssue, yaml.HasError,
    yaml.Failed, yaml.Issue_of, yaml.Annotation_Issue, yaml.GetAnnotation.
  destruct (String.eqb (yaml.Issue_Issue i2) "") eqn:H2;
    destruct (String.eqb (yaml.Issue_Issue i1) "") eqn:H1;
    cbn [negb yaml.issue yaml.error yaml.failed yaml.redirectPath yaml.temporary
         yaml.replace yaml.preferred yaml.merged yaml.keyName yaml.undefined yaml.tag
         yaml.flags yaml.template];
    rewrite ?H1, ?H2; done.
Qed.

(** X5. The replace flag is set by [ReplaceNode] alone and cleared by
    [ReferencedNode] and [NewNode] alone: every other constructor hands it on
    as it finds it.  A replaced node therefore stays replaced, and counts as
    merged, through any sequence of value substitutions and annotation
    updates. *)
Theorem replace_flag_is_handed_on (node : yaml.Node) :
  (∀ v, yaml.ReplaceFlag (yaml.ReplaceValue v node) = yaml.ReplaceFlag node)
  ∧ (∀ v, yaml.ReplaceFlag (yaml.SubstituteNode v node) = yaml.ReplaceFlag node)
  ∧ (∀ v r, yaml.ReplaceFlag (yaml.RedirectNode v node r) = yaml.ReplaceFlag node)
  ∧ yaml.ReplaceFlag (yaml.PreferredNode node) = yaml.ReplaceFlag node
  ∧ yaml.ReplaceFlag (yaml.MergedNode node) = yaml.ReplaceFlag node
  ∧ (∀ k, yaml.ReplaceFlag (yaml.KeyNameNode node k) = yaml.ReplaceFlag node)
  ∧ (∀ e f i, yaml.ReplaceFlag (yaml.IssueNode node e f i) = yaml.ReplaceFlag node)
  ∧ yaml.ReplaceFlag (yaml.UndefinedNode node) = yaml.ReplaceFlag node
  ∧ yaml.ReplaceFlag (yaml.TemporaryNode node) = yaml.ReplaceFlag node
  ∧ (∀ v r, yaml.ReplaceFlag (yaml.ReplaceNode v node r) = true
            ∧ yaml.Merged (yaml.ReplaceNode v node r) = true)
  ∧ yaml.ReplaceFlag (yaml.ReferencedNode node) = false
  ∧ yaml.Merged (yaml.ReferencedNode node) = false
  ∧ (∀ v s, yaml.ReplaceFlag (yaml.NewNode v s) = false
            ∧ yaml.Merged (yaml.NewNode v s) = false).
Proof.
  destruct node as [v s a]. unfold yaml.ReplaceFlag, yaml.Merged, yaml.Annotation_Merged.
  repeat split; try done.
  - intros k. unfold yaml.KeyNameNode, yaml.AddKeyName. simpl. by destruct (negb _).
  - intros e f i. unfold yaml.IssueNode, yaml.AddIssue. simpl. by destruct (negb _).
  - simpl. by destruct (yaml.merged a).
Qed.

End annotations.

(** ** The helpers of the flow *)
Section flow_helpers.
Context `{Dsl} `{!yaml.Helpers} `{!dynaml.API}.

(** X6. [updateNode] changes the flags and the tag of a node and nothing
    else: the flags of the result are those of the node or-ed with the given
    ones, the tag is the given one unless that is empty, in which case the
    node keeps its own.  Updating a second time with the same flags and tag
    changes nothing more. *)
Theorem updateNode_sets_flags_and_tag (node : yaml.Node) (flags : yaml.NodeFlags)
    (tag : string) :
  flow.updateNode node flags tag
  = (let n := yaml.GetAnnotation node in
     yaml.AnnotatedNode (yaml.Value node) (yaml.SourceName node)
       (yaml.mkAnnotation (yaml.redirectPath n) (yaml.temporary n) (yaml.replace n)
          (yaml.preferred n) (yaml.merged n) (yaml.keyName n) (yaml.error n)
          (yaml.failed n) (yaml.undefined n) (yaml.issue n)
          (if String.eqb tag "" then yaml.tag n else tag)
          (Z.lor (yaml.flags n) flags) (yaml.template n)))
  ∧ flow.updateNode (flow.updateNode node flags tag) flags tag
    = flow.updateNode node flags tag.
Proof.
  assert (∀ node flags tag,
    flow.updateNode node flags tag
    = (let n := yaml.GetAnnotation node in
       yaml.AnnotatedNode (yaml.Value node) (yaml.SourceName node)
         (yaml.mkAnnotation (yaml.redirectPath n) (yaml.temporary n) (yaml.replace n)
            (yaml.preferred n) (yaml.merged n) (yaml.keyName n) (yaml.error n)
            (yaml.failed n) (yaml.undefined n) (yaml.issue n)
            (if String.eqb tag "" then yaml.tag n else tag)
            (Z.lor (yaml.flags n) flags) (yaml.template n)))) as Hform.
  { clear. intros [v s a] flags tag. unfold flow.updateNode, yaml.Flags, yaml.Annotation_Tag.
    destruct a as [rp tm rf pf mg kn er fl un iss tg fg tp]. simpl.
    destruct (Z.eqb_spec (Z.lor flags fg) fg) as [Hfg|Hfg]; simpl.
    - assert (Z.lor fg flags = fg) as -> by by rewrite Z.lor_comm.
      destruct (String.eqb_spec tag "") as [->|Htag]; simpl; [done|].
      destruct (String.eqb_spec tag tg) as [->|Htg]; simpl; done.
    - destruct (String.eqb_spec tag "") as [->|Htag]; simpl; [done|].
      destruct (String.eqb_spec tag tg) as [->|Htg]; simpl; done. }
  split; [apply Hform|]. rewrite !Hform. destruct node as [v s a]. simpl.
  rewrite <- Z.lor_assoc, Z.lor_diag. by destruct (String.eqb tag "").
Qed.

(** X7. [FlowString] touches nothing but the value of a node: source name
    and annotation are those of the node it was given.  The value is either
    left as it is or replaced by the expression that the embedded text parses
    to; a node returned with an error, or for a text that embeds nothing, is
    the node given. *)
Theorem FlowString_changes_the_value_only (root : yaml.Node) (env : dynaml.Binding) :
  yaml.SourceName (flow.FlowString root env).1 = yaml.SourceName root
  ∧ yaml.GetAnnotation (flow.FlowString root env).1 = yaml.GetAnnotation root
  ∧ ((flow.FlowString root env).1 = root
     ∨ ∃ sub expr,
         yaml.EmbeddedDynaml root (dynaml.InterpolationEnabled env) = Some sub
         ∧ dynaml.Parse sub (dynaml.Path env) (dynaml.StubPath env) = inl expr
         ∧ yaml.Value (flow.FlowString root env).1 = yaml.VExpr expr
         ∧ (flow.FlowString root env).2 = None)
  ∧ (yaml.EmbeddedDynaml root (dynaml.InterpolationEnabled env) = None →
     flow.FlowString root env = (root, None))
  ∧ (∀ err, (flow.FlowString root env).2 = Some err →
            (flow.FlowString root env).1 = root
            ∧ ∃ sub, yaml.EmbeddedDynaml root (dynaml.InterpolationEnabled env) = Some sub
                     ∧ dynaml.Parse sub (dynaml.Path env) (dynaml.StubPath env) = inr err).
Proof.
  unfold flow.FlowString.
  destruct (yaml.EmbeddedDynaml root _) as [sub|].
  - destruct (dynaml.Parse sub _ _) as [expr|err] eqn:Hp; simpl.
    + split; [done|]. split; [done|]. split; [right; by exists sub, expr|].
      split; done.
    + split; [done|]. split; [done|]. split; [by left|]. split; [done|].
      intros err' ?; simplify_eq. split; [done|]. by exists sub.
  - simpl. split; [done|]. split; [done|]. split; [by left|]. split; done.
Qed.

End flow_helpers.

(** ** Key tags of list entries *)

Lemma substring_nonempty_lt (s : string) (n : nat) (c : ascii) (t : string) :
  String.substring n 1 s = String c t → (n < String.length s)%nat.
Proof.
  revert n. induction s as [|x s IH]; intros [|n]; simpl; try done; [lia|].
  intros Hs. apply IH in Hs. lia.
Qed.

Lemma substring_0_length (s : string) (n : nat) :
  (n ≤ String.length s)%nat → String.length (String.substring 0 n s) = n.
Proof.
  revert n. induction s as [|x s IH]; intros [|n]; simpl; try done; try lia.
  intros Hn. rewrite IH; [done | lia].
Qed.

Section key_tags.
Context `{Dsl} `{!yaml.Helpers} `{!dynaml.API}.

(** A key carries a key tag exactly when it starts with [key:]; the tag is
    the rest of the key. *)
Lemma key_tag_Some (key rest : string) :
  flow.key_tag key = Some rest ↔ key = "key:" +:+ rest.
Proof.
  unfold flow.key_tag. split.
  - destruct (String.index 0 ":" key) as [split|] eqn:Hi; [|done].
    destruct (_ && _) eqn:Hc; [|done]. intros ?; simplify_eq.
    apply andb_true_iff in Hc as [Hpos Hkey]. apply bool_decide_eq_true in Hpos.
    apply String.eqb_eq in Hkey.
    apply String.index_correct1 in Hi. simpl in Hi.
    pose proof (substring_nonempty_lt _ _ _ _ Hi) as Hlt.
    assert (split = 3%nat) as ->.
    { rewrite <- (substring_0_length key split) by lia. by rewrite Hkey. }
    destruct key as [|c1 [|c2 [|c3 [|c4 r]]]]; simpl in Hlt; try lia.
    simpl in Hkey. injection Hkey as -> -> ->.
    simpl in Hi. destruct r; injection Hi as ->; simpl; by rewrite ?substring_full.
  - intros ->.
    assert (String.index 0 ":" ("key:" +:+ rest) = Some 3%nat) as ->.
    { destruct (String.index 0 ":" ("key:" +:+ rest)) as [m|] eqn:Hi.
      - pose proof (String.index_correct1 _ _ _ _ Hi) as Hc1.
        pose proof (String.index_correct2 _ _ _ _ Hi) as Hc2.
        destruct (decide (m = 3%nat)) as [->|Hm]; [done|].
        destruct (decide (m < 3)%nat) as [Hlt|Hge].
        + destruct m as [|[|[|m]]]; try lia; done.
        + destruct (Hc2 3%nat); [lia | lia | by destruct rest].
      - destruct (String.index_correct3 _ 3%nat _ _ Hi); [done | lia | by destruct rest]. }
    simpl. change ("" +:+ rest) with rest. by rewrite Nat.sub_0_r, substring_full.
Qed.

Lemma key_tag_None (key : string) :
  flow.key_tag key = None ↔ ∀ rest, key ≠ "key:" +:+ rest.
Proof.
  split.
  - intros Hk rest Hrest. apply key_tag_Some in Hrest. congruence.
  - intros Hk. destruct (flow.key_tag key) as [rest|] eqn:Ht; [|done].
    apply key_tag_Some in Ht. by destruct (Hk rest).
Qed.

(** The first loop of [ProcessKeyTag] on a map without key tags. *)
Lemma key_tag_search_none (m : gmap string yaml.Node) acc :
  (∀ k, is_Some (m !! k) → flow.key_tag k = None) →
  map_fold (λ key (_ : yaml.Node) (acc : string * bool),
      match flow.key_tag key with
      | Some rest => (rest, true)
      | None => acc
      end) acc m = acc.
Proof.
  induction m as [|k x m Hk Hfold IH] using map_first_key_ind; intros Hm.
  - by rewrite map_fold_empty.
  - rewrite map_fold_insert_first_key by done.
    rewrite (Hm k) by (rewrite lookup_insert_eq; eauto).
    apply IH. intros k' [y Hy]. apply Hm. exists y.
    rewrite lookup_insert_ne; [done|]. intros ->. congruence.
Qed.

(** The first loop on a map with one key tag. *)
Lemma key_tag_search_one (m : gmap string yaml.Node) rest acc :
  is_Some (m !! ("key:" +:+ rest)) →
  (∀ k, is_Some (m !! k) → k ≠ "key:" +:+ rest → flow.key_tag k = None) →
  map_fold (λ key (_ : yaml.Node) (acc : string * bool),
      match flow.key_tag key with
      | Some rest => (rest, true)
      | None => acc
      end) acc m = (rest, true).
Proof.
  induction m as [|k x m Hk Hfold IH] using map_first_key_ind; intros [v Hv] Hm.
  - by rewrite lookup_empty in Hv.
  - rewrite map_fold_insert_first_key by done.
    destruct (decide (k = "key:" +:+ rest)) as [->|Hne].
    + by rewrite (proj2 (key_tag_Some _ rest) eq_refl).
    + rewrite (Hm k) by (try rewrite lookup_insert_eq; eauto).
      apply IH.
      * exists v. by rewrite lookup_insert_ne in Hv.
      * intros k' [y Hy] Hk'. apply Hm; [|done]. exists y.
        rewrite lookup_insert_ne; [done|]. intros ->. congruence.
Qed.

(** The second loop: every entry is stored under its key without the tag,
    provided that no two keys are the same without their tags. *)
Lemma key_tag_rename (m : gmap string yaml.Node) :
  (∀ k k', is_Some (m !! k) → is_Some (m !! k') →
           default k (flow.key_tag k) = default k' (flow.key_tag k') → k = k') →
  let newMap :=
    map_fold (λ key v (newMap : gmap string yaml.Node),
        match flow.key_tag key with
        | Some rest => <[rest := v]> newMap
        | None => <[key := v]> newMap
        end) ∅ m in
  (∀ k v, m !! k = Some v → newMap !! default k (flow.key_tag k) = Some v)
  ∧ (∀ k' v, newMap !! k' = Some v →
             ∃ k, default k (flow.key_tag k) = k' ∧ m !! k = Some v).
Proof.
  induction m as [|k x m Hk Hfold IH] using map_first_key_ind; intros Hinj; simpl.
  - rewrite map_fold_empty. split; intros ??; by rewrite lookup_empty.
  - rewrite map_fold_insert_first_key by done.
    set (newMap := map_fold _ ∅ m) in *.
    assert (match flow.key_tag k with
            | Some rest => <[rest := x]> newMap
            | None => <[k := x]> newMap
            end = <[default k (flow.key_tag k) := x]> newMap) as ->
      by by destruct (flow.key_tag k).
    destruct IH as [IH1 IH2].
    { intros k1 k2 [y1 Hy1] [y2 Hy2]. apply Hinj.
      - exists y1. rewrite lookup_insert_ne; [done|]. intros ->. congruence.
      - exists y2. rewrite lookup_insert_ne; [done|]. intros ->. congruence. }
    split.
    + intros k0 v. destruct (decide (k = k0)) as [->|Hne].
      * rewrite !lookup_insert_eq. done.
      * rewrite lookup_insert_ne by done. intros Hk0.
        rewrite lookup_insert_ne; [by apply IH1|].
        intros Heq. apply Hne, Hinj; [| |done].
        -- rewrite lookup_insert_eq. eauto.
        -- rewrite lookup_insert_ne by done. eauto.
    + intros k' v. destruct (decide (default k (flow.key_tag k) = k')) as [<-|Hne].
      * rewrite lookup_insert_eq. intros ?; simplify_eq. exists k.
        by rewrite lookup_insert_eq.
      * rewrite lookup_insert_ne by done. intros Hk'.
        destruct (IH2 k' v Hk') as (k0 & Hk0 & Hm0). exists k0. split; [done|].
        rewrite lookup_insert_ne; [done|]. intros ->. congruence.
Qed.

(** X8. [ProcessKeyTag] on a list entry.  An entry that is no map, or a map
    none of whose keys starts with [key:], is returned as it is, with no key
    name.  A map with one such key, [key:] followed by [rest], where [rest]
    is not itself a key of the map, is returned with that entry stored under
    [rest] and every other entry as it was, in a node with the source name
    and the annotation of the entry; the key name returned is [rest]. *)
Theorem ProcessKeyTag_renames_the_tagged_key :
  (∀ val, (∀ m rest, yaml.Value val = yaml.VMap m → m !! ("key:" +:+ rest) = None) →
          flow.ProcessKeyTag val = (val, ""))
  ∧ (∀ val m rest v,
        yaml.Value val = yaml.VMap (<["key:" +:+ rest := v]> m) →
        (∀ r, m !! ("key:" +:+ r) = None) → m !! rest = None →
        flow.ProcessKeyTag val
        = (yaml.AnnotatedNode (yaml.VMap (<[rest := v]> m)) (yaml.SourceName val)
             (yaml.GetAnnotation val), rest)).
Proof.
  split.
  - intros val Hval. unfold flow.ProcessKeyTag.
    destruct (yaml.Value val) as [| | | | | |m| |] eqn:Hv; try done.
    rewrite key_tag_search_none; [done|].
    intros k [y Hy]. apply key_tag_None. intros rest ->.
    by rewrite (Hval m rest eq_refl) in Hy.
  - intros val m rest v Hv Hm Hrest. unfold flow.ProcessKeyTag. rewrite Hv.
    rewrite (key_tag_search_one _ rest).
    2:{ rewrite lookup_insert_eq. eauto. }
    2:{ intros k [y Hy] Hne. rewrite lookup_insert_ne in Hy by done.
        apply key_tag_None. intros r ->. by rewrite Hm in Hy. }
    unfold yaml.SubstituteNode, yaml.MassageType. do 3 f_equal.
    assert (∀ k, is_Some (m !! k) → flow.key_tag k = None) as Hnone.
    { intros k [y Hy]. apply key_tag_None. intros r ->. by rewrite Hm in Hy. }
    destruct (key_tag_rename (<["key:" +:+ rest := v]> m)) as [Hr1 Hr2].
    { intros k1 k2 [y1 Hy1] [y2 Hy2].
      destruct (decide (k1 = "key:" +:+ rest)) as [->|Hn1];
        destruct (decide (k2 = "key:" +:+ rest)) as [->|Hn2]; [done|..].
      - rewrite lookup_insert_ne in Hy2 by done.
        rewrite (proj2 (key_tag_Some _ rest) eq_refl), (Hnone k2) by eauto.
        simpl. intros <-. congruence.
      - rewrite lookup_insert_ne in Hy1 by done.
        rewrite (proj2 (key_tag_Some _ rest) eq_refl), (Hnone k1) by eauto.
        simpl. intros ->. congruence.
      - rewrite lookup_insert_ne in Hy1, Hy2 by done.
        by rewrite (Hnone k1), (Hnone k2) by eauto. }
    apply map_eq. intros k'. destruct (decide (rest = k')) as [<-|Hne].
    + rewrite lookup_insert_eq.
      rewrite <- (Hr1 ("key:" +:+ rest) v) by by rewrite lookup_insert_eq.
      by rewrite (proj2 (key_tag_Some _ rest) eq_refl).
    + rewrite lookup_insert_ne by done.
      destruct (m !! k') as [y|] eqn:Hy.
      * assert ("key:" +:+ rest ≠ k') as Hk'.
        { intros <-. by rewrite Hm in Hy. }
        rewrite <- (Hr1 k' y) by by rewrite lookup_insert_ne.
        by rewrite (Hnone k') by eauto.
      * apply eq_None_not_Some. intros [y Hy'].
        destruct (Hr2 k' y Hy') as (k0 & Hk0 & Hm0).
        destruct (decide (k0 = "key:" +:+ rest)) as [->|Hn0].
        -- rewrite (proj2 (key_tag_Some _ rest) eq_refl) in Hk0. done.
        -- rewrite lookup_insert_ne in Hm0 by done.
           rewrite (Hnone k0) in Hk0 by eauto. simpl in Hk0. congruence.
Qed.

(** The first loop of [ProcessKeyTag], in whatever order: without a key tag
    nothing is found. *)
Lemma key_tag_search_list_none (entries : list (string * yaml.Node)) acc :
  (∀ e, e ∈ entries → flow.key_tag e.1 = None) →
  fold_left (λ (acc : string * bool) (entry : string * yaml.Node),
      match flow.key_tag entry.1 with
      | Some rest => (rest, true)
      | None => acc
      end) entries acc = acc.
Proof.
  revert acc. induction entries as [|e entries IH]; intros acc Hnone; [done|].
  simpl. rewrite (Hnone e) by by left. apply IH. intros e' He'. apply Hnone. by right.
Qed.

(** When every key tag of the map is [rest], that is what is found. *)
Lemma key_tag_search_list_one (entries : list (string * yaml.Node)) rest acc :
  (∀ e r, e ∈ entries → flow.key_tag e.1 = Some r → r = rest) →
  acc = (rest, true) ∨ (∃ e, e ∈ entries ∧ is_Some (flow.key_tag e.1)) →
  fold_left (λ (acc : string * bool) (entry : string * yaml.Node),
      match flow.key_tag entry.1 with
      | Some rest => (rest, true)
      | None => acc
      end) entries acc = (rest, true).
Proof.
  revert acc. induction entries as [|e entries IH]; intros acc Hall Hsome.
  - destruct Hsome as [->|(e & He & _)]; [done|]. by apply elem_of_nil in He.
  - simpl. apply IH.
    + intros e' r He'. apply Hall. by right.
    + destruct (flow.key_tag e.1) as [r|] eqn:Hk.
      * left. by rewrite (Hall e r) by (done || by left).
      * destruct Hsome as [->|(e' & He' & Hsome)]; [by left|].
        apply elem_of_cons in He' as [->|He'].
        -- rewrite Hk in Hsome. by destruct Hsome.
        -- right. by exists e'.
Qed.

(** The second loop, in whatever order: when no two entries end up under
    the same key, every entry is found under its key without the tag. *)
Lemma key_tag_rename_list (entries : list (string * yaml.Node)) :
  NoDup (map (λ e : string * yaml.Node, default e.1 (flow.key_tag e.1)) entries) →
  ∀ (acc : gmap string yaml.Node) k' v,
    fold_left (λ (newMap : gmap string yaml.Node) (entry : string * yaml.Node),
        match flow.key_tag entry.1 with
        | Some rest => <[rest := entry.2]> newMap
        | None => <[entry.1 := entry.2]> newMap
        end) entries acc !! k' = Some v
    ↔ (∃ e, e ∈ entries ∧ default e.1 (flow.key_tag e.1) = k' ∧ e.2 = v)
      ∨ (¬ k' ∈ map (λ e : string * yaml.Node, default e.1 (flow.key_tag e.1)) entries)
        ∧ acc !! k' = Some v.
Proof.
  induction entries as [|e entries IH]; intros Hnd acc k' v.
  - simpl. split.
    + intros Hk. right. split; [apply not_elem_of_nil | done].
    + intros [(e & He & _)|[_ Hk]]; [by apply elem_of_nil in He | done].
  - simpl in Hnd. apply NoDup_cons in Hnd as [Hnew Hnd]. simpl.
    assert (match flow.key_tag e.1 with
            | Some rest => <[rest := e.2]> acc
            | None => <[e.1 := e.2]> acc
            end = <[default e.1 (flow.key_tag e.1) := e.2]> acc) as ->
      by by destruct (flow.key_tag e.1).
    rewrite (IH Hnd). split.
    + intros [(e' & He' & Hk & Hv)|[Hk Hacc]].
      * left. exists e'. split; [by right | done].
      * destruct (decide (default e.1 (flow.key_tag e.1) = k')) as [Heq|Hne].
        -- rewrite Heq, lookup_insert_eq in Hacc. simplify_eq. left. exists e.
           split; [by left | done].
        -- rewrite lookup_insert_ne in Hacc by done. right. split; [|done].
           by apply not_elem_of_cons.
    + intros [(e' & He' & Hk & Hv)|[Hk Hacc]].
      * apply elem_of_cons in He' as [->|He'].
        -- right. split; [by rewrite <- Hk|]. rewrite <- Hk, lookup_insert_eq. by f_equal.
        -- left. by exists e'.
      * apply not_elem_of_cons in Hk as [Hne Hk]. right. split; [done|].
        by rewrite lookup_insert_ne.
Qed.

(** For an entry with at most one key tag it makes no difference in which
    order the two loops of [ProcessKeyTag] visit the keys of the map. *)
Lemma ProcessKeyTag_any_order (val : yaml.Node) (m : gmap string yaml.Node)
    (first second : list (string * yaml.Node)) :
  one_key_tag val → yaml.Value val = yaml.VMap m →
  first ≡ₚ map_to_list m → second ≡ₚ map_to_list m →
  ProcessKeyTag_visiting first second val = flow.ProcessKeyTag val.
Proof.
  intros Hone Hv Hfirst Hsecond. destruct (Hone m Hv) as [Hmost Hfree].
  unfold ProcessKeyTag_visiting, flow.ProcessKeyTag. rewrite Hv.
  assert (∀ e, e ∈ first ↔ m !! e.1 = Some e.2) as Hin1.
  { intros [k v]. rewrite Hfirst. apply elem_of_map_to_list. }
  assert (∀ e, e ∈ second ↔ m !! e.1 = Some e.2) as Hin2.
  { intros [k v]. rewrite Hsecond. apply elem_of_map_to_list. }
  assert (∀ k1 k2, is_Some (m !! k1) → is_Some (m !! k2) →
            default k1 (flow.key_tag k1) = default k2 (flow.key_tag k2) → k1 = k2) as Hinj.
  { intros k1 k2 Hs1 Hs2.
    destruct (flow.key_tag k1) as [r1|] eqn:Ht1, (flow.key_tag k2) as [r2|] eqn:Ht2; simpl.
    - intros _. apply Hmost; try done; by rewrite ?Ht1, ?Ht2.
    - intros ->. rewrite (Hfree k1 k2 Hs1 Ht1) in Hs2. by destruct Hs2.
    - intros <-. rewrite (Hfree k2 k1 Hs2 Ht2) in Hs1. by destruct Hs1.
    - done. }
  assert ((∃ k0 v0 rest, m !! k0 = Some v0 ∧ flow.key_tag k0 = Some rest)
          ∨ ¬ ∃ k, is_Some (m !! k) ∧ is_Some (flow.key_tag k))
    as [(k0 & v0 & rest & Hk0 & Hrest)|Hnone].
  { destruct (decide (Exists (λ e : string * yaml.Node, is_Some (flow.key_tag e.1))
                        (map_to_list m))) as [Hex|Hnex].
    - apply Exists_exists in Hex as ([k0 v0] & Hin%elem_of_map_to_list & [rest Hrest]).
      left. by exists k0, v0, rest.
    - right. intros (k & [v Hk] & Hsome). apply Hnex, Exists_exists. exists (k, v).
      split; [by apply elem_of_map_to_list | done]. }
  - assert (k0 = "key:" +:+ rest) as -> by by apply key_tag_Some.
    rewrite (key_tag_search_one m rest).
    2:{ eauto. }
    2:{ intros k Hk Hne. destruct (flow.key_tag k) as [r|] eqn:Hr; [|done].
        destruct Hne. apply Hmost; eauto. }
    rewrite (key_tag_search_list_one first rest).
    2:{ intros e r He%Hin1 Hr.
        assert (e.1 = "key:" +:+ rest) as Heq by (apply Hmost; eauto).
        rewrite Heq in Hr. congruence. }
    2:{ right. exists ("key:" +:+ rest, v0). split; [by apply Hin1 | simpl; rewrite Hrest; eauto]. }
    do 3 f_equal.
    destruct (key_tag_rename m Hinj) as [Hr1 Hr2].
    apply map_eq. intros k'. apply option_eq. intros v.
    rewrite key_tag_rename_list.
    2:{ apply (NoDup_fmap_2_strong (λ e : string * yaml.Node, default e.1 (flow.key_tag e.1))).
        - intros [k1 v1] [k2 v2] Hs1%Hin2 Hs2%Hin2 Heq. simpl in *.
          assert (k1 = k2) as -> by (apply Hinj; eauto). congruence.
        - rewrite Hsecond. apply NoDup_map_to_list. }
    split.
    + intros [(e & He%Hin2 & Hk & Hev)|[_ Hk]]; [|by rewrite lookup_empty in Hk].
      rewrite <- Hk, <- Hev. by apply Hr1.
    + intros Hk. left. destruct (Hr2 k' v Hk) as (k & Hk' & Hm).
      exists (k, v). split; [by apply Hin2 | done].
  - rewrite key_tag_search_none.
    2:{ intros k Hk. destruct (flow.key_tag k) eqn:Hr; [|done].
        destruct Hnone. exists k. by rewrite Hr. }
    rewrite key_tag_search_list_none; [done|].
    intros e He%Hin1. destruct (flow.key_tag e.1) eqn:Hr; [|done].
    destruct Hnone. exists e.1. rewrite Hr. eauto.
Qed.

End key_tags.

(** ** More on the dispatcher *)
Section dispatcher_scalars.
Context `{Dsl} `{!yaml.Helpers} `{!dynaml.API} `{!flow.Control}.

(** X9. Without the stub override, [_flow] returns every scalar as it is: a
    node that holds no map, no list and no expression, and whose text, if it
    is a string, embeds no expression or one that does not parse, is the
    result of its own flow, whatever its annotation; the state of the run is
    left alone and neither walker is called. *)
Theorem dispatcher_returns_a_plain_scalar
    (flowMap : yaml.Node → dynaml.Binding → bool → bool → M yaml.Node)
    (flowList : yaml.Node → dynaml.Binding → bool → M yaml.Node)
    (root : yaml.Node) (env : dynaml.Binding) (enforceTemplate : bool)
    (st : dynaml.State) :
  flow.is_map (yaml.Value root) = false →
  (∀ l, yaml.Value root ≠ yaml.VList l) →
  flow.is_expr (yaml.Value root) = false →
  (∀ s, yaml.Value root = yaml.VString s →
        flow.is_expr (yaml.Value
          (flow.FlowString root
             match yaml.RedirectPath root with
             | Some r => dynaml.RedirectOverwrite env r
             | None => env
             end).1) = false) →
  flow._flow flowMap flowList root env false enforceTemplate st = Ok (root, st).
Proof.
  intros Hmap Hlist Hexpr Hstr. unfold flow._flow.
  unfold mbind, M_bind, bind, mret, M_ret, ret.
  assert (∀ m f r d k, flow._flow_override root
            match yaml.RedirectPath root with
            | Some r => dynaml.RedirectOverwrite env r
            | None => env
            end false m f r d k = root) as Hover.
  { intros. unfold flow._flow_override. by rewrite !andb_false_r. }
  destruct (negb (yaml.ReplaceFlag root)); [|by rewrite Hover].
  rewrite Hexpr. simpl negb. rewrite andb_true_l.
  destruct (yaml.Merged' root); [done|].
  destruct (yaml.Value root) as [| | | |s|l|m| |] eqn:Hv; try done;
    try by rewrite Hover.
  - rewrite (Hstr s eq_refl). by rewrite Hover.
  - by destruct (Hlist l).
Qed.

(** X10. The stub override of [_flow].  It leaves the node alone when the
    binding forbids merging, when the stubs hold no node at the stub path,
    when the node found there is flagged DEFAULT, and when the node to
    override is flagged INJECTED.  When it applies, the result holds the value
    of the stub node (of its substitution, for a dynamic one), under the key
    name of the overridden node if that has one, and it is flagged as
    replaced when the overridden node was. *)
Theorem stub_override_takes_the_stub_value
    (root : yaml.Node) (env : dynaml.Binding) (shouldOverride merged : bool)
    (flags : yaml.NodeFlags) (replace : bool) (redirect : option (list string))
    (keyName : string) :
  (dynaml.NoMerge env = true →
   flow._flow_override root env shouldOverride merged flags replace redirect keyName = root)
  ∧ (dynaml.FindInStubs env (dynaml.StubPath env) = None →
     flow._flow_override root env shouldOverride merged flags replace redirect keyName = root)
  ∧ (∀ overridden,
       dynaml.FindInStubs env (dynaml.StubPath env) = Some overridden →
       yaml.Default (yaml.Flags overridden) = true →
       flow._flow_override root env shouldOverride merged flags replace redirect keyName
       = root)
  ∧ (yaml.Injected (yaml.Flags root) = true →
     flow._flow_override root env shouldOverride merged flags replace redirect keyName = root)
  ∧ (∀ overridden,
       merged = false → yaml.StandardOverride root = true → shouldOverride = true →
       dynaml.NoMerge env = false →
       dynaml.FindInStubs env (dynaml.StubPath env) = Some overridden →
       yaml.Default (yaml.Flags overridden) = false →
       yaml.Injected (yaml.Flags root) = false →
       let result :=
         flow._flow_override root env shouldOverride merged flags replace redirect keyName in
       yaml.Value result = yaml.Value (flow.substituteNode overridden).1
       ∧ yaml.SourceName result = yaml.SourceName (flow.substituteNode overridden).1
       ∧ yaml.KeyName result
         = (if String.eqb keyName ""
            then yaml.KeyName (flow.substituteNode overridden).1 else keyName)
       ∧ (replace = true → yaml.ReplaceFlag result = true)).
Proof.
  unfold flow._flow_override. split; [|split; [|split; [|split]]].
  - intros ->. by rewrite andb_false_r.
  - intros ->. by destruct (_ && _).
  - intros overridden -> ->. by destruct (_ && _).
  - intros ->. destruct (_ && _); [|done].
    destruct (dynaml.FindInStubs _ _); [|done]. by rewrite andb_false_r.
  - intros overridden -> -> -> -> -> -> ->.
    cbn [negb andb]. set (sub := (flow.substituteNode overridden).1).
    destruct sub as [v s a]. unfold yaml.KeyName, yaml.ReplaceFlag, yaml.KeyNameNode,
      yaml.AddKeyName.
    destruct (String.eqb keyName "") eqn:Hk; cbn [negb];
      destruct replace; try done; by destruct redirect.
Qed.

End dispatcher_scalars.

(** ** Sorted keys *)

Lemma GetSortedKeys_Permutation {A} (m : gmap string A) :
  yaml.GetSortedKeys m ≡ₚ (map_to_list m).*1.
Proof. unfold yaml.GetSortedKeys. apply merge_sort_Permutation. Qed.

Lemma elem_of_GetSortedKeys {A} (m : gmap string A) (k : string) :
  k ∈ yaml.GetSortedKeys m ↔ is_Some (m !! k).
Proof.
  rewrite GetSortedKeys_Permutation, list_elem_of_fmap. split.
  - intros ([k' x] & -> & Hx%elem_of_map_to_list). eauto.
  - intros [x Hx]. exists (k, x). split; [done|]. by apply elem_of_map_to_list.
Qed.

Lemma length_GetSortedKeys {A} (m : gmap string A) :
  length (yaml.GetSortedKeys m) = size m.
Proof. by rewrite GetSortedKeys_Permutation, length_fmap, length_map_to_list. Qed.

Lemma NoDup_GetSortedKeys {A} (m : gmap string A) : NoDup (yaml.GetSortedKeys m).
Proof. rewrite GetSortedKeys_Permutation. apply NoDup_fst_map_to_list. Qed.

Section map_entries.
Context `{Dsl} `{!yaml.Helpers} `{!dynaml.API} `{!flow.Control}.

(** One round of the loop over the keys of [flowMap]: where the entry goes. *)
Lemma flowMap_entry_accounts _flow rootMap l shouldOverride mergekey acc key st acc' st' :
  flow.flowMap_entry _flow rootMap l shouldOverride mergekey acc key st = Ok (acc', st') →
  is_Some (rootMap !! key)
  ∧ (key ≠ mergekey ∨ is_Some (flow.l_mergeval l) →
     is_Some (acc'.1 !! key) ∨ is_Some (acc'.2 !! key))
  ∧ (∀ k, is_Some (acc.1 !! k) → is_Some (acc'.1 !! k))
  ∧ (∀ k, is_Some (acc.2 !! k) → is_Some (acc'.2 !! k))
  ∧ (∀ k, is_Some (acc'.1 !! k) → is_Some (acc.1 !! k) ∨ k = key)
  ∧ (∀ k, is_Some (acc'.2 !! k) → is_Some (acc.2 !! k) ∨ k = key).
Proof.
  unfold flow.flowMap_entry. destruct (rootMap !! key) as [val|]; [|done].
  unfold mbind, M_bind, bind, mret, M_ret, ret.
  destruct (String.eqb_spec key mergekey) as [->|Hne].
  - destruct (flow.l_mergeval l) as [mv|]; simpl.
    + destruct (negb (yaml.Undefined mv)); intros ?; simplify_eq/=;
        (split; [eauto|]); (split; [intros _; rewrite lookup_insert_eq; eauto|]);
        repeat split; intros k; destruct (decide (mergekey = k)) as [->|];
        rewrite ?lookup_insert_eq, ?lookup_insert_ne by done; eauto.
    + intros ?; simplify_eq/=. split; [eauto|]. split; [by intros [|[? ?]]|].
      repeat split; eauto.
  - set (m := if flow.l_processed l then _ else _).
    destruct (m st) as [[[val'|] st1]| |] eqn:Hm; try done.
    + destruct (negb (yaml.Undefined val')); intros ?; simplify_eq/=;
        (split; [eauto|]); (split; [intros _; rewrite lookup_insert_eq; eauto|]);
        repeat split; intros k; destruct (decide (key = k)) as [->|];
        rewrite ?lookup_insert_eq, ?lookup_insert_ne by done; eauto.
    + exfalso. unfold m in Hm. destruct (flow.l_processed l); [|done].
      destruct (flow.flow _ _ _ _ _ st) as [[??]| |]; done.
Qed.

Lemma flowMap_entries_account _flow rootMap l shouldOverride mergekey keys :
  ∀ acc st acc' st',
    foldM (flow.flowMap_entry _flow rootMap l shouldOverride mergekey) keys acc st
    = Ok (acc', st') →
    (∀ k, k ∈ keys → is_Some (rootMap !! k))
    ∧ (∀ k, k ∈ keys → k ≠ mergekey ∨ is_Some (flow.l_mergeval l) →
            is_Some (acc'.1 !! k) ∨ is_Some (acc'.2 !! k))
    ∧ (∀ k, is_Some (acc.1 !! k) → is_Some (acc'.1 !! k))
    ∧ (∀ k, is_Some (acc.2 !! k) → is_Some (acc'.2 !! k))
    ∧ (∀ k, is_Some (acc'.1 !! k) → is_Some (acc.1 !! k) ∨ k ∈ keys)
    ∧ (∀ k, is_Some (acc'.2 !! k) → is_Some (acc.2 !! k) ∨ k ∈ keys).
Proof.
  induction keys as [|key keys IH]; intros acc st acc' st'; simpl.
  - unfold ret. intros ?; simplify_eq.
    repeat split; try (intros k Hk; by apply elem_of_nil in Hk); eauto.
  - unfold bind at 1.
    destruct (flow.flowMap_entry _ _ _ _ _ acc key st) as [[acc1 st1]| |] eqn:He; try done.
    intros Hrest. apply flowMap_entry_accounts in He as (He0 & He1 & He2 & He3 & He4 & He5).
    apply IH in Hrest as (Hr0 & Hr1 & Hr2 & Hr3 & Hr4 & Hr5).
    split; [|split; [|split; [|split; [|split]]]].
    + intros k [ -> |Hk]%elem_of_cons; eauto.
    + intros k [ -> |Hk]%elem_of_cons Hm; [|eauto].
      destruct (He1 Hm); eauto.
    + eauto.
    + eauto.
    + intros k Hk. destruct (Hr4 k Hk) as [Hk1|Hk1]; [|right; by right].
      destruct (He4 k Hk1) as [ | -> ]; [by left | right; by left].
    + intros k Hk. destruct (Hr5 k Hk) as [Hk1|Hk1]; [|right; by right].
      destruct (He5 k Hk1) as [ | -> ]; [by left | right; by left].
Qed.

(** X11. The loop over the keys of [flowMap] loses no entry.  When it ends,
    every key of the map other than the merge key is a key of [newMap] or of
    [undefined] (the entries that are handed to the control handling), and so
    is the merge key when a merge value is left for it.  [newMap] holds
    nothing but the entries it held before the loop and keys of the map;
    [undefined] holds keys of the map only. *)
Theorem flowMap_accounts_for_every_entry (_flow : flow.FlowFn)
    (rootMap : gmap string yaml.Node) (l : flow.MapLocals) (shouldOverride : bool)
    (mergekey : string) (newMap0 newMap undefined : gmap string yaml.Node)
    (st st' : dynaml.State) :
  foldM (flow.flowMap_entry _flow rootMap l shouldOverride mergekey)
    (yaml.GetSortedKeys rootMap) (newMap0, ∅) st
  = Ok ((newMap, undefined), st') →
  (∀ k, is_Some (rootMap !! k) → k ≠ mergekey ∨ is_Some (flow.l_mergeval l) →
        is_Some (newMap !! k) ∨ is_Some (undefined !! k))
  ∧ (∀ k, is_Some (newMap0 !! k) → is_Some (newMap !! k))
  ∧ (∀ k, is_Some (newMap !! k) → is_Some (newMap0 !! k) ∨ is_Some (rootMap !! k))
  ∧ (∀ k, is_Some (undefined !! k) → is_Some (rootMap !! k)).
Proof.
  intros Hloop.
  apply flowMap_entries_account in Hloop as (_ & Hl1 & Hl2 & _ & Hl4 & Hl5).
  simpl in *. split; [|split; [|split]].
  - intros k Hk Hm. apply Hl1; [by apply elem_of_GetSortedKeys | done].
  - done.
  - intros k Hk. destruct (Hl4 k Hk) as [|Hk'%elem_of_GetSortedKeys]; eauto.
  - intros k Hk. destruct (Hl5 k Hk) as [Hk'|Hk'%elem_of_GetSortedKeys]; [|done].
    rewrite lookup_empty in Hk'. by destruct Hk'.
Qed.

End map_entries.

(** ** More on the walkers *)
Section walkers_more.
Context `{Dsl} `{!yaml.Helpers} `{!dynaml.API} `{!flow.Control}.

Lemma processMerges_entries_plain (_flow : flow.FlowFn) orig root env entries :
  Forall (λ val, yaml.UnresolvedListEntryMerge val = None) entries →
  ∀ l st, flow.p_break l = false →
    foldM (flow.processMerges_entry _flow orig root env) entries l st
    = Ok (flow.mkMergeLocals (flow.p_flags l) (flow.p_tag l)
            (flow.p_spliced l ++ map (λ val, (flow.ProcessKeyTag val).1) entries)%list
            (flow.p_process l) (flow.p_merged l)
            (last_key_tag (flow.p_keyName l) entries)
            (flow.p_replaced l) (flow.p_redirectPath l) (flow.p_template l) false, st).
Proof.
  induction 1 as [|val entries Hval _ IH]; intros l st Hb; simpl.
  - unfold ret. rewrite app_nil_r. destruct l; simpl in *; by subst.
  - unfold bind at 1. unfold flow.processMerges_entry at 1. rewrite Hb, Hval.
    unfold mret, M_ret, ret. unfold flow.processMerges_append.
    destruct (flow.ProcessKeyTag val) as [val' newKey] eqn:Hp.
    rewrite IH by done. simpl. by rewrite <- app_assoc.
Qed.

Lemma processMerges_controls_plain (_flow : flow.FlowFn) env spliced :
  Forall (λ val, dynaml.IsControl val env = (false, None)) spliced →
  ∀ acc st,
    foldM (flow.processMerges_control _flow env) spliced acc st
    = Ok ((acc.1 ++ spliced)%list, acc.2, st).
Proof.
  induction 1 as [|val spliced Hval _ IH]; intros [processed process] st; simpl.
  - unfold ret. by rewrite app_nil_r.
  - unfold bind at 1. unfold flow.processMerges_control at 1. rewrite Hval.
    unfold mret, M_ret, ret. rewrite IH. simpl. by rewrite <- app_assoc.
Qed.

(** X12. [processMerges] on a list that holds no inline merge and no control
    and whose entries have one key tag at most, outside a template: the
    entries are handed on in their order, each with its key tag removed, to
    be processed; the list does not count as merged, it is replaced or
    redirected as the list node says, the flags are those inherited from the
    stub and the tag is that of the list node.  [_flow] is not called and the
    state of the run is left alone.  What is left of an entry, and the key
    name, do not depend on the order in which the keys of the entry are
    visited. *)
Theorem processMerges_hands_plain_entries_on (_flow : flow.FlowFn) (orig : yaml.Node)
    (root : list yaml.Node) (env : dynaml.Binding) (st : dynaml.State) :
  Forall (λ val, yaml.UnresolvedListEntryMerge val = None) root →
  Forall (λ val, dynaml.IsControl (flow.ProcessKeyTag val).1 env = (false, None)) root →
  Forall one_key_tag root →
  flow.processMerges _flow orig root env false st
  = Ok ((yaml.VList (map (λ val, (flow.ProcessKeyTag val).1) root), true,
         yaml.ReplaceFlag orig, yaml.RedirectPath orig,
         last_key_tag (yaml.KeyName orig) root, false,
         (flow.get_inherited_flags env).1,
         yaml.Annotation_Tag (yaml.GetAnnotation orig),
         (flow.get_inherited_flags env).2), st)
  ∧ ∀ val m first second,
      val ∈ root → yaml.Value val = yaml.VMap m →
      first ≡ₚ map_to_list m → second ≡ₚ map_to_list m →
      ProcessKeyTag_visiting first second val = flow.ProcessKeyTag val.
Proof.
  intros Hmerge Hcontrol Hone. split.
  - unfold flow.processMerges.
    destruct (flow.get_inherited_flags env) as [flags stub].
    unfold mbind, M_bind, bind at 1.
    rewrite (processMerges_entries_plain _ _ _ _ _ Hmerge) by done. simpl.
    unfold bind at 1. unfold bind at 1.
    rewrite processMerges_controls_plain by by apply Forall_fmap.
    done.
  - intros val m first second Hval Hv Hfirst Hsecond.
    rewrite Forall_forall in Hone. by eapply ProcessKeyTag_any_order; [apply Hone|..].
Qed.

End walkers_more.

Section map_merge_and_injection.
Context `{Dsl} `{!yaml.Helpers} `{!dynaml.API} `{!flow.Control}.

(** X13. A map whose merge value is undefined is undefined.  When the value
    under the merge key ([<<], or the alternative key when [<<] is absent)
    flows to an undefined node, [flowMap] returns the map node marked
    undefined, with its value and its entries untouched: no entry is flowed
    and no stub is injected. *)
Theorem flowMap_undefined_merge_value (_flow : flow.FlowFn) (root : yaml.Node)
    (rootMap : gmap string yaml.Node) (env : dynaml.Binding)
    (shouldOverride template : bool) (mergeval base : yaml.Node)
    (st st1 : dynaml.State) :
  yaml.Value root = yaml.VMap rootMap →
  rootMap !! "<<" = Some mergeval ∧ rootMap !! yaml.MERGEKEY = None
  ∨ rootMap !! "<<" = None ∧ rootMap !! yaml.MERGEKEY = Some mergeval →
  _flow mergeval (dynaml.WithScope env rootMap) false false st = Ok (base, st1) →
  yaml.Undefined base = true →
  flow.flowMap _flow root env shouldOverride template st
  = Ok (yaml.UndefinedNode root, st1)
  ∧ yaml.Value (yaml.UndefinedNode root) = yaml.VMap rootMap
  ∧ yaml.Undefined (yaml.UndefinedNode root) = true.
Proof.
  intros Hv Hkeys Hflow Hu. split; [|by destruct root].
  unfold flow.flowMap. destruct (flow.get_inherited_flags env) as [flags stub].
  rewrite Hv.
  assert (∀ l, flow.l_env l = dynaml.WithScope env rootMap →
    flow.flowMap_merge _flow root l mergeval st = Ok (inl (yaml.UndefinedNode root), st1))
    as Hmerge.
  { intros l Hl. unfold flow.flowMap_merge. unfold mbind, M_bind, bind.
    by rewrite Hl, Hflow, Hu. }
  destruct Hkeys as [[-> ->]|[-> ->]]; simpl;
    unfold mbind, M_bind, bind; by rewrite Hmerge.
Qed.

(** X14. The stub injection of [flowMap] never overwrites an entry: every
    entry of [newMap] is an entry of the result.  What it adds are entries
    of the stub map flagged INJECT, each under its own key, which [newMap] did
    not hold, holding the stub entry (its substitution, for a dynamic one)
    flagged INJECT and INJECTED; and every such entry of the stub whose key
    [newMap] does not hold is added.  For a merged map, without a stub, for a
    stub that is no map, and with the flag INJECTED set, nothing is
    added. *)
Theorem flowMap_inject_adds_absent_entries (stub : option yaml.Node) (merged : bool)
    (flags : yaml.NodeFlags) (newMap : gmap string yaml.Node) :
  let result := (flow.flowMap_inject stub merged flags newMap).2 in
  (∀ k v, newMap !! k = Some v → result !! k = Some v)
  ∧ (∀ k v, result !! k = Some v → newMap !! k = None →
       merged = false ∧ yaml.Injected flags = false
       ∧ ∃ s m e, stub = Some s ∧ yaml.Value s = yaml.VMap m ∧ m !! k = Some e
                  ∧ yaml.Inject (yaml.Flags e) = true
                  ∧ v = yaml.AddFlags (flow.substituteNode e).1
                          (Z.lor yaml.FLAG_INJECT yaml.FLAG_INJECTED))
  ∧ (∀ s m k e, merged = false → yaml.Injected flags = false →
       stub = Some s → yaml.Value s = yaml.VMap m → m !! k = Some e →
       yaml.Inject (yaml.Flags e) = true → newMap !! k = None →
       result !! k = Some (yaml.AddFlags (flow.substituteNode e).1
                             (Z.lor yaml.FLAG_INJECT yaml.FLAG_INJECTED))).
Proof.
  assert (∀ (m : gmap string yaml.Node) k,
    map_fold (λ k v (newMap : gmap string yaml.Node),
        if yaml.Inject (yaml.Flags v) && flow.is_none (newMap !! k)
        then <[k := yaml.AddFlags (flow.substituteNode v).1
                      (Z.lor yaml.FLAG_INJECT yaml.FLAG_INJECTED)]> newMap
        else newMap) newMap m !! k
    = match newMap !! k with
      | Some v => Some v
      | None =>
          match m !! k with
          | Some e =>
              if yaml.Inject (yaml.Flags e)
              then Some (yaml.AddFlags (flow.substituteNode e).1
                           (Z.lor yaml.FLAG_INJECT yaml.FLAG_INJECTED))
              else None
          | None => None
          end
      end) as Hfold.
  { intros m. induction m as [|k0 e m Hk0 Hfirst IH] using map_first_key_ind; intros k.
    - rewrite map_fold_empty, lookup_empty. by destruct (newMap !! k).
    - rewrite map_fold_insert_first_key by done.
      set (rest := map_fold _ newMap m) in *.
      destruct (decide (k0 = k)) as [->|Hne].
      + rewrite lookup_insert_eq. rewrite (IH k), Hk0.
        destruct (newMap !! k) as [v|] eqn:Hv.
        * rewrite andb_false_r. by rewrite IH, Hv.
        * simpl. destruct (yaml.Inject (yaml.Flags e)); simpl.
          -- by rewrite lookup_insert_eq.
          -- by rewrite IH, Hv, Hk0.
      + rewrite (lookup_insert_ne m) by done.
        destruct (_ && _); [rewrite lookup_insert_ne by done|]; apply IH. }
  cbv zeta. unfold flow.flowMap_inject.
  destruct merged;
    [by split; [|split; intros; simplify_eq/=; congruence]|].
  destruct stub as [s|];
    [|by split; [|split; intros; simplify_eq/=; congruence]].
  destruct (yaml.Injected flags) eqn:Hinj; simpl in *;
    [by split; [|split; intros; simplify_eq/=; congruence]|].
  destruct (yaml.Value s) as [| | | | | |m| |] eqn:Hs;
    try by split; [|split; intros; simplify_eq/=; congruence].
  simpl. split; [|split].
  - intros k v Hk. by rewrite Hfold, Hk.
  - intros k v Hk Hnone. rewrite Hfold, Hnone in Hk.
    destruct (m !! k) as [e|] eqn:He; [|done].
    destruct (yaml.Inject (yaml.Flags e)) eqn:Hi; [|done]. simplify_eq.
    split; [done|]. split; [done|]. by exists s, m, e.
  - intros s' m' k e _ _ ? Hs' He Hi Hnone. simplify_eq.
    rewrite Hs in Hs'. injection Hs' as <-.
    by rewrite Hfold, Hnone, He, Hi.
Qed.

(** X15. The pass that finds an expression in a string only parses it.  For
    a string node that is not merged and whose embedded text parses, [_flow]
    returns the node with the expression as its value, source name and
    annotation as they were; the expression is not evaluated, the stub
    override is not consulted whatever [shouldOverride] says, and the state
    of the run is left alone. *)
Theorem dispatcher_parses_an_embedded_expression
    (flowMap : yaml.Node → dynaml.Binding → bool → bool → M yaml.Node)
    (flowList : yaml.Node → dynaml.Binding → bool → M yaml.Node)
    (root : yaml.Node) (s sub : string) (expr : Expression) (env : dynaml.Binding)
    (shouldOverride enforceTemplate : bool) (st : dynaml.State) :
  yaml.Value root = yaml.VString s →
  yaml.Merged root = false → yaml.RedirectPath root = None →
  yaml.EmbeddedDynaml root (dynaml.InterpolationEnabled env) = Some sub →
  dynaml.Parse sub (dynaml.Path env) (dynaml.StubPath env) = inl expr →
  flow._flow flowMap flowList root env shouldOverride enforceTemplate st
  = Ok (yaml.AnnotatedNode (yaml.VExpr expr) (yaml.SourceName root)
          (yaml.GetAnnotation root), st).
Proof.
  intros Hv Hmerged Hredirect Hsub Hparse. unfold flow._flow.
  assert (yaml.ReplaceFlag root = false ∧ yaml.Merged' root = false) as [Hr Hm'].
  { unfold yaml.Merged, yaml.Annotation_Merged in Hmerged.
    apply orb_false_iff in Hmerged as [Hm _]. by apply orb_false_iff in Hm as [Hm Hr]. }
  rewrite Hr, Hredirect, Hm', Hv. cbn [negb flow.is_expr andb].
  unfold flow.FlowString. rewrite Hsub, Hparse. done.
Qed.

End map_merge_and_injection.

(** ** More on the [for] control *)
Section for_more.
Context `{Dsl} `{!yaml.Helpers} `{!dynaml.API} `{!fmt.Fmt}.

(** X16. [Less] is a strict order on the pairs of variable name and index
    name, as [sort.Sort] requires of it: no range is less than itself, of two
    ranges at most one is less than the other, less than is transitive, and
    two ranges neither of which is less than the other have the same
    variable name and the same index name. *)
Theorem Less_is_a_strict_order :
  (∀ a, control.Less a a = false)
  ∧ (∀ a b, control.Less a b = true → control.Less b a = false)
  ∧ (∀ a b c, control.Less a b = true → control.Less b c = true →
              control.Less a c = true)
  ∧ (∀ a b, control.Less a b = false → control.Less b a = false →
            control.name a = control.name b ∧ control.index a = control.index b).
Proof.
  split; [|split; [|split]].
  - intros a. rewrite Less_compare_key.
    by rewrite (proj2 (compare_key_Eq a a)).
  - intros a b Hab. by destruct (Less_total a b) as [Hf|Hf]; [congruence|].
  - intros a b c. rewrite !Less_compare_key.
    rewrite (compare_key_antisym b a), (compare_key_antisym c b), (compare_key_antisym c a).
    destruct (compare_key b a) eqn:Hba; try done.
    destruct (compare_key c b) eqn:Hcb; try done.
    by rewrite (compare_key_Lt_trans _ _ _ Hcb Hba).
  - intros a b. rewrite !Less_compare_key, (compare_key_antisym a b).
    destruct (compare_key a b) eqn:Hab; try done. intros _ _.
    by apply compare_key_Eq.
Qed.

(** The two iterators answer at every index below their length. *)
Lemma newListIterator_answers values : answers (control.newListIterator values).
Proof.
  intros i Hi. simpl in *. split; [by apply lookup_lt_is_Some|eauto].
Qed.

Lemma newMapIterator_answers values : answers (control.newMapIterator values).
Proof.
  intros i Hi. simpl in *. rewrite <- length_GetSortedKeys in Hi.
  apply lookup_lt_is_Some in Hi as [k Hk]. rewrite Hk. simpl.
  split; [|eauto]. apply elem_of_GetSortedKeys. by eapply list_elem_of_lookup_2.
Qed.

(** X17. The iterators that [controlIterator] builds.  A list iterator
    answers at index [i] with [i] and the [i]-th value, for every [i] below
    the length of the list, and panics on a value beyond.  A map iterator
    answers at every index below the size of the map with a key of the map
    and the value under that key, different indices get different keys, and
    the keys come in the order of [GetSortedKeys]; beyond the size it
    panics.  So each of the two visits every entry exactly once. *)
Theorem iterators_visit_every_entry_once :
  (∀ values i,
      control.iterator_Index (control.newListIterator values) i
      = Some (yaml.VInt (Z.of_nat i))
      ∧ control.iterator_Value (control.newListIterator values) i = values !! i
      ∧ (is_Some (control.iterator_Value (control.newListIterator values) i)
         ↔ (i < control.iterator_Len (control.newListIterator values))%nat))
  ∧ (∀ values i,
      (i < control.iterator_Len (control.newMapIterator values))%nat →
      ∃ k v, yaml.GetSortedKeys values !! i = Some k
             ∧ control.iterator_Index (control.newMapIterator values) i
               = Some (yaml.VString k)
             ∧ control.iterator_Value (control.newMapIterator values) i = Some v
             ∧ values !! k = Some v)
  ∧ (∀ values i j k,
      control.iterator_Index (control.newMapIterator values) i = Some (yaml.VString k) →
      control.iterator_Index (control.newMapIterator values) j = Some (yaml.VString k) →
      i = j)
  ∧ (∀ values k, is_Some (values !! k) →
      ∃ i, (i < control.iterator_Len (control.newMapIterator values))%nat
           ∧ control.iterator_Index (control.newMapIterator values) i
             = Some (yaml.VString k))
  ∧ (∀ values i,
      (control.iterator_Len (control.newMapIterator values) ≤ i)%nat →
      control.iterator_Index (control.newMapIterator values) i = None
      ∧ control.iterator_Value (control.newMapIterator values) i = None).
Proof.
  split; [|split; [|split; [|split]]].
  - intros values i. simpl. split; [done|]. split; [done|]. apply lookup_lt_is_Some.
  - intros values i Hi. simpl in *. rewrite <- length_GetSortedKeys in Hi.
    apply lookup_lt_is_Some in Hi as [k Hk].
    assert (is_Some (values !! k)) as [v Hv].
    { apply elem_of_GetSortedKeys. by eapply list_elem_of_lookup_2. }
    exists k, v. by rewrite Hk.
  - intros values i j k. simpl.
    destruct (yaml.GetSortedKeys values !! i) as [ki|] eqn:Hi; [|done].
    destruct (yaml.GetSortedKeys values !! j) as [kj|] eqn:Hj; [|done].
    simpl. intros ??; simplify_eq.
    by eapply (NoDup_lookup _ _ _ _ (NoDup_GetSortedKeys values)).
  - intros values k Hk. apply elem_of_GetSortedKeys, list_elem_of_lookup in Hk as [i Hi].
    exists i. simpl. rewrite Hi. split; [|done].
    rewrite <- length_GetSortedKeys. by eapply lookup_lt_Some.
  - intros values i Hi. simpl in *. rewrite <- length_GetSortedKeys in Hi.
    by rewrite (lookup_ge_None_2 _ _ Hi).
Qed.

End for_more.

Section for_empty_range.
Context `{Dsl} `{!yaml.Helpers} `{!dynaml.API} `{!fmt.Fmt}.

Lemma controlIteration_iterator name index it r :
  control.controlIteration name index it = inl r →
  control.iterator_ r = it ∧ control.current r = 0%nat ∧ control.name r = name.
Proof.
  unfold control.controlIteration. repeat case_match; intros ?; simplify_eq; done.
Qed.

Lemma controlIterator_empty name values :
  empty_values values → control.controlIterator name values = inl None.
Proof.
  unfold control.controlIterator. intros [-> | ->]; [done|].
  by rewrite bool_decide_true by apply map_size_empty.
Qed.

Lemma controlIterator_fresh name values it :
  control.controlIterator name values = inl (Some it) →
  answers it ∧ (0 < control.iterator_Len it)%nat.
Proof.
  unfold control.controlIterator.
  destruct (yaml.Value values) as [| | | | |l|m| |]; try done;
    case_bool_decide as Hn; intros ?; simplify_eq.
  - split; [apply newListIterator_answers | simpl; lia].
  - split; [apply newMapIterator_answers | simpl; lia].
Qed.

Lemma map_iteration_iterator v values r :
  control.map_iteration v values = inl r →
  control.current r = 0%nat
  ∧ ∃ name, control.controlIterator name values = inl (control.iterator_ r).
Proof.
  unfold control.map_iteration. intros Hr.
  repeat case_match; simplify_eq;
    match goal with
    | Hc : control.controlIteration _ _ _ = inl _ |- _ =>
        apply controlIteration_iterator in Hc as (<- & ? & ?)
    end; eauto.
Qed.

Lemma list_iteration_iterator entry r :
  control.list_iteration entry = inl r →
  control.current r = 0%nat
  ∧ ∃ spec values name,
      yaml.Value entry = yaml.VMap spec ∧ spec !! "values" = Some values
      ∧ control.controlIterator name values = inl (control.iterator_ r).
Proof.
  unfold control.list_iteration. intros Hr.
  destruct (yaml.Value entry) as [| | | | | |spec| |]; try done.
  repeat case_match; simplify_eq;
    match goal with
    | Hc : control.controlIteration _ _ _ = inl _ |- _ =>
        apply controlIteration_iterator in Hc as (<- & ? & ?)
    end; eauto 10.
Qed.

(** Where the ranges of [flowFor] come from. *)
Lemma for_ranges_origin range_order val ranges r :
  control.for_ranges range_order val = inl ranges → r ∈ ranges →
  (∃ def e, yaml.Value val = yaml.VMap def ∧ e ∈ range_order def
            ∧ control.map_iteration e.1 e.2 = inl r)
  ∨ (∃ l entry, yaml.Value val = yaml.VList l ∧ entry ∈ l
                ∧ control.list_iteration entry = inl r).
Proof.
  intros Hranges Hr.
  destruct (yaml.Value val) as [| | | | |l|def| |] eqn:Hv;
    try (unfold control.for_ranges in Hranges; by rewrite Hv in Hranges).
  - right. unfold control.for_ranges in Hranges. rewrite Hv in Hranges.
    apply collect_inl in Hranges as (rs & Hrs & ->).
    rewrite app_nil_r, elem_of_reverse in Hr.
    apply list_elem_of_lookup in Hr as [i Hi].
    destruct (Forall2_lookup_r _ _ _ _ _ Hrs Hi) as (entry & Hentry & Hit).
    exists l, entry. split; [done|]. split; [by eapply list_elem_of_lookup_2 | done].
  - left. apply (for_ranges_map _ _ _ _ Hv) in Hranges as (its & Hits & ->).
    rewrite Sort_Permutation, reverse_Permutation in Hr.
    apply list_elem_of_lookup in Hr as [i Hi].
    destruct (Forall2_lookup_r _ _ _ _ _ Hits Hi) as (e & He & Hit).
    exists def, e. split; [done|]. split; [by eapply list_elem_of_lookup_2 | done].
Qed.

Lemma for_ranges_member_map range_order val def ranges e :
  yaml.Value val = yaml.VMap def →
  control.for_ranges range_order val = inl ranges → e ∈ range_order def →
  ∃ r, r ∈ ranges ∧ control.map_iteration e.1 e.2 = inl r.
Proof.
  intros Hv Hranges He.
  apply (for_ranges_map _ _ _ _ Hv) in Hranges as (its & Hits & ->).
  apply list_elem_of_lookup in He as [i Hi].
  destruct (Forall2_lookup_l _ _ _ _ _ Hits Hi) as (r & Hr & Hit).
  exists r. split; [|done].
  rewrite Sort_Permutation, reverse_Permutation. by eapply list_elem_of_lookup_2.
Qed.

Lemma for_ranges_member_list range_order val l ranges entry :
  yaml.Value val = yaml.VList l →
  control.for_ranges range_order val = inl ranges → entry ∈ l →
  ∃ r, r ∈ ranges ∧ control.list_iteration entry = inl r.
Proof.
  intros Hv Hranges He. unfold control.for_ranges in Hranges. rewrite Hv in Hranges.
  apply collect_inl in Hranges as (rs & Hrs & ->).
  apply list_elem_of_lookup in He as [i Hi].
  destruct (Forall2_lookup_l _ _ _ _ _ Hrs Hi) as (r & Hr & Hit).
  exists r. split; [|done].
  rewrite app_nil_r, elem_of_reverse. by eapply list_elem_of_lookup_2.
Qed.

Lemma for_inp_nil ranges :
  (∃ r, r ∈ ranges ∧ control.iterator_ r = None) →
  ∀ inp, control.for_inp ranges inp = None.
Proof.
  induction ranges as [|r0 ranges IH]; intros (r & Hr & Hnil) inp.
  - by apply elem_of_nil in Hr.
  - simpl. apply elem_of_cons in Hr as [<-|Hr].
    + unfold control.iteration_Value. by rewrite Hnil.
    + destruct (control.iteration_Value r0), (control.iteration_Index r0); try done.
      apply IH. eauto.
Qed.

End for_empty_range.

Lemma size_ge_of_keys {A} (ks : list string) :
  ∀ m : gmap string A,
    NoDup ks → Forall (λ k, is_Some (m !! k)) ks → (length ks ≤ size m)%nat.
Proof.
  induction ks as [|k ks IH]; intros m Hnd Hks; simpl; [lia|].
  apply NoDup_cons in Hnd as [Hk Hnd]. apply Forall_cons in Hks as [[x Hx] Hks].
  rewrite <- (insert_delete_id m k x Hx), map_size_insert_None by apply lookup_delete_eq.
  apply le_n_S, IH; [done|]. apply Forall_forall. intros k' Hk'.
  rewrite lookup_delete_ne by (intros ->; done).
  by apply (proj1 (Forall_forall _ _) Hks).
Qed.

Section for_runs.
Context `{Dsl} `{!yaml.Helpers} `{!dynaml.API} `{!fmt.Fmt}.

Lemma controlIteration_inl name index it r :
  control.controlIteration name index it = inl r →
  control.namesyntax_Match name = true
  ∧ r = control.mkIteration name
          (if String.eqb index "" then "index-" +:+ name else index) 0 it.
Proof.
  unfold control.controlIteration, control.checkName.
  destruct (control.namesyntax_Match name); [|done]. simpl.
  destruct (String.eqb index ""); [by intros ?; simplify_eq|].
  destruct (control.namesyntax_Match index); simpl; [|done]. by intros ?; simplify_eq.
Qed.

(** X18. A control variable without values makes the [for] control panic.
    For a list or a map without entries [controlIterator] returns no iterator
    and no error, the range is built with the nil iterator, and the first
    round of the loop calls [Value] on it.  So when the control has passed
    its checks (no regular fields, resolved value, a resolved body, a mapkey
    that is a resolved template if there is one, well-formed variables), one
    variable of the map form or of the list form whose values are an empty
    list or an empty map ends [flowFor] in a panic. *)
Theorem flowFor_panics_on_an_empty_range
    (range_order : gmap string yaml.Node → list (string * yaml.Node))
    (fuel : nat) (val node body : yaml.Node) (fields opts : gmap string yaml.Node)
    (env : dynaml.Binding) (st : dynaml.State) (ranges : control.iterations) :
  size fields = 0%nat →
  dynaml.IsResolvedNode val env = true →
  opts !! "do" = Some body →
  dynaml.IsResolvedNode body env = true →
  match opts !! "mapkey" with
  | Some k => dynaml.IsResolvedNode k env = true ∧ flow.is_template (yaml.Value k) = true
  | None => True
  end →
  control.for_ranges range_order val = inl ranges →
  (∃ def v values, yaml.Value val = yaml.VMap def ∧ (v, values) ∈ range_order def
                   ∧ empty_values values)
  ∨ (∃ l entry spec values, yaml.Value val = yaml.VList l ∧ entry ∈ l
                            ∧ yaml.Value entry = yaml.VMap spec
                            ∧ spec !! "values" = Some values ∧ empty_values values) →
  control.flowFor range_order (S fuel) val node fields opts env st = Panic.
Proof.
  intros Hfields Hval Hdo Hbody Hmapkey Hranges Hempty.
  assert (∃ r, r ∈ ranges ∧ control.iterator_ r = None) as Hnil.
  { destruct Hempty as [(def & v & values & Hv & He & Hvalues)
                       |(l & entry & spec & values & Hv & He & Hspec & Hvalues & Hempty)].
    - destruct (for_ranges_member_map _ _ _ _ _ Hv Hranges He) as (r & Hr & Hit).
      exists r. split; [done|].
      apply map_iteration_iterator in Hit as (_ & name & Hit). simpl in Hit.
      rewrite controlIterator_empty in Hit by done. congruence.
    - destruct (for_ranges_member_list _ _ _ _ _ Hv Hranges He) as (r & Hr & Hit).
      exists r. split; [done|].
      apply list_iteration_iterator in Hit as (_ & spec' & values' & name & Hs & Hvs & Hit).
      rewrite Hspec in Hs. injection Hs as <-. rewrite Hvalues in Hvs.
      injection Hvs as <-. rewrite (controlIterator_empty _ _ Hempty) in Hit.
      congruence. }
  assert (∀ mapkey subst l,
    control.for_outer (S fuel) node body mapkey subst env ranges l st = Panic) as Hpanic.
  { intros. simpl. unfold mbind, M_bind, bind. unfold control.for_round.
    unfold mbind, M_bind, bind. by rewrite (for_inp_nil _ Hnil). }
  unfold control.flowFor. rewrite Hfields, Hval, Hdo, Hbody.
  rewrite bool_decide_true by done. cbn [negb].
  destruct (opts !! "mapkey") as [k|].
  - destruct Hmapkey as [-> Hk]. cbn [negb].
    destruct (yaml.Value k); try done. rewrite Hranges.
    unfold mbind, M_bind, bind. by rewrite Hpanic.
  - rewrite Hranges. unfold mbind, M_bind, bind. by rewrite Hpanic.
Qed.

(** X19. What a variable of the list form must look like.  When
    [list_iteration] accepts an entry, the entry is a map with a [name] field
    that holds a string, the name of the range, and a [values] field; it has
    no field besides [name], [values] and [index]; and the index name of the
    range is the string of the [index] field or, when there is none or it is
    empty, the default for the name.  The counter of the range starts at
    0. *)
Theorem list_iteration_accepts_known_fields_only (entry : yaml.Node)
    (r : control.iteration) :
  control.list_iteration entry = inl r →
  ∃ spec n values,
    yaml.Value entry = yaml.VMap spec
    ∧ spec !! "name" = Some n ∧ yaml.Value n = yaml.VString (control.name r)
    ∧ spec !! "values" = Some values
    ∧ (∀ k, is_Some (spec !! k) → k = "name" ∨ k = "values" ∨ k = "index")
    ∧ (control.index r = "index-" +:+ control.name r
       ∧ (spec !! "index" = None
          ∨ ∃ i, spec !! "index" = Some i ∧ yaml.Value i = yaml.VString "")
       ∨ control.index r ≠ ""
         ∧ ∃ i, spec !! "index" = Some i ∧ yaml.Value i = yaml.VString (control.index r))
    ∧ control.current r = 0%nat.
Proof.
  unfold control.list_iteration.
  destruct (yaml.Value entry) as [| | | | | |spec| |] eqn:Hentry; try done.
  destruct (spec !! "name") as [n|] eqn:Hname; [|done].
  set (name := match yaml.Value n with yaml.VString s => s | _ => "" end).
  destruct (match spec !! "index" with Some _ => _ | None => _ end)
    as [index|e] eqn:Hoindex; [|done].
  destruct (spec !! "values") as [values|] eqn:Hvalues; [|done].
  destruct (control.controlIterator name values) as [it|e]; [|done].
  destruct (_ || _) eqn:Hsize; [done|].
  apply orb_false_iff in Hsize as [Hlo Hhi].
  apply bool_decide_eq_false in Hlo, Hhi.
  destruct (if _ && _ then _ else _) as [k|] eqn:Hbad; [done|].
  destruct (control.controlIteration name index it) as [r'|e] eqn:Hit; [|done].
  intros ?; simplify_eq. apply controlIteration_inl in Hit as [Hmatch ->]. simpl.
  assert (yaml.Value n = yaml.VString name) as Hn.
  { unfold name in *. by destruct (yaml.Value n). }
  assert (index = "" ∧ (spec !! "index" = None
                        ∨ ∃ i, spec !! "index" = Some i ∧ yaml.Value i = yaml.VString "")
          ∨ index ≠ "" ∧ ∃ i, spec !! "index" = Some i ∧ yaml.Value i = yaml.VString index)
    as Hindex.
  { destruct (spec !! "index") as [i|]; [|left; simplify_eq; split; [done | by left]].
    destruct (yaml.Value i) eqn:Hi; simplify_eq.
    destruct (decide (index = "")) as [->|]; [left|right]; (split; [done|]); eauto. }
  exists spec, n, values. split; [done|]. split; [done|]. split; [done|].
  split; [done|]. split; [|split; [|done]].
  - intros k Hk. destruct (decide (k = "name")) as [|Hk1]; [by left|].
    destruct (decide (k = "values")) as [|Hk2]; [by right; left|].
    destruct (decide (k = "index")) as [|Hk3]; [by right; right|]. exfalso.
    assert (size spec = 3%nat) as Hsz.
    { pose proof (size_ge_of_keys ["name"; "values"; k] spec) as Hge. simpl in Hge.
      cut (3 ≤ size spec)%nat; [lia|]. apply Hge.
      - repeat first [apply NoDup_nil_2 | apply NoDup_cons_2;
          [rewrite ?elem_of_cons, ?elem_of_nil; intuition congruence|]].
      - repeat constructor; eauto. }
    destruct Hindex as [[-> _]|[Hne (i & Hi & _)]].
    + rewrite bool_decide_true in Hbad by done. simpl in Hbad.
      eapply find_none in Hbad; [|by apply list_elem_of_In, elem_of_GetSortedKeys].
      simpl in Hbad. apply negb_false_iff in Hbad.
      apply orb_true_iff in Hbad as [Hbad|Hbad%String.eqb_eq]; [|done].
      apply orb_true_iff in Hbad as [Hbad%String.eqb_eq|Hbad%String.eqb_eq]; done.
    + pose proof (size_ge_of_keys ["name"; "values"; "index"; k] spec) as Hge.
      simpl in Hge. cut (4 ≤ size spec)%nat; [lia|]. apply Hge.
      * repeat first [apply NoDup_nil_2 | apply NoDup_cons_2;
          [rewrite ?elem_of_cons, ?elem_of_nil; intuition congruence|]].
      * repeat constructor; eauto.
  - destruct Hindex as [[-> Hi]|[Hne Hi]].
    + left. done.
    + right. rewrite (proj2 (String.eqb_neq _ _) Hne). done.
Qed.

End for_runs.

Section for_plain_body.
Context `{Dsl} `{!yaml.Helpers} `{!dynaml.API} `{!fmt.Fmt}.

Lemma running_range_in_range r : running_range r → in_range r.
Proof.
  intros (it & Hit & _ & Hlt). split; [by rewrite Hit|].
  unfold radix, control.iteration_Len. by rewrite Hit.
Qed.

Lemma fresh_range_running r : fresh_range r → running_range r.
Proof. intros (Hc & it & Hit & Hans & Hlen). exists it. by rewrite Hc. Qed.

Lemma for_inp_running ranges :
  Forall running_range ranges → ∀ inp, is_Some (control.for_inp ranges inp).
Proof.
  induction 1 as [|r ranges (it & Hit & Hans & Hlt) _ IH]; intros inp; simpl; [eauto|].
  unfold control.iteration_Value, control.iteration_Index. rewrite Hit. simpl.
  destruct (Hans _ Hlt) as [[v ->] [i ->]]. apply IH.
Qed.

Lemma advance_running ranges :
  Forall running_range ranges →
  match control.advance ranges with
  | Some (Some ranges') =>
      position ranges' = S (position ranges) ∧ rounds ranges' = rounds ranges
      ∧ Forall running_range ranges'
  | Some None => S (position ranges) = rounds ranges
  | None => False
  end.
Proof.
  intros Hrun.
  assert (Forall in_range ranges) as Hin.
  { eapply Forall_impl; [done|]. apply running_range_in_range. }
  pose proof (advance_position ranges Hin) as Hadv.
  destruct (control.advance ranges) as [[ranges'|]|]; [|done..].
  destruct Hadv as (Hpos & Hin' & Hsame). split; [done|].
  split; [by rewrite (rounds_same_range _ _ Hsame)|].
  clear Hpos Hin. revert Hrun Hin'.
  induction Hsame as [|r r' ranges ranges' (_ & _ & Hit) _ IH]; [done|].
  intros [(it & Hr & Hans & _) Hrun]%Forall_cons [[_ Hlt] Hin']%Forall_cons.
  constructor; [|by apply IH].
  exists it. rewrite <- Hit. split; [done|]. split; [done|].
  unfold radix, control.iteration_Len in Hlt. by rewrite <- Hit, Hr in Hlt.
Qed.

Lemma for_round_plain node do_ env ranges l st :
  Forall running_range ranges →
  control.for_round node do_ None None env ranges l st
  = Ok (control.mkForLocals (control.resultlist l ++ [do_]) (control.resultmap l)
          (control.done l) (control.nested l), st).
Proof.
  intros Hrun. unfold control.for_round. unfold mbind, M_bind, bind.
  destruct (for_inp_running _ Hrun ∅) as [inp ->]. done.
Qed.

Lemma for_outer_plain node do_ env fuel :
  ∀ ranges l st,
    Forall running_range ranges → (rounds ranges ≤ fuel + position ranges)%nat →
    control.for_outer fuel node do_ None None env ranges l st
    = Ok (control.mkForLocals
            (control.resultlist l ++ replicate (rounds ranges - position ranges) do_)
            (control.resultmap l) (control.done l) (control.nested l), st).
Proof.
  induction fuel as [|fuel IH]; intros ranges l st Hrun Hfuel.
  - assert (position ranges < rounds ranges)%nat.
    { apply position_lt. eapply Forall_impl; [done|]. apply running_range_in_range. }
    lia.
  - simpl. unfold mbind, M_bind, bind at 1. rewrite for_round_plain by done.
    unfold bind at 1. pose proof (advance_running ranges Hrun) as Hadv.
    destruct (control.advance ranges) as [[ranges'|]|]; simpl; [| |done].
    + destruct Hadv as (Hpos & Hrounds & Hrun').
      rewrite IH by (try done; lia). simpl. rewrite Hrounds, Hpos.
      assert (position ranges < rounds ranges)%nat.
      { apply position_lt. eapply Forall_impl; [done|]. apply running_range_in_range. }
      replace (rounds ranges - position ranges)%nat
        with (S (rounds ranges - S (position ranges))) by lia.
      simpl. by rewrite <- app_assoc.
    + unfold mret, M_ret, ret.
      replace (rounds ranges - position ranges)%nat with 1%nat by lia. done.
Qed.

Lemma for_ranges_fresh range_order val ranges :
  control.for_ranges range_order val = inl ranges →
  Forall (λ r, is_Some (control.iterator_ r)) ranges →
  Forall fresh_range ranges.
Proof.
  intros Hranges Hsome. apply Forall_forall. intros r Hr.
  pose proof (proj1 (Forall_forall _ _) Hsome r Hr) as [it Hit].
  destruct (for_ranges_origin _ _ _ _ Hranges Hr)
    as [(def & e & _ & _ & Hmi)|(l & entry & _ & _ & Hli)].
  - apply map_iteration_iterator in Hmi as (Hc & name & Hci).
    rewrite Hit in Hci. apply controlIterator_fresh in Hci as [Hans Hlen].
    split; [done|]. by exists it.
  - apply list_iteration_iterator in Hli as (Hc & spec & values & name & _ & _ & Hci).
    rewrite Hit in Hci. apply controlIterator_fresh in Hci as [Hans Hlen].
    split; [done|]. by exists it.
Qed.

Lemma position_fresh ranges : Forall fresh_range ranges → position ranges = 0%nat.
Proof.
  induction 1 as [|r ranges [Hc _] _ IH]; simpl; [done|]. rewrite Hc, IH. lia.
Qed.

(** X20. A [for] control whose body is no template repeats the body.  When
    the control has passed its checks, has no mapkey, and every variable has
    an iterator (its values are a list or a map that is not empty), the
    result is a list that holds the body once for every tuple of values: as
    many times as the product of the numbers of values.  The loop ends within
    that many rounds, does not panic, and leaves the state of the run
    alone. *)
Theorem flowFor_repeats_a_plain_body
    (range_order : gmap string yaml.Node → list (string * yaml.Node))
    (fuel : nat) (val node body : yaml.Node) (fields opts : gmap string yaml.Node)
    (env : dynaml.Binding) (st : dynaml.State) (ranges : control.iterations) :
  size fields = 0%nat →
  dynaml.IsResolvedNode val env = true →
  opts !! "do" = Some body →
  dynaml.IsResolvedNode body env = true →
  flow.is_template (yaml.Value body) = false →
  opts !! "mapkey" = None →
  control.for_ranges range_order val = inl ranges →
  Forall (λ r, is_Some (control.iterator_ r)) ranges →
  (rounds ranges ≤ fuel)%nat →
  control.flowFor range_order fuel val node fields opts env st
  = Ok ((yaml.NewNode (yaml.VList (replicate (rounds ranges) body))
           (yaml.SourceName node), true), st).
Proof.
  intros Hfields Hval Hdo Hbody Htemplate Hmapkey Hranges Hsome Hfuel.
  pose proof (for_ranges_fresh _ _ _ Hranges Hsome) as Hfresh.
  assert (Forall running_range ranges) as Hrun.
  { eapply Forall_impl; [done|]. apply fresh_range_running. }
  unfold control.flowFor. rewrite Hfields, Hval, Hdo, Hbody, Hmapkey, Hranges.
  rewrite bool_decide_true by done. cbn [negb].
  assert (match yaml.Value body with yaml.VTemplate t => Some t | _ => None end = None)
    as -> by by destruct (yaml.Value body).
  unfold mbind, M_bind, bind.
  rewrite for_outer_plain by (try done; lia).
  rewrite (position_fresh _ Hfresh), Nat.sub_0_r. done.
Qed.

End for_plain_body.

(** ** Plain data is a fixed point of the flow *)
Section plain_data.
Context `{Dsl} `{!yaml.Helpers} `{!dynaml.API} `{!flow.Control}.

Lemma plain_annotation_fields a :
  plain_annotation a = true →
  yaml.merged a = false ∧ yaml.replace a = false ∧ yaml.redirectPath a = None
  ∧ yaml.undefined a = false ∧ yaml.failed a = false ∧ yaml.tag a = "".
Proof.
  unfold plain_annotation. rewrite !andb_true_iff, !negb_true_iff.
  intros [[[[[? ?] Hr] ?] ?] Ht%String.eqb_eq].
  by destruct (yaml.redirectPath a).
Qed.

Lemma plain_unfold n :
  plain n
  = plain_annotation (yaml.GetAnnotation n)
    && match yaml.Value n with
       | yaml.VMap m =>
           flow.is_none (m !! "<<") && flow.is_none (m !! yaml.MERGEKEY)
           && map_fold (λ k c acc, acc && (flow.is_none (flow.key_tag k) && plain c))
                true m
       | yaml.VList l => forallb plain l
       | yaml.VString _ =>
           flow.is_none (yaml.EmbeddedDynaml n true)
           && flow.is_none (yaml.EmbeddedDynaml n false)
       | yaml.VExpr _ => false
       | _ => true
       end.
Proof. by destruct n. Qed.

Lemma plain_node n :
  plain n = true →
  yaml.Merged' n = false ∧ yaml.ReplaceFlag n = false ∧ yaml.RedirectPath n = None
  ∧ yaml.Undefined n = false ∧ yaml.Failed n = false
  ∧ yaml.Annotation_Tag (yaml.GetAnnotation n) = ""
  ∧ flow.is_expr (yaml.Value n) = false.
Proof.
  rewrite plain_unfold. intros [Ha Hv]%andb_true_iff.
  apply plain_annotation_fields in Ha as (Hm & Hr & Hp & Hu & Hf & Ht).
  unfold yaml.Merged', yaml.ReplaceFlag, yaml.RedirectPath,
    yaml.Undefined, yaml.Failed, yaml.Annotation_Tag, yaml.Annotation_ReplaceFlag,
    yaml.Annotation_RedirectPath, yaml.Annotation_Undefined, yaml.Annotation_Failed.
  rewrite Hm, Hr, Hp, Hu, Hf, Ht. repeat split; try done.
  by destruct (yaml.Value n).
Qed.

Lemma plain_map n m :
  yaml.Value n = yaml.VMap m → plain n = true →
  m !! "<<" = None ∧ m !! yaml.MERGEKEY = None
  ∧ ∀ k c, m !! k = Some c → flow.key_tag k = None ∧ plain c = true.
Proof.
  intros Hv. rewrite plain_unfold, Hv. intros [_ Hm]%andb_true_iff.
  apply andb_true_iff in Hm as [Hkeys Hall]. apply andb_true_iff in Hkeys as [Hk1 Hk2].
  split; [by destruct (m !! "<<")|]. split; [by destruct (m !! yaml.MERGEKEY)|].
  rewrite (fold_andb_true (λ k c, flow.is_none (flow.key_tag k) && plain c)) in Hall.
  intros k c Hk. specialize (Hall k c Hk). simpl in Hall.
  apply andb_true_iff in Hall as [Hkt Hc]. split; [|done].
  by destruct (flow.key_tag k).
Qed.

Lemma plain_list n l :
  yaml.Value n = yaml.VList l → plain n = true → Forall (λ c, plain c = true) l.
Proof.
  intros Hv. rewrite plain_unfold, Hv. intros [_ Hl]%andb_true_iff.
  apply Forall_forall. intros c Hc. rewrite forallb_forall in Hl.
  by apply Hl, list_elem_of_In.
Qed.

Lemma plain_string n s b :
  yaml.Value n = yaml.VString s → plain n = true → yaml.EmbeddedDynaml n b = None.
Proof.
  intros Hv. rewrite plain_unfold, Hv. intros [_ Hs]%andb_true_iff.
  apply andb_true_iff in Hs as [Hs1 Hs2].
  destruct b; [by destruct (yaml.EmbeddedDynaml n true)
              | by destruct (yaml.EmbeddedDynaml n false)].
Qed.

Lemma ProcessKeyTag_plain val : plain val = true → flow.ProcessKeyTag val = (val, "").
Proof.
  intros Hp. unfold flow.ProcessKeyTag.
  destruct (yaml.Value val) as [| | | | | |m| |] eqn:Hv; try done.
  destruct (plain_map _ _ Hv Hp) as (_ & _ & Hall).
  rewrite key_tag_search_none; [done|].
  intros k [c Hc]. by apply (Hall k c).
Qed.

End plain_data.

Section plain_flow.
Context `{Dsl} `{!yaml.Helpers} `{!dynaml.API} `{!flow.Control}.

(** The collaborators of a run without stubs, controls and templates. *)
Variable stubless : dynaml.Binding → Prop.
Hypothesis stubless_FindInStubs :
  ∀ env, stubless env → dynaml.FindInStubs env (dynaml.StubPath env) = None.
Hypothesis stubless_WithPath :
  ∀ env step, stubless env → stubless (dynaml.WithPath env step).
Hypothesis stubless_WithScope :
  ∀ env m, stubless env → stubless (dynaml.WithScope env m).
Hypothesis no_control : ∀ node env, dynaml.IsControl node env = (false, None).
Hypothesis no_template_required : ∀ key env, dynaml.RequireTemplate key env = false.
Hypothesis no_inline_merge : ∀ val, yaml.UnresolvedListEntryMerge val = None.
Hypothesis flowControl_nothing_undefined :
  ∀ node env st, flow.flowControl node ∅ env st = Ok (node, st).
Hypothesis nothing_implied : yaml.PropagateImplied 0 = false.
Hypothesis FindR_plain :
  ∀ value features key v,
    plain value = true → yaml.FindR true value features key = Some v →
    flow.is_expr (yaml.Value v) = false.

Lemma get_inherited_flags_stubless env :
  stubless env → flow.get_inherited_flags env = (0, None).
Proof. intros Hs. unfold flow.get_inherited_flags. by rewrite stubless_FindInStubs. Qed.

Lemma _flow_override_stubless root env shouldOverride merged flags replace redirect keyName :
  stubless env →
  flow._flow_override root env shouldOverride merged flags replace redirect keyName = root.
Proof.
  intros Hs. unfold flow._flow_override. rewrite stubless_FindInStubs by done.
  by destruct (_ && _).
Qed.

(** The flow of a node that flows to itself and has no tag. *)
Lemma flow_plain (_flow : flow.FlowFn) root env shouldOverride enforceTemplate st :
  yaml.Annotation_Tag (yaml.GetAnnotation root) = "" →
  _flow root env shouldOverride enforceTemplate st = Ok (root, st) →
  flow.flow _flow root env shouldOverride enforceTemplate st = Ok (root, st).
Proof.
  intros Htag Hflow. rewrite flow_unfold, Hflow. simpl. rewrite Htag.
  by rewrite andb_false_r.
Qed.

Lemma _flow_plain_scalar flowMap flowList root env shouldOverride enforceTemplate st :
  plain root = true → stubless env →
  flow.is_map (yaml.Value root) = false → (∀ l, yaml.Value root ≠ yaml.VList l) →
  flow._flow flowMap flowList root env shouldOverride enforceTemplate st = Ok (root, st).
Proof.
  intros Hp Hs Hmap Hlist.
  destruct (plain_node _ Hp) as (Hm & Hr & Hrp & _ & _ & _ & He).
  unfold flow._flow. rewrite Hr, Hrp, Hm, He. cbn [negb andb].
  unfold mbind, M_bind, bind, mret, M_ret, ret.
  destruct (yaml.Value root) as [| | | |s|l|m| |] eqn:Hv; try done;
    try by rewrite _flow_override_stubless.
  - unfold flow.FlowString. rewrite (plain_string _ _ _ Hv Hp). cbn [fst].
    rewrite Hv. simpl. by rewrite _flow_override_stubless.
  - by destruct (Hlist l).
Qed.

Lemma stepName_plain (_flow : flow.FlowFn) index value keyName env st :
  plain value = true →
  ∃ step, flow.stepName _flow index value keyName env st = Ok ((step, true), st).
Proof.
  intros Hp. unfold flow.stepName.
  destruct (yaml.FindString value _ _) as [name|]; [by eexists|].
  destruct (yaml.FindR true value _ _) as [v|] eqn:Hv; [|by eexists].
  rewrite (FindR_plain _ _ _ _ Hp Hv).
  destruct (negb (flow.is_nil (yaml.Value v))); [|by eexists].
  unfold mbind, M_bind, bind, mret, M_ret, ret.
  destruct (yaml.Value v); by eexists.
Qed.

(** The loop over the elements of a list whose elements flow to themselves. *)
Lemma flowList_elements_plain (_flow : flow.FlowFn) keyName env l :
  stubless env →
  Forall (λ val, plain val = true
                 ∧ ∀ env so st, stubless env →
                     _flow val env so false st = Ok (val, st)) l →
  ∀ i acc st,
    foldM (flow.flowList_element _flow keyName env) l (i, acc) st
    = Ok (((i + length l)%nat, (acc ++ l)%list), st).
Proof.
  intros Hs. induction 1 as [|val l [Hp Hflow] _ IH]; intros i acc st; simpl.
  - unfold ret. by rewrite Nat.add_0_r, app_nil_r.
  - unfold bind at 1. unfold flow.flowList_element at 1.
    unfold mbind, M_bind, bind at 1. cbn [fst snd].
    destruct (stepName_plain _flow i val keyName env st Hp) as [step ->].
    unfold bind at 1.
    destruct (plain_node _ Hp) as (_ & _ & _ & Hu & _ & Htag & _).
    rewrite (flow_plain _ _ _ _ _ _ Htag) by by apply Hflow, stubless_WithPath.
    rewrite Hu. cbn [negb]. unfold mret, M_ret, ret.
    rewrite IH. do 3 f_equal; [lia|]. by rewrite <- app_assoc.
Qed.


Lemma last_key_tag_plain keyName l :
  Forall (λ c, plain c = true) l → last_key_tag keyName l = keyName.
Proof.
  unfold last_key_tag. intros Hl. revert keyName.
  induction Hl as [|val l Hp _ IH]; intros keyName; simpl; [done|].
  by rewrite (ProcessKeyTag_plain _ Hp), IH.
Qed.

Lemma map_ProcessKeyTag_plain l :
  Forall (λ c, plain c = true) l → map (λ val, (flow.ProcessKeyTag val).1) l = l.
Proof.
  induction 1 as [|val l Hp _ IH]; simpl; [done|].
  by rewrite (ProcessKeyTag_plain _ Hp), IH.
Qed.

Lemma processMerges_plain (_flow : flow.FlowFn) orig l env st :
  stubless env → Forall (λ c, plain c = true) l →
  flow.processMerges _flow orig l env false st
  = Ok ((yaml.VList l, true, yaml.ReplaceFlag orig, yaml.RedirectPath orig,
         yaml.KeyName orig, false, 0, yaml.Annotation_Tag (yaml.GetAnnotation orig),
         None), st).
Proof.
  intros Hs Hl. unfold flow.processMerges. rewrite get_inherited_flags_stubless by done.
  unfold mbind, M_bind, bind at 1.
  rewrite (processMerges_entries_plain _flow orig l env l)
    by (try done; apply Forall_forall; intros; apply no_inline_merge).
  simpl. unfold bind at 1. unfold bind at 1.
  rewrite processMerges_controls_plain
    by (apply Forall_forall; intros; apply no_control).
  simpl. unfold mret, M_ret, ret.
  by rewrite (map_ProcessKeyTag_plain _ Hl), (last_key_tag_plain _ _ Hl).
Qed.

Lemma KeyNameNode_same root : yaml.KeyNameNode root (yaml.KeyName root) = root.
Proof.
  destruct root as [v s a]. unfold yaml.KeyNameNode, yaml.AddKeyName, yaml.KeyName. simpl.
  destruct (negb _); [|done]. by destruct a.
Qed.

Lemma flowList_plain (_flow : flow.FlowFn) root l env st :
  yaml.Value root = yaml.VList l → plain root = true → stubless env →
  Forall (λ val, ∀ env so st, stubless env → _flow val env so false st = Ok (val, st)) l →
  flow.flowList _flow root env false st = Ok (root, st).
Proof.
  intros Hv Hp Hs Hflow.
  pose proof (plain_list _ _ Hv Hp) as Hl.
  destruct (plain_node _ Hp) as (_ & Hr & Hrp & _ & _ & Htag & _).
  unfold flow.flowList. rewrite Hv. unfold mbind, M_bind, bind at 1.
  rewrite processMerges_plain by done. rewrite Hr, Hrp, Htag. cbn beta iota.
  unfold bind at 1. unfold bind at 1.
  rewrite (flowList_elements_plain _flow (yaml.KeyName root) env l Hs).
  2:{ apply Forall_forall. intros val Hval. split.
      - by apply (proj1 (Forall_forall _ _) Hl).
      - by apply (proj1 (Forall_forall _ _) Hflow). }
  cbn [app]. unfold flow.flowList_inject. unfold mret, M_ret, ret. cbn beta iota.
  assert ((if negb (String.eqb (yaml.KeyName root) "")
           then yaml.KeyNameNode root (yaml.KeyName root) else root) = root) as ->.
  { destruct (negb _); [apply KeyNameNode_same | done]. }
  assert (yaml.SubstituteNode (yaml.VList l) root = root) as ->.
  { destruct root as [v s a]. simpl in Hv. by subst. }
  rewrite Z.lor_0_l, Z.eqb_refl. cbn [negb]. done.
Qed.

(** The loop over the keys of a map whose entries flow to themselves. *)
Lemma flowMap_entries_plain (_flow : flow.FlowFn) m l shouldOverride mergekey keys :
  flow.l_processed l = true → stubless (flow.l_env l) →
  yaml.PropagateImplied (flow.l_flags l) = false →
  Forall (λ k, k ≠ mergekey
               ∧ ∃ c, m !! k = Some c ∧ plain c = true
                      ∧ ∀ env so st, stubless env → _flow c env so false st = Ok (c, st))
    keys →
  ∀ acc st,
    foldM (flow.flowMap_entry _flow m l shouldOverride mergekey) keys acc st
    = Ok ((foldl (λ (newMap : gmap string yaml.Node) k, match m !! k with
                              | Some c => <[k := c]> newMap
                              | None => newMap
                              end) acc.1 keys, acc.2), st).
Proof.
  intros Hproc Hs Himplied.
  induction 1 as [|k keys (Hne & c & Hc & Hp & Hflow) _ IH]; intros [newMap undefined] st.
  - done.
  - simpl. unfold bind at 1. unfold flow.flowMap_entry at 1. rewrite Hc.
    rewrite (proj2 (String.eqb_neq _ _) Hne), Hproc.
    unfold mbind, M_bind, bind at 1. unfold bind at 1.
    destruct (plain_node _ Hp) as (_ & _ & _ & Hu & _ & Htag & _).
    rewrite no_template_required.
    rewrite (flow_plain _ _ _ _ _ _ Htag) by by apply Hflow, stubless_WithPath.
    unfold mret, M_ret, ret. rewrite Hu, Himplied. cbn [negb fst snd].
    by rewrite IH.
Qed.

Lemma foldl_entries_lookup (m : gmap string yaml.Node) keys :
  ∀ (acc : gmap string yaml.Node) (k : string),
    foldl (λ (newMap : gmap string yaml.Node) k, match m !! k with
                       | Some c => <[k := c]> newMap
                       | None => newMap
                       end) acc keys !! k
    = if decide (k ∈ keys) then
        match m !! k with Some c => Some c | None => acc !! k end
      else acc !! k.
Proof.
  induction keys as [|k0 keys IH]; intros acc k.
  - destruct (decide (k ∈ [])) as [Hin|]; [by apply elem_of_nil in Hin | done].
  - cbn [foldl]. rewrite IH.
    destruct (decide (k ∈ keys)) as [Hin|Hnin];
      destruct (decide (k ∈ k0 :: keys)) as [Hin'|Hnin'].
    + destruct (m !! k) as [c|] eqn:Hk; [done|].
      destruct (m !! k0) as [c0|] eqn:Hk0; [|done].
      rewrite lookup_insert_ne; [done|]. intros ->. congruence.
    + destruct Hnin'. by right.
    + apply elem_of_cons in Hin' as [->|]; [|done].
      destruct (m !! k0) as [c0|]; [by rewrite lookup_insert_eq | done].
    + destruct (m !! k0) as [c0|]; [|done].
      rewrite lookup_insert_ne; [done|]. intros ->. destruct Hnin'. by left.
Qed.

Lemma foldl_entries_sorted (m : gmap string yaml.Node) :
  foldl (λ (newMap : gmap string yaml.Node) k, match m !! k with
                     | Some c => <[k := c]> newMap
                     | None => newMap
                     end) ∅ (yaml.GetSortedKeys m) = m.
Proof.
  apply map_eq. intros k. rewrite foldl_entries_lookup, lookup_empty.
  destruct (decide (k ∈ yaml.GetSortedKeys m)) as [Hin|Hnin].
  - by destruct (m !! k).
  - symmetry. apply eq_None_not_Some. intros Hk. by apply Hnin, elem_of_GetSortedKeys.
Qed.

Lemma flowMap_plain (_flow : flow.FlowFn) root m env shouldOverride st :
  yaml.Value root = yaml.VMap m → plain root = true → stubless env →
  (∀ k c, m !! k = Some c →
          ∀ env so st, stubless env → _flow c env so false st = Ok (c, st)) →
  flow.flowMap _flow root env shouldOverride false st = Ok (root, st).
Proof.
  intros Hv Hp Hs Hflow.
  destruct (plain_map _ _ Hv Hp) as (Hm1 & Hm2 & Hall).
  destruct (plain_node _ Hp) as (_ & Hr & Hrp & _ & Hf & Htag & _).
  unfold flow.flowMap. rewrite get_inherited_flags_stubless by done.
  rewrite Hv, Hm1, Hm2, Hr, Hrp, Htag. unfold flow.flowMap_rest. rewrite Hf.
  cbn [flow.l_template flow.l_addEntries flow.l_newMap flow.l_merged flow.l_flags
       flow.l_env flow.l_replace flow.l_redirect flow.l_err flow.l_tag].
  unfold mbind, M_bind, bind at 1.
  rewrite (flowMap_entries_plain _flow m _ shouldOverride yaml.MERGEKEY);
    [|done|by apply stubless_WithScope|done|].
  2:{ apply Forall_forall. intros k [c Hc]%elem_of_GetSortedKeys.
      destruct (Hall k c Hc) as [_ Hpc]. split; [intros ->; congruence|].
      exists c. split; [done|]. split; [done|]. by apply (Hflow k c). }
  cbn [fst snd]. rewrite foldl_entries_sorted. unfold flow.flowMap_inject.
  cbn beta iota. unfold bind at 1.
  assert (yaml.RedirectNode (yaml.VMap m) root None = root) as ->.
  { destruct root as [v s a]. simpl in Hv. subst v.
    unfold yaml.RedirectPath in Hrp. simpl in Hrp.
    unfold yaml.RedirectNode, yaml.SetRedirectPath, yaml.MassageType. simpl.
    destruct a; simpl in *. by subst. }
  rewrite flowControl_nothing_undefined. unfold mret, M_ret, ret.
  unfold flow.updateNode. rewrite Z.lor_0_l, Z.eqb_refl. cbn [negb]. done.
Qed.

Lemma node_size_pos n : (1 ≤ node_size n)%nat.
Proof. destruct n as [[] s a]; simpl; lia. Qed.

Lemma _flowN_plain n :
  plain n = true →
  ∀ fuel env so st, (node_size n ≤ fuel)%nat → stubless env →
                    flow._flowN fuel n env so false st = Ok (n, st).
Proof.
  induction n as [v s a IHm IHl] using node_ind'. intros Hp fuel env so st Hfuel Hs.
  destruct fuel as [|fuel];
    [pose proof (node_size_pos (yaml.AnnotatedNode v s a)); lia|].
  change (flow._flowN (S fuel))
    with (flow._flow (flow.flowMap (flow._flowN fuel)) (flow.flowList (flow._flowN fuel))).
  destruct (plain_node _ Hp) as (Hm & Hr & Hrp & _ & _ & _ & He).
  destruct v as [| | | | |l|m| |];
    try (apply _flow_plain_scalar; [done | done | done | by intros ?]).
  - (* a list *)
    unfold flow._flow. rewrite Hr, Hrp, Hm. cbn [negb andb yaml.Value flow.is_expr].
    unfold mbind, M_bind, bind, mret, M_ret, ret.
    rewrite (flowList_plain (flow._flowN fuel) _ l); [done..|].
    apply Forall_forall. intros val Hval env' so' st' Hs'.
    pose proof (plain_list (yaml.AnnotatedNode (yaml.VList l) s a) l eq_refl Hp) as Hl.
    apply (proj1 (Forall_forall _ _) (IHl l eq_refl) val Hval);
      [by apply (proj1 (Forall_forall _ _) Hl) | | done].
    pose proof (node_size_list_child l val s a Hval). lia.
  - (* a map *)
    unfold flow._flow. rewrite Hr, Hrp, Hm. cbn [negb andb yaml.Value flow.is_expr].
    rewrite no_control. unfold mbind, M_bind, bind, mret, M_ret, ret.
    rewrite (flowMap_plain (flow._flowN fuel) _ m); [done..|].
    intros k c Hc env' so' st' Hs'.
    destruct (plain_map (yaml.AnnotatedNode (yaml.VMap m) s a) m eq_refl Hp)
      as (_ & _ & Hall).
    apply (IHm m eq_refl k c Hc); [by apply (Hall k c) | | done].
    pose proof (node_size_map_child m k c s a Hc). lia.
Qed.

(** X21. Plain data is a fixed point of the flow.  In a run without stubs,
    controls, inline merges and required templates, a document that holds no
    expression, no text that embeds one, no merge key and no key tag, and
    whose nodes are not marked as merged, replaced, redirected, undefined or
    failed and carry no tag, flows to itself: [flow] returns the document
    given, for every [shouldOverride], with fuel for the size of the
    document, and leaves the state of the run alone. *)
Theorem plain_data_flows_to_itself (n : yaml.Node) (fuel : nat) (env : dynaml.Binding)
    (shouldOverride : bool) (st : dynaml.State) :
  plain n = true → stubless env → (node_size n ≤ fuel)%nat →
  flow.flowN fuel n env shouldOverride false st = Ok (n, st).
Proof.
  intros Hp Hs Hfuel. unfold flow.flowN. apply flow_plain.
  - by destruct (plain_node _ Hp) as (_ & _ & _ & _ & _ & Htag & _).
  - by apply _flowN_plain.
Qed.

End plain_flow.

(** ** The merge of a map *)
Section map_merge.
Context `{Dsl} `{!yaml.Helpers} `{!dynaml.API} `{!flow.Control}.

(** One round of the loop of [flowMap] when no merge value is left. *)
Lemma flowMap_entry_merged _flow rootMap l shouldOverride mergekey acc key st acc' st' :
  flow.l_mergeval l = None →
  flow.flowMap_entry _flow rootMap l shouldOverride mergekey acc key st = Ok (acc', st') →
  (∀ k, k ≠ key → acc'.1 !! k = acc.1 !! k ∧ acc'.2 !! k = acc.2 !! k)
  ∧ (key = mergekey → acc' = acc)
  ∧ (acc'.1 !! key = acc.1 !! key ∧ (acc'.2 !! key = acc.2 !! key ∨ is_Some (acc'.2 !! key))
     ∨ acc'.2 = acc.2).
Proof.
  intros Hmv. unfold flow.flowMap_entry. destruct (rootMap !! key) as [val|]; [|done].
  unfold mbind, M_bind, bind, mret, M_ret, ret.
  destruct (String.eqb_spec key mergekey) as [->|Hne].
  - rewrite Hmv. intros ?; simplify_eq. split; [done|]. split; [done|]. by right.
  - set (m := if flow.l_processed l then _ else _).
    destruct (m st) as [[[val'|] st1]| |] eqn:Hm; try done.
    + destruct (negb (yaml.Undefined val')); intros ?; simplify_eq/=.
      * split; [intros k Hk; by rewrite lookup_insert_ne|]. split; [done|]. by right.
      * split; [intros k Hk; by rewrite lookup_insert_ne|]. split; [done|].
        left. split; [done|]. right. rewrite lookup_insert_eq. eauto.
    + intros ?; simplify_eq. split; [done|]. split; [done|]. by right.
Qed.

Lemma flowMap_entries_merged _flow rootMap l shouldOverride mergekey keys :
  flow.l_mergeval l = None → NoDup keys →
  ∀ acc st acc' st',
    foldM (flow.flowMap_entry _flow rootMap l shouldOverride mergekey) keys acc st
    = Ok (acc', st') →
    (∀ k, k ∉ keys → acc'.1 !! k = acc.1 !! k ∧ acc'.2 !! k = acc.2 !! k)
    ∧ acc'.1 !! mergekey = acc.1 !! mergekey
    ∧ (∀ k, is_Some (acc'.2 !! k) → acc.2 !! k = None → acc'.1 !! k = acc.1 !! k).
Proof.
  intros Hmv Hnd. induction Hnd as [|key keys Hkey Hnd IH]; intros acc st acc' st'; simpl.
  - unfold ret. intros ?; simplify_eq. done.
  - unfold bind at 1.
    destruct (flow.flowMap_entry _ _ _ _ _ acc key st) as [[acc1 st1]| |] eqn:He; try done.
    intros Hrest. apply (flowMap_entry_merged _ _ _ _ _ _ _ _ _ _ Hmv) in He
      as (He1 & He2 & He3).
    apply IH in Hrest as (Hr1 & Hr2 & Hr3). split; [|split].
    + intros k Hk. apply not_elem_of_cons in Hk as [Hne Hk].
      destruct (Hr1 k Hk) as [-> ->]. by apply He1.
    + rewrite Hr2. destruct (decide (key = mergekey)) as [Heq|Hne].
      * by rewrite (He2 Heq).
      * by apply He1.
    + intros k Hk Hnone. destruct (decide (k = key)) as [->|Hne].
      * destruct (Hr1 key Hkey) as [Hn1 Hn2]. rewrite Hn1.
        destruct He3 as [[Heq _]|Heq]; [done|].
        rewrite Hn2, Heq, Hnone in Hk. by destruct Hk.
      * destruct (He1 k Hne) as [Hk1 Hk2]. rewrite <- Hk1.
        apply Hr3; [done|]. by rewrite Hk2.
Qed.

(** X22. What a merged map contributes.  When the value of the merge key
    flows to a map, its entries are copied into [newMap], no merge value is
    left, and no error is raised.  In the loop over the keys that follows,
    the entries of the document go over the copied ones, and the copied ones
    fill the gaps: where the document has no entry, under the merge key, and
    where the entry of the document flows to an undefined node, [newMap] holds
    what it held before the loop. *)
Theorem merged_entries_fill_the_gaps (_flow : flow.FlowFn) :
  (∀ root l val st base st1 baseMap,
      _flow val (flow.l_env l) false false st = Ok (base, st1) →
      yaml.Undefined base = false → yaml.Value base = yaml.VMap baseMap →
      ∃ l', flow.flowMap_merge _flow root l val st = Ok (inr l', st1)
            ∧ (∀ k, flow.l_newMap l' !! k
                    = match baseMap !! k with
                      | Some v => Some v
                      | None => flow.l_newMap l !! k
                      end)
            ∧ flow.l_mergeval l' = None ∧ flow.l_err l' = flow.l_err l
            ∧ flow.l_processed l' = flow.l_processed l
            ∧ flow.l_replace l' = yaml.ReplaceFlag base
            ∧ flow.l_addEntries l'
              = (if yaml.ReplaceFlag base then false else flow.l_addEntries l))
  ∧ (∀ rootMap l shouldOverride mergekey newMap0 st newMap undefined st',
      flow.l_mergeval l = None →
      foldM (flow.flowMap_entry _flow rootMap l shouldOverride mergekey)
        (yaml.GetSortedKeys rootMap) (newMap0, ∅) st
      = Ok ((newMap, undefined), st') →
      (∀ k, rootMap !! k = None → newMap !! k = newMap0 !! k)
      ∧ newMap !! mergekey = newMap0 !! mergekey
      ∧ (∀ k, is_Some (undefined !! k) → newMap !! k = newMap0 !! k)).
Proof.
  split.
  - intros root l val st base st1 baseMap Hflow Hu Hv.
    unfold flow.flowMap_merge. unfold mbind, M_bind, bind, mret, M_ret, ret.
    rewrite Hflow, Hu, Hv. cbn [flow.is_map flow.is_nil negb orb andb].
    eexists. split; [reflexivity|]. cbn [flow.l_newMap flow.l_mergeval flow.l_err
      flow.l_processed flow.l_replace flow.l_addEntries].
    split; [intros k; apply copy_entries_lookup|]. done.
  - intros rootMap l shouldOverride mergekey newMap0 st newMap undefined st' Hmv Hloop.
    apply (flowMap_entries_merged _ _ _ _ _ _ Hmv (NoDup_GetSortedKeys rootMap)) in Hloop
      as (Hl1 & Hl2 & Hl3). simpl in *. split; [|split].
    + intros k Hk. apply Hl1. intros Hin%elem_of_GetSortedKeys.
      rewrite Hk in Hin. by destruct Hin.
    + done.
    + intros k Hk. by apply Hl3.
Qed.

End map_merge.

Section for_variables.
Context `{Dsl} `{!yaml.Helpers} `{!dynaml.API} `{!fmt.Fmt}.

Lemma for_inp_lookup ranges :
  ∀ acc inp,
    NoDup (flat_map (λ r, [control.name r; control.index r]) ranges) →
    control.for_inp ranges acc = Some inp →
    (∀ r, r ∈ ranges →
          ∃ v i, control.iteration_Value r = Some v ∧ control.iteration_Index r = Some i
                 ∧ inp !! control.name r = Some v
                 ∧ inp !! control.IndexName r = Some (yaml.NewNode i "for"))
    ∧ (∀ k, k ∉ flat_map (λ r, [control.name r; control.index r]) ranges →
            inp !! k = acc !! k).
Proof.
  induction ranges as [|r ranges IH]; intros acc inp Hnd; simpl.
  - intros ?; simplify_eq. split; [|done]. intros r Hr. by apply elem_of_nil in Hr.
  - destruct (control.iteration_Value r) as [v|] eqn:Hv; [|done].
    destruct (control.iteration_Index r) as [i|] eqn:Hi; [|done].
    simpl in Hnd. apply NoDup_cons in Hnd as [Hname Hnd].
    apply NoDup_cons in Hnd as [Hindex Hnd].
    intros Hrest. destruct (IH _ _ Hnd Hrest) as [Hin Hout]. split.
    + intros r' Hr'. apply elem_of_cons in Hr' as [Heq|Hr']; [subst r'|by apply Hin].
      exists v, i. split; [done|]. split; [done|].
      assert (control.name r ≠ control.index r) as Hne.
      { intros Heq. apply Hname. rewrite Heq. by left. }
      rewrite (Hout (control.name r)), (Hout (control.IndexName r)).
      * rewrite lookup_insert_ne by done. by rewrite !lookup_insert_eq.
      * done.
      * intros Hk. apply Hname. by right.
    + intros k Hk. apply not_elem_of_cons in Hk as [Hk1 Hk].
      apply not_elem_of_cons in Hk as [Hk2 Hk].
      rewrite (Hout k Hk). unfold control.IndexName. by rewrite !lookup_insert_ne.
Qed.

(** X23. The variables of a round.  When no two of the variable names and
    index names of the ranges are the same, the scope that a round of the
    [for] loop builds binds, for every range, the variable to the value that
    the counter of the range points at and the index variable to a node that
    holds the index of that value, and it binds nothing else. *)
Theorem for_inp_binds_the_variables (ranges : control.iterations)
    (inp : gmap string yaml.Node) :
  NoDup (flat_map (λ r, [control.name r; control.index r]) ranges) →
  control.for_inp ranges ∅ = Some inp →
  (∀ r, r ∈ ranges →
        ∃ v i, control.iteration_Value r = Some v ∧ control.iteration_Index r = Some i
               ∧ inp !! control.name r = Some v
               ∧ inp !! control.IndexName r = Some (yaml.NewNode i "for"))
  ∧ (∀ k, is_Some (inp !! k) →
          ∃ r, r ∈ ranges ∧ (k = control.name r ∨ k = control.IndexName r)).
Proof.
  intros Hnd Hinp. destruct (for_inp_lookup _ _ _ Hnd Hinp) as [Hin Hout].
  split; [done|]. intros k Hk.
  destruct (decide (k ∈ flat_map (λ r, [control.name r; control.index r]) ranges))
    as [Hkin|Hkout].
  - apply list_elem_of_In, in_flat_map in Hkin as (r & Hr%list_elem_of_In & Hkr).
    exists r. split; [done|]. simpl in Hkr. unfold control.IndexName. intuition.
  - rewrite (Hout k Hkout), lookup_empty in Hk. by destruct Hk.
Qed.

End for_variables.

(** * The statements on the example instance *)
Section runs.
Import example.

(** The witness of C1: the stub has [X] where the document has a replaced
    [x]; the node is returned as it is. *)
Lemma replace_flag_excludes_stub_overlay_witness :
  yaml.ReplaceFlag replaced = true
  ∧ flow._flowN 1 replaced (env0 [stub_scalar]) true false [] = Ok (replaced, []).
Proof.
  split; [reflexivity|].
  exact (proj1 (@replace_flag_excludes_stub_overlay dsl helpers api control_ 0%nat replaced
                  (env0 [stub_scalar])
                  true false [] eq_refl)).
Defined.

(** Without the flag, the stub value takes the place of the scalar. *)
Example unreplaced_scalar_is_overridden :
  flow._flowN 1 (scalar "x") (env0 [stub_scalar]) true false []
  = Ok (yaml.AddFlags stub_scalar 0, []).
Proof. vm_compute. reflexivity. Qed.

(** C2 at work: the child [a] evaluates to an undefined node, and the map that
    [flow] returns has the key [b] only. *)
Example undefined_child_is_dropped :
  flow.flowN 2 with_undefined (env0 []) true false []
  = Ok (mapping {[ "b" := number 1 ]}, []).
Proof. vm_compute. reflexivity. Qed.

(** The counterexample to C2: the entry of the list is a control whose merge
    value is undefined.  Its flow result is the control marked undefined,
    which is no list, and [flowList] returns a list that holds it. *)
Lemma undefined_control_result_is_kept :
  @dynaml.IsControl dsl controls.api_for controls.undefined_for (env0 []) = (true, None)
  ∧ @flow._flowN dsl helpers controls.api_for controls.control_for 2
      controls.undefined_for (env0 []) false false []
    = Ok (yaml.UndefinedNode controls.undefined_for, [])
  ∧ yaml.Undefined (yaml.UndefinedNode controls.undefined_for) = true
  ∧ @flow.flowListN dsl helpers controls.api_for controls.control_for 2
      controls.list_of_undefined_for (env0 []) false []
    = Ok (sequence [yaml.UndefinedNode controls.undefined_for], []).
Proof. repeat split; vm_compute; reflexivity. Qed.


(** The counterexample to C3: the ranges of the variables [a] and [b] are
    [b], [a], which is not the ascending order of the names. *)
Lemma for_ranges_not_ascending :
  control.for_ranges map_to_list (mapping for_ab) = inl ranges_ab
  ∧ map control.name ranges_ab = ["b"; "a"]
  ∧ ¬ Sorted (λ x y, strings.Compare x y ≠ Gt) (map control.name ranges_ab).
Proof.
  split; [vm_compute; reflexivity|]. split; [reflexivity|].
  intros Hsorted. inversion Hsorted as [|x l _ Hhd]; subst.
  inversion Hhd as [|y l' Hxy]; subst. by apply Hxy.
Qed.

(** The witness of C3. *)
Lemma for_ranges_descending_by_name_witness :
  yaml.Value (mapping for_ab) = yaml.VMap for_ab
  ∧ control.for_ranges map_to_list (mapping for_ab) = inl ranges_ab
  ∧ StronglySorted
      (λ a b, strings.Compare (control.name a) (control.name b) ≠ Lt
              ∧ (control.name a = control.name b →
                 strings.Compare (control.index a) (control.index b) ≠ Lt))
      ranges_ab.
Proof.
  assert (control.for_ranges map_to_list (mapping for_ab) = inl ranges_ab) as Hranges
    by (vm_compute; reflexivity).
  split; [reflexivity|]. split; [exact Hranges|].
  exact (proj1 (@for_ranges_descending_by_name dsl api fmt_ map_to_list (mapping for_ab) for_ab
                  ranges_ab eq_refl Hranges)).
Defined.

(** The rounds of the loop for these ranges: [b] is counted first, and [a]
    goes up when [b] starts over. *)
Example rounds_of_ranges_ab :
  rounds ranges_ab = 2%nat
  ∧ control.advance ranges_ab
    = Some (Some
        [control.mkIteration "b" "index-b" 0 (Some (control.listIterator [number 3]));
         control.mkIteration "a" "index-a" 1
           (Some (control.listIterator [number 1; number 2]))])
  ∧ control.advance
      [control.mkIteration "b" "index-b" 0 (Some (control.listIterator [number 3]));
       control.mkIteration "a" "index-a" 1
         (Some (control.listIterator [number 1; number 2]))]
    = Some None.
Proof. repeat split; vm_compute; reflexivity. Qed.

(** The counterexample to C4: the expression of the scalar does not parse, and
    [flow] returns the scalar without an issue. *)
Lemma parse_failure_attaches_no_issue :
  yaml.EmbeddedDynaml unparsable false = Some " 1 + "
  ∧ dynaml.Parse " 1 + " [] [] = inr "syntax error in ' 1 + '"
  ∧ flow.flowN 1 unparsable (env0 []) true false [] = Ok (unparsable, [])
  ∧ yaml.HasError unparsable = false
  ∧ yaml.Failed unparsable = false
  ∧ yaml.Issue_of unparsable = yaml.Issue_zero.
Proof. vm_compute. repeat split; reflexivity. Qed.

(** The witness of C4. *)
Lemma parse_failure_is_dropped_witness :
  yaml.Value unparsable = yaml.VString "(( 1 + ))"
  ∧ yaml.EmbeddedDynaml unparsable false = Some " 1 + "
  ∧ dynaml.Parse " 1 + " [] [] = inr "syntax error in ' 1 + '"
  ∧ flow.FlowString unparsable (env0 []) = (unparsable, Some "syntax error in ' 1 + '").
Proof.
  split; [reflexivity|]. split; [vm_compute; reflexivity|].
  split; [vm_compute; reflexivity|].
  refine (proj1 (@parse_failure_is_dropped dsl helpers api (flow.flowMap (flow._flowN 0))
                   (flow.flowList (flow._flowN 0)) unparsable "(( 1 + ))" (env0 [])
                   true false [] " 1 + " "syntax error in ' 1 + '" eq_refl _ _));
    vm_compute; reflexivity.
Defined.

(** The counterexample to C5: the list holds an entry named [a], the stub list
    has an entry named [a] that is flagged INJECT, and the result holds two
    entries named [a]: the entry of the stub, put in front, and the entry of
    the list (with the value the stub has for it). *)
Lemma stub_injection_adds_a_present_element :
  flow.flowListN 2 list_doc (env0 [list_stub]) false [] = Ok (list_injected, [])
  ∧ yaml.Value list_injected
    = yaml.VList [yaml.AddFlags (named "a" 9) yaml.FLAG_INJECT; named "a" 9]
  ∧ yaml.Inject (yaml.Flags (yaml.AddFlags (named "a" 9) yaml.FLAG_INJECT)) = true
  ∧ yaml.FindString (yaml.AddFlags (named "a" 9) yaml.FLAG_INJECT) tt "name" = Some "a"
  ∧ yaml.FindString (named "a" 9) tt "name" = Some "a"
  ∧ yaml.FindString (named "a" 1) tt "name" = Some "a".
Proof. repeat split; vm_compute; reflexivity. Qed.

(** On the next pass the list is flagged as injected and nothing is added. *)
Example stub_injection_happens_once :
  flow.flowListN 2 list_injected (env0 [list_stub]) false [] = Ok (list_injected, []).
Proof. vm_compute. reflexivity. Qed.

(** The witness of C6: the tag [t] is taken for another path, and the node
    comes back failed, with the conflict as its issue and the registry as it
    was. *)
Lemma tag_published_or_conflict_reported_witness :
  flow._flowN 1 tagged (env0 []) false false taken = Ok (tagged, taken)
  ∧ ∃ node',
      flow.flow (flow._flowN 1) tagged (env0 []) false false taken = Ok (node', taken)
      ∧ yaml.HasError node' = true
      ∧ yaml.Failed node' = true
      ∧ yaml.Issue_of node' = yaml.NewIssue "duplicate tag t".
Proof.
  assert (flow._flowN 1 tagged (env0 []) false false taken = Ok (tagged, taken)) as Hflow
    by (vm_compute; reflexivity).
  split; [exact Hflow|].
  destruct (@tag_published_or_conflict_reported dsl api (flow._flowN 1) tagged (env0 []) false
              false taken tagged taken Hflow) as [_ Hpublished].
  destruct (Hpublished eq_refl ltac:(discriminate)) as (_ & _ & Hset).
  assert (dynaml.SetTag (published "*t").1 tagged (dynaml.Path (env0 [])) (published "*t").2
            taken = (Some "duplicate tag t", taken)) as Hconflict
    by (vm_compute; reflexivity).
  change (yaml.Annotation_Tag (yaml.GetAnnotation tagged)) with "*t" in Hset.
  rewrite Hconflict in Hset.
  destruct Hset as (node' & Hflow' & Herror & Hfailed & Hissue & _).
  exists node'. split; [exact Hflow'|]. split; [exact Herror|]. split; [exact Hfailed|].
  apply Hissue. discriminate.
Defined.

(** A tag that is free is registered, without its star. *)
Example tag_is_registered :
  flow.flowN 1 tagged (env0 []) false false [] = Ok (tagged, [("t", [])]).
Proof. vm_compute. reflexivity. Qed.

(** The witness of C7. *)
Lemma multiple_merge_keys_are_an_issue_witness :
  yaml.Value (mapping two_merge_keys) = yaml.VMap two_merge_keys
  ∧ is_Some (two_merge_keys !! "<<") ∧ is_Some (two_merge_keys !! yaml.MERGEKEY)
  ∧ flow.flowMap (flow._flowN 0) (mapping two_merge_keys) (env0 []) true false []
    = Ok (yaml.IssueNode (mapping two_merge_keys) true true
            (yaml.NewIssue "multiple merge keys not allowed"), []).
Proof.
  assert (is_Some (two_merge_keys !! "<<")) as H1 by (vm_compute; eauto).
  assert (is_Some (two_merge_keys !! yaml.MERGEKEY)) as H2 by (vm_compute; eauto).
  split; [reflexivity|]. split; [exact H1|]. split; [exact H2|].
  exact (proj1 (@multiple_merge_keys_are_an_issue dsl helpers api control_ (flow._flowN 0)
                  (mapping two_merge_keys)
                  two_merge_keys (env0 []) true false [] eq_refl H1 H2)).
Defined.

(** C8 at work: the entry [a-b] of a [for] control gets its range. *)
Example for_ranges_accepts_a_dash_b :
  control.for_ranges map_to_list (mapping {[ "a-b" := sequence [number 1] ]})
  = inl [control.mkIteration "a-b" "index-a-b" 0
           (Some (control.listIterator [number 1]))].
Proof. vm_compute. reflexivity. Qed.

End runs.
(** * The further properties on the example instance *)
Section more_runs.
Import example samples.

(** The witness of X1: a map and a list, asked both ways. *)
Lemma EquivalentToNode_symmetric_witness :
  yaml.EquivalentToNode (mapping for_ab) (Some (sequence [number 1]))
  = yaml.EquivalentToNode (sequence [number 1]) (Some (mapping for_ab)).
Proof.
  apply (@EquivalentToNode_symmetric dsl).
  - intros a b. apply bool_decide_ext. split; congruence.
  - reflexivity.
Defined.

(** The witness of X2. *)
Lemma EquivalentToNode_transitive_witness :
  yaml.EquivalentToNode (mapping for_ab) (Some (yaml.MergedNode (mapping for_ab))) = true
  ∧ yaml.EquivalentToNode (yaml.MergedNode (mapping for_ab))
      (Some (yaml.PreferredNode (mapping for_ab))) = true
  ∧ yaml.EquivalentToNode (mapping for_ab) (Some (yaml.PreferredNode (mapping for_ab)))
    = true.
Proof.
  assert (yaml.EquivalentToNode (mapping for_ab) (Some (yaml.MergedNode (mapping for_ab)))
          = true) as H1 by (vm_compute; reflexivity).
  assert (yaml.EquivalentToNode (yaml.MergedNode (mapping for_ab))
            (Some (yaml.PreferredNode (mapping for_ab))) = true) as H2
    by (vm_compute; reflexivity).
  split; [exact H1|]. split; [exact H2|].
  refine (@EquivalentToNode_transitive dsl _ _ _ _ _ H1 H2).
  - intros a b c. cbn. rewrite !bool_decide_eq_true. congruence.
  - reflexivity.
Defined.

(** The witness of X9: a number, with a stub that has another value. *)
Lemma dispatcher_returns_a_plain_scalar_witness :
  flow._flow (flow.flowMapN 0) (flow.flowListN 0) (number 1) (env0 [stub_scalar])
    false false []
  = Ok (number 1, []).
Proof.
  apply (@dispatcher_returns_a_plain_scalar dsl helpers api).
  - reflexivity.
  - intros l. discriminate.
  - reflexivity.
  - intros s. discriminate.
Defined.

(** The witness of X11: the child [a] is undefined and [b] is a number. *)
Lemma flowMap_accounts_for_every_entry_witness :
  foldM (flow.flowMap_entry (flow._flowN 1) undefined_child locals0 true yaml.MERGEKEY)
    (yaml.GetSortedKeys undefined_child) (∅, ∅) []
  = Ok (({[ "b" := number 1 ]}, {[ "a" := undefined_node ]}), [])
  ∧ (∀ k, is_Some (undefined_child !! k) →
          k ≠ yaml.MERGEKEY ∨ is_Some (flow.l_mergeval locals0) →
          is_Some (({[ "b" := number 1 ]} : gmap string yaml.Node) !! k)
          ∨ is_Some (({[ "a" := undefined_node ]} : gmap string yaml.Node) !! k)).
Proof.
  assert (foldM (flow.flowMap_entry (flow._flowN 1) undefined_child locals0 true
                   yaml.MERGEKEY)
            (yaml.GetSortedKeys undefined_child) (∅, ∅) []
          = Ok (({[ "b" := number 1 ]}, {[ "a" := undefined_node ]}), [])) as Hloop
    by (vm_compute; reflexivity).
  split; [exact Hloop|].
  exact (proj1 (@flowMap_accounts_for_every_entry dsl helpers api _ _ _ _ _ _ _ _
                  _ _ Hloop)).
Defined.

(** The witness of X12: the key tag [key:id] is removed and gives the key
    name. *)
Lemma processMerges_hands_plain_entries_on_witness :
  flow.processMerges (flow._flowN 0) (sequence tagged_entries) tagged_entries (env0 [])
    false []
  = Ok ((yaml.VList (map (λ val, (flow.ProcessKeyTag val).1) tagged_entries), true,
         false, None, last_key_tag "" tagged_entries, false, 0, "", None), [])
  ∧ map (λ val, (flow.ProcessKeyTag val).1) tagged_entries
    = [mapping {[ "id" := scalar "x"; "v" := number 1 ]}; number 2]
  ∧ last_key_tag "" tagged_entries = "id".
Proof.
  split; [|split; vm_compute; reflexivity].
  apply (@processMerges_hands_plain_entries_on dsl helpers api).
  - repeat constructor.
  - repeat constructor.
  - constructor; [|constructor; [|constructor]]; intros m Hm; [|discriminate Hm].
    injection Hm as <-.
    assert (∀ k, is_Some (({[ "key:id" := scalar "x"; "v" := number 1 ]}
                             : gmap string yaml.Node) !! k) →
                 k = "key:id" ∨ k = "v") as Hkeys.
    { intros k [v Hk]. apply lookup_insert_Some in Hk as [[<- _]|[_ Hk]]; [by left|].
      apply lookup_singleton_Some in Hk as [<- _]. by right. }
    split.
    + intros k k' [ -> | -> ]%Hkeys [ -> | -> ]%Hkeys Ht Ht'; try done;
        vm_compute in Ht, Ht'; by destruct Ht, Ht'.
    + intros k rest [ -> | -> ]%Hkeys Ht; vm_compute in Ht; [|done].
      injection Ht as <-. vm_compute. reflexivity.
Defined.

(** The witness of X13. *)
Lemma flowMap_undefined_merge_value_witness :
  flow._flowN 1 undefined_expression (env0 []) false false [] = Ok (undefined_node, [])
  ∧ flow.flowMap (flow._flowN 1) (mapping undefined_merge) (env0 []) true false []
    = Ok (yaml.UndefinedNode (mapping undefined_merge), []).
Proof.
  assert (flow._flowN 1 undefined_expression (env0 []) false false []
          = Ok (undefined_node, [])) as Hflow by (vm_compute; reflexivity).
  split; [exact Hflow|].
  refine (proj1 (@flowMap_undefined_merge_value dsl helpers api control_ (flow._flowN 1)
                   (mapping undefined_merge) undefined_merge (env0 []) true false
                   undefined_expression undefined_node [] [] eq_refl _ Hflow eq_refl)).
  left. split; vm_compute; reflexivity.
Defined.

(** The witness of X15. *)
Lemma dispatcher_parses_an_embedded_expression_witness :
  flow._flow (flow.flowMapN 0) (flow.flowListN 0) (scalar "(( merge ))") (env0 [])
    true false []
  = Ok (yaml.NewNode (yaml.VExpr (EMerge false)) "doc", []).
Proof.
  apply (@dispatcher_parses_an_embedded_expression dsl helpers api _ _
           (scalar "(( merge ))") "(( merge ))" " merge " (EMerge false));
    vm_compute; reflexivity.
Defined.

(** The witness of X18: the variable [a] has an empty list of values. *)
Lemma flowFor_panics_on_an_empty_range_witness :
  control.for_ranges map_to_list (mapping for_nothing) = inl ranges_nothing
  ∧ control.flowFor map_to_list 1 (mapping for_nothing) (mapping ∅) ∅ plain_body
      (env0 []) []
    = Panic.
Proof.
  assert (control.for_ranges map_to_list (mapping for_nothing) = inl ranges_nothing)
    as Hranges by (vm_compute; reflexivity).
  split; [exact Hranges|].
  refine (@flowFor_panics_on_an_empty_range dsl api fmt_ map_to_list 0%nat
            (mapping for_nothing) (mapping ∅) (scalar "x") ∅ plain_body (env0 []) []
            ranges_nothing _ _ _ _ I Hranges _); try (vm_compute; reflexivity).
  left. exists for_nothing, "a", (sequence []). split; [reflexivity|].
  split; [|by left]. apply elem_of_map_to_list. vm_compute. reflexivity.
Defined.

(** The witness of X19. *)
Lemma list_iteration_accepts_known_fields_only_witness :
  control.list_iteration variable_x = inl range_x
  ∧ ∃ spec n values,
      yaml.Value variable_x = yaml.VMap spec
      ∧ spec !! "name" = Some n ∧ yaml.Value n = yaml.VString "x"
      ∧ spec !! "values" = Some values
      ∧ (∀ k, is_Some (spec !! k) → k = "name" ∨ k = "values" ∨ k = "index").
Proof.
  assert (control.list_iteration variable_x = inl range_x) as Hit
    by (vm_compute; reflexivity).
  split; [exact Hit|].
  destruct (@list_iteration_accepts_known_fields_only dsl api fmt_ variable_x
              range_x Hit) as (spec & n & values & H1 & H2 & H3 & H4 & H5 & _).
  exists spec, n, values. auto.
Defined.

(** The witness of X20: two values for [a] and one for [b] give the body
    twice. *)
Lemma flowFor_repeats_a_plain_body_witness :
  control.for_ranges map_to_list (mapping for_ab) = inl ranges_ab
  ∧ rounds ranges_ab = 2%nat
  ∧ control.flowFor map_to_list 2 (mapping for_ab) (mapping ∅) ∅ plain_body (env0 []) []
    = Ok ((yaml.NewNode (yaml.VList (replicate (rounds ranges_ab) (scalar "x"))) "doc",
           true), []).
Proof.
  assert (control.for_ranges map_to_list (mapping for_ab) = inl ranges_ab) as Hranges
    by (vm_compute; reflexivity).
  split; [exact Hranges|]. split; [reflexivity|].
  refine (@flowFor_repeats_a_plain_body dsl api fmt_ map_to_list 2%nat
            (mapping for_ab) (mapping ∅) (scalar "x") ∅ plain_body (env0 []) []
            ranges_ab _ _ _ _ _ _ Hranges _ _); try (vm_compute; reflexivity).
  repeat constructor; eauto.
Defined.

(** The witness of X21: without stubs, the plain document flows to itself. *)
Lemma plain_data_flows_to_itself_witness :
  plain plain_document = true
  ∧ flow.flowN 5 plain_document (env0 []) true false [] = Ok (plain_document, []).
Proof.
  assert (plain plain_document = true) as Hplain by (vm_compute; reflexivity).
  split; [exact Hplain|].
  refine (@plain_data_flows_to_itself dsl helpers api control_
            (λ env, b_stubs env = []) _ _ _ _ _ _ _ _ _
            plain_document 5%nat (env0 []) true [] Hplain eq_refl _).
  - intros env Hs. simpl. by rewrite Hs.
  - intros env step Hs. exact Hs.
  - intros env m Hs. exact Hs.
  - reflexivity.
  - reflexivity.
  - reflexivity.
  - reflexivity.
  - reflexivity.
  - intros value features key v Hp Hv. simpl in Hv. unfold lookup_node in Hv.
    destruct (yaml.Value value) as [| | | | | |m| |] eqn:Hvalue; try discriminate.
    destruct (plain_map value m Hvalue Hp) as (_ & _ & Hall).
    destruct (Hall key v Hv) as [_ Hpv].
    by destruct (plain_node v Hpv) as (_ & _ & _ & _ & _ & _ & He).
  - vm_compute. lia.
Defined.

(** The witness of X23: the first round for the variables [a] and [b]. *)
Lemma for_inp_binds_the_variables_witness :
  control.for_inp ranges_ab ∅ = Some round_ab
  ∧ ∀ r, r ∈ ranges_ab →
         ∃ v i, control.iteration_Value r = Some v ∧ control.iteration_Index r = Some i
                ∧ round_ab !! control.name r = Some v
                ∧ round_ab !! control.IndexName r = Some (yaml.NewNode i "for").
Proof.
  assert (control.for_inp ranges_ab ∅ = Some round_ab) as Hinp
    by (vm_compute; reflexivity).
  split; [exact Hinp|].
  refine (proj1 (@for_inp_binds_the_variables dsl ranges_ab round_ab _ Hinp)).
  simpl. repeat first [apply NoDup_nil_2 | apply NoDup_cons_2;
    [rewrite ?elem_of_cons, ?elem_of_nil; intuition discriminate|]].
Defined.

End more_runs.
